(** * STATESTUDIO replay engine and VisualState schema: a shallow embedding

    The development follows the TypeScript sources:
    - [hooks/useReplayPlayer.ts]  : [clamp], [findFrameIndex], the playback clock;
    - [hooks/useReplayEpisode.ts] : episode loading and duration reconciliation;
    - [lib/api/replayApi.ts]      : [ReplayFrame], [ReplayEpisode];
    - [lib/visualState.ts]        : the zod schema and the normalisers;
    - [components/visual/damp.ts] and [smoothValue] : exponential smoothing.

    JavaScript numbers are modelled by the type [number] below: the three
    special values NaN, -Infinity, +Infinity and the finite values, the latter
    as rationals.  Comparisons are exact; arithmetic on finite values is not
    rounded and does not overflow; the two signed zeros are identified. *)

From Stdlib Require Import ZArith QArith Qminmax Qround Bool List String Lia Lqa.
From Stdlib Require Import Sorting Permutation.
From Stdlib Require Reals.
Import ListNotations.

Set Implicit Arguments.
Set Warnings "-register-all".
Open Scope string_scope.
Open Scope list_scope.
Open Scope Q_scope.

(* ================================================================= *)
(** ** JavaScript numbers *)

Inductive number : Type :=
| NaN
| NegInf
| PosInf
| Fin (q : Q).

Definition Qlt_bool (p q : Q) : bool := negb (Qle_bool q p).

(** [a < b] *)
Definition lt (a b : number) : bool :=
  match a, b with
  | NaN, _ | _, NaN => false
  | NegInf, NegInf => false
  | NegInf, _ => true
  | PosInf, _ => false
  | Fin _, NegInf => false
  | Fin _, PosInf => true
  | Fin p, Fin q => Qlt_bool p q
  end.

(** [a <= b] *)
Definition le (a b : number) : bool :=
  match a, b with
  | NaN, _ | _, NaN => false
  | NegInf, _ => true
  | PosInf, PosInf => true
  | PosInf, _ => false
  | Fin _, NegInf => false
  | Fin _, PosInf => true
  | Fin p, Fin q => Qle_bool p q
  end.

(** [a > b] and [a >= b] *)
Definition gt (a b : number) : bool := lt b a.
Definition ge (a b : number) : bool := le b a.

(** [a === b] on numbers *)
Definition strict_eq (a b : number) : bool :=
  match a, b with
  | NegInf, NegInf | PosInf, PosInf => true
  | Fin p, Fin q => Qeq_bool p q
  | _, _ => false
  end.

Definition isNaN (a : number) : bool :=
  match a with NaN => true | _ => false end.

(** [Number.isFinite] on a number *)
Definition isFinite (a : number) : bool :=
  match a with Fin _ => true | _ => false end.

(** ToBoolean on a number: NaN and zero are falsy. *)
Definition truthy (a : number) : bool :=
  match a with
  | NaN => false
  | Fin q => negb (Qeq_bool q 0)
  | _ => true
  end.

(** [a || b] on numbers *)
Definition or_else (a b : number) : number := if truthy a then a else b.

Definition neg (a : number) : number :=
  match a with
  | NaN => NaN
  | NegInf => PosInf
  | PosInf => NegInf
  | Fin q => Fin (- q)
  end.

(** [a + b] *)
Definition add (a b : number) : number :=
  match a, b with
  | NaN, _ | _, NaN => NaN
  | PosInf, NegInf | NegInf, PosInf => NaN
  | PosInf, _ | _, PosInf => PosInf
  | NegInf, _ | _, NegInf => NegInf
  | Fin p, Fin q => Fin (p + q)
  end.

(** [a - b] *)
Definition sub (a b : number) : number := add a (neg b).

(** The sign of a non-NaN number, as a comparison with zero. *)
Definition sign (a : number) : comparison :=
  match a with
  | NaN => Eq
  | NegInf => Lt
  | PosInf => Gt
  | Fin q => q ?= 0
  end.

(** [a * b]: an infinity times zero is NaN. *)
Definition mul (a b : number) : number :=
  match a, b with
  | NaN, _ | _, NaN => NaN
  | Fin p, Fin q => Fin (p * q)
  | _, _ =>
      match sign a, sign b with
      | Eq, _ | _, Eq => NaN
      | Lt, Lt | Gt, Gt => PosInf
      | _, _ => NegInf
      end
  end.

(** [a / b]; a zero divisor is read as +0. *)
Definition div (a b : number) : number :=
  match a, b with
  | NaN, _ | _, NaN => NaN
  | Fin p, Fin q =>
      if Qeq_bool q 0
      then match p ?= 0 with Eq => NaN | Lt => NegInf | Gt => PosInf end
      else Fin (p / q)
  | Fin _, _ => Fin 0
  | _, Fin q =>
      match sign a, (if Qlt_bool q 0 then Lt else Gt) with
      | Lt, Lt | Gt, Gt => PosInf
      | _, _ => NegInf
      end
  | _, _ => NaN
  end.

(** [Math.max(a, b)] and [Math.min(a, b)]: NaN when an argument is NaN. *)
Definition Math_max (a b : number) : number :=
  match a, b with
  | NaN, _ | _, NaN => NaN
  | _, _ => if lt a b then b else a
  end.

Definition Math_min (a b : number) : number :=
  match a, b with
  | NaN, _ | _, NaN => NaN
  | _, _ => if lt b a then b else a
  end.

(** [function clamp(value, min, max) { return Math.min(max, Math.max(min, value)); }] *)
Definition clamp (value min max : number) : number :=
  Math_min max (Math_max min value).

Definition num_of_Z (z : Z) : number := Fin (inject_Z z).

Definition num_of_nat (n : nat) : number := num_of_Z (Z.of_nat n).

(* ================================================================= *)
(** ** Untyped JavaScript values ([unknown]) *)

(** What [JSON.parse] or a caller can hand to a validator.  An object is the
    list of its own properties; a key that is absent reads as [undefined]. *)
Inductive raw : Type :=
| RUndefined
| RNull
| RBool (b : bool)
| RNum (n : number)
| RStr (s : string)
| RArr (items : list raw)
| RObj (fields : list (string * raw)).

(** [obj[key]] *)
Fixpoint get (fields : list (string * raw)) (key : string) : raw :=
  match fields with
  | [] => RUndefined
  | (k, v) :: rest => if String.eqb k key then v else get rest key
  end.

(** Fallible code: a thrown [Error(message)] is [Err message]. *)
Inductive result (A : Type) : Type :=
| Ok (a : A)
| Err (message : string).
Arguments Ok {A} a.
Arguments Err {A} message.

Definition bind {A B : Type} (r : result A) (k : A -> result B) : result B :=
  match r with
  | Ok a => k a
  | Err m => Err m
  end.

Notation "x <- e ;; k" := (bind e (fun x => k))
  (at level 61, e at next level, right associativity).

Fixpoint mapM {A B : Type} (f : A -> result B) (l : list A) : result (list B) :=
  match l with
  | [] => Ok []
  | a :: rest => b <- f a ;; bs <- mapM f rest ;; Ok (b :: bs)
  end.

(* ================================================================= *)
(** ** lib/api/replayApi.ts *)

Module Frame.
Record ReplayFrame : Type := {
  t : number;
  input_text : option string;
  system_signals : list (string * raw);
  system_state : option raw;
  visual : raw;
  meta : option raw;
}.
End Frame.
Abbreviation ReplayFrame := Frame.ReplayFrame.

Module Episode.
Record ReplayEpisode : Type := {
  episode_id : string;
  created_at : string;
  updated_at : string;
  title : option string;
  frames : list ReplayFrame;
  duration : number;
  version : string;
}.
End Episode.
Abbreviation ReplayEpisode := Episode.ReplayEpisode.

Definition invalid (name expected : string) : string :=
  ("Invalid " ++ name ++ ": expected " ++ expected)%string.

Definition assertObject (value : raw) (name : string) : result (list (string * raw)) :=
  match value with
  | RObj fields => Ok fields
  | _ => Err (invalid name "object")
  end.

Definition assertString (value : raw) (name : string) : result string :=
  match value with
  | RStr s => Ok s
  | _ => Err (invalid name "string")
  end.

Definition assertNumber (value : raw) (name : string) : result number :=
  match value with
  | RNum n => if isNaN n then Err (invalid name "number") else Ok n
  | _ => Err (invalid name "number")
  end.

(** [typeof v === "string" ? v : v == null ? null : undefined] *)
Definition string_or_none (value : raw) : option string :=
  match value with
  | RStr s => Some s
  | _ => None
  end.

(** [typeof v === "object" && v !== null] *)
Definition is_object_like (value : raw) : bool :=
  match value with
  | RObj _ | RArr _ => true
  | _ => false
  end.

Definition validateReplayFrame (value : raw) : result ReplayFrame :=
  obj <- assertObject value "replay frame" ;;
  match get obj "system_signals" with
  | RObj systemSignals =>
      t <- assertNumber (get obj "t") "t" ;;
      Ok {| Frame.t := t;
            Frame.input_text := string_or_none (get obj "input_text");
            Frame.system_signals := systemSignals;
            Frame.system_state :=
              (if is_object_like (get obj "system_state")
               then Some (get obj "system_state") else None);
            Frame.visual :=
              (if is_object_like (get obj "visual")
               then get obj "visual" else RObj []);
            Frame.meta :=
              (if is_object_like (get obj "meta")
               then Some (get obj "meta") else None) |}
  | _ => Err "Invalid system_signals: expected object"
  end.

Definition validateEpisode (value : raw) : result ReplayEpisode :=
  obj <- assertObject value "replay episode" ;;
  frames <- match get obj "frames" with
            | RArr items => mapM validateReplayFrame items
            | _ => Ok []
            end ;;
  episode_id <- assertString (get obj "episode_id") "episode_id" ;;
  created_at <- assertString (get obj "created_at") "created_at" ;;
  updated_at <- assertString (get obj "updated_at") "updated_at" ;;
  duration <- assertNumber (get obj "duration") "duration" ;;
  version <- assertString (get obj "version") "version" ;;
  Ok {| Episode.episode_id := episode_id;
        Episode.created_at := created_at;
        Episode.updated_at := updated_at;
        Episode.title := string_or_none (get obj "title");
        Episode.frames := frames;
        Episode.duration := duration;
        Episode.version := version |}.

(** What [fetchJson] settles with: the parsed body, or a thrown
    [FetchJsonError] with its message. *)
Inductive fetched : Type :=
| Body (data : raw)
| Failed (message : string).

(** [getEpisode]: the request's outcome, validated. *)
Definition getEpisode (response : fetched) : result ReplayEpisode :=
  match response with
  | Body data => validateEpisode data
  | Failed message => Err message
  end.

(* ================================================================= *)
(** ** Array.prototype.sort *)

(** The language fixes the result of [sort] for a consistent comparator: the
    elements in comparator order, equal ones in their input order (stable).
    The algorithm is the engine's; it is modelled by a stable insertion sort
    (the result does not depend on that choice, see
    [stable_sort_is_sort_frames]).  A comparator value that is NaN counts as
    zero. *)
Section ArraySort.
Variable A : Type.
Variable comparefn : A -> A -> number.

Fixpoint insert (x : A) (sorted : list A) : list A :=
  match sorted with
  | [] => [x]
  | y :: rest =>
      if gt (comparefn x y) (Fin 0) then y :: insert x rest else x :: sorted
  end.

Definition Array_sort (items : list A) : list A :=
  fold_right insert [] items.
End ArraySort.

(** [(a, b) => a.t - b.t] *)
Definition by_t (a b : ReplayFrame) : number := sub (Frame.t a) (Frame.t b).

(** [[...frames].sort((a, b) => a.t - b.t)] *)
Definition sort_frames (frames : list ReplayFrame) : list ReplayFrame :=
  Array_sort by_t frames.

(** [items[index]]: defined at the integers [0 .. length-1] only. *)
Definition at_index {A : Type} (items : list A) (index : number) : option A :=
  match index with
  | Fin q =>
      if Qeq_bool q (inject_Z (Qfloor q)) && (0 <=? Qfloor q)%Z
      then nth_error items (Z.to_nat (Qfloor q))
      else None
  | _ => None
  end.

(* ================================================================= *)
(** ** hooks/useReplayPlayer.ts *)

(** The loop of [findFrameIndex]: [i] is the loop counter, [bestIndex] the
    running answer; the [else] branch is the [break]. *)
Fixpoint findFrameIndex_loop (frames : list ReplayFrame) (t : number)
  (i bestIndex : nat) : nat :=
  match frames with
  | [] => bestIndex
  | f :: rest =>
      if le (Frame.t f) t
      then findFrameIndex_loop rest t (S i) i
      else bestIndex
  end.

Definition findFrameIndex (frames : list ReplayFrame) (t : number) : nat :=
  match frames with
  | [] => 0%nat
  | _ => findFrameIndex_loop frames t 0 0
  end.

(** [type SpeedOption = 0.5 | 1 | 2 | 4] *)
Inductive SpeedOption : Type := x0_5 | x1 | x2 | x4.

Definition speed_value (s : SpeedOption) : number :=
  match s with
  | x0_5 => Fin (1 # 2)
  | x1 => Fin 1
  | x2 => Fin 2
  | x4 => Fin 4
  end.

(** The state cells of [useReplayPlayer]: four [useState]s and the
    [lastTick] ref. *)
Record Player : Type := {
  isPlaying : bool;
  speed : SpeedOption;
  currentTime : number;
  currentIndex : number;
  lastTick : option number;
}.

Definition initial_player : Player :=
  {| isPlaying := false; speed := x1; currentTime := Fin 0;
     currentIndex := Fin 0; lastTick := None |}.

Section UseReplayPlayer.
(** The hook's arguments. *)
Variable frames : option (list ReplayFrame).
Variable duration : number.

(** [frames ? [...frames].sort((a, b) => a.t - b.t) : []] *)
Definition sortedFrames : list ReplayFrame :=
  match frames with
  | Some fs => sort_frames fs
  | None => []
  end.

(** [sortedFrames[currentIndex] ?? null] *)
Definition currentFrame (s : Player) : option ReplayFrame :=
  at_index sortedFrames (currentIndex s).

(** The effect on [duration] and [sortedFrames.length]. *)
Definition reset (s : Player) : Player :=
  {| isPlaying := false; speed := speed s; currentTime := Fin 0;
     currentIndex := Fin 0; lastTick := lastTick s |}.

(** [!lastTick.current]: the ref is null, or holds 0 or NaN. *)
Definition lastTick_unset (s : Player) : bool :=
  match lastTick s with
  | None => true
  | Some l => negb (truthy l)
  end.

(** One run of [tick(now)], the callback of [requestAnimationFrame]. *)
Definition tick (now : number) (s : Player) : Player :=
  let last := if lastTick_unset s then Some now else lastTick s in
  let delta :=
    div (sub now (match last with Some l => l | None => now end)) (Fin 1000) in
  let next :=
    clamp (add (currentTime s) (mul delta (speed_value (speed s))))
          (Fin 0) duration in
  let nextIndex := findFrameIndex sortedFrames next in
  {| isPlaying := if ge next duration then false else isPlaying s;
     speed := speed s;
     currentTime := next;
     currentIndex := num_of_nat nextIndex;
     lastTick := Some now |}.

(** The playback effect's body when it runs: while paused it clears the ref
    and schedules nothing. *)
Definition playback_effect (s : Player) : Player :=
  if isPlaying s then s
  else {| isPlaying := false; speed := speed s; currentTime := currentTime s;
          currentIndex := currentIndex s; lastTick := None |}.

(** An animation frame at time [now]: [tick] is scheduled only while the
    clock is playing; the effect runs again after the state change. *)
Definition animation_frame (s : Player) (now : number) : Player :=
  if isPlaying s then playback_effect (tick now s) else s.

(** [const play = useCallback(() => setIsPlaying(true), [])] *)
Definition play (s : Player) : Player :=
  {| isPlaying := true; speed := speed s; currentTime := currentTime s;
     currentIndex := currentIndex s; lastTick := lastTick s |}.

(** [const pause = useCallback(() => setIsPlaying(false), [])] *)
Definition pause (s : Player) : Player :=
  {| isPlaying := false; speed := speed s; currentTime := currentTime s;
     currentIndex := currentIndex s; lastTick := lastTick s |}.

Definition togglePlay (s : Player) : Player :=
  {| isPlaying := negb (isPlaying s); speed := speed s;
     currentTime := currentTime s; currentIndex := currentIndex s;
     lastTick := lastTick s |}.

Definition handleSetSpeed (next : SpeedOption) (s : Player) : Player :=
  {| isPlaying := isPlaying s; speed := next; currentTime := currentTime s;
     currentIndex := currentIndex s; lastTick := lastTick s |}.

Definition scrub (t : number) (s : Player) : Player :=
  let clamped := clamp t (Fin 0) duration in
  {| isPlaying := isPlaying s; speed := speed s; currentTime := clamped;
     currentIndex := num_of_nat (findFrameIndex sortedFrames clamped);
     lastTick := lastTick s |}.

Definition step (deltaFrames : number) (s : Player) : Player :=
  let nextIndex :=
    clamp (add (currentIndex s) deltaFrames) (Fin 0)
          (sub (num_of_nat (List.length sortedFrames)) (Fin 1)) in
  let nextTime :=
    match at_index sortedFrames nextIndex with
    | Some f => Frame.t f
    | None => Fin 0
    end in
  {| isPlaying := isPlaying s; speed := speed s; currentTime := nextTime;
     currentIndex := nextIndex; lastTick := lastTick s |}.

End UseReplayPlayer.

(* ================================================================= *)
(** ** hooks/useReplayEpisode.ts *)

(** [frames[frames.length - 1]?.t ?? 0] *)
Definition lastT (frames : list ReplayFrame) : number :=
  match at_index frames (sub (num_of_nat (List.length frames)) (Fin 1)) with
  | Some f => Frame.t f
  | None => Fin 0
  end.

(** The body of the [try] block after the [await]: what [setEpisode] gets. *)
Definition loaded_episode (data : ReplayEpisode) : ReplayEpisode :=
  let frames := sort_frames (Episode.frames data) in
  let duration :=
    if isFinite (Episode.duration data) && gt (Episode.duration data) (Fin 0)
    then Episode.duration data
    else lastT frames in
  {| Episode.episode_id := Episode.episode_id data;
     Episode.created_at := Episode.created_at data;
     Episode.updated_at := Episode.updated_at data;
     Episode.title := Episode.title data;
     Episode.frames := frames;
     Episode.duration := if gt duration (Fin 0) then duration else Fin 0;
     Episode.version := Episode.version data |}.

(** The three [useState] cells of [useReplayEpisode]. *)
Record Session : Type := {
  loading : bool;
  error : option string;
  episode : option ReplayEpisode;
}.

Definition initial_session : Session :=
  {| loading := false; error := None; episode := None |}.

(** [load] up to its [await]. *)
Definition load_start (s : Session) : Session :=
  {| loading := true; error := None; episode := episode s |}.

(** [load] from its [await] on, when the request of that call settles.  The
    continuation writes the cells whatever the hook's current [episodeId]. *)
Definition load_settle (response : fetched) (s : Session) : Session :=
  match getEpisode response with
  | Ok data =>
      {| loading := false; error := error s;
         episode := Some (loaded_episode data) |}
  | Err message =>
      {| loading := false; error := Some message; episode := None |}
  end.

(** What happens to the hook, one event at a time: the [episodeId] prop
    changes (the effect runs), [reload] is called, or the request issued by an
    earlier call for [requested] settles. *)
Inductive session_event : Type :=
| SetEpisodeId (episodeId : option string)
| Reload
| Settled (requested : string) (response : fetched).

Definition same_id (a b : option string) : bool :=
  match a, b with
  | None, None => true
  | Some x, Some y => String.eqb x y
  | _, _ => false
  end.

(** The hook's cells together with its current [episodeId] prop; the effect
    runs when the prop changes. *)
Definition session_step (st : option string * Session) (e : session_event)
  : option string * Session :=
  let (episodeId, s) := st in
  match e with
  | SetEpisodeId next =>
      if same_id episodeId next then st
      else match next with
           | None => (next, initial_session)
           | Some id =>
               if String.eqb id "" then (next, initial_session)
               else (next, load_start s)
           end
  | Reload =>
      match episodeId with
      | Some id => if String.eqb id "" then st else (episodeId, load_start s)
      | None => st
      end
  | Settled _ response => (episodeId, load_settle response s)
  end.

Definition session_run (events : list session_event) : option string * Session :=
  fold_left session_step events (None, initial_session).

(* ================================================================= *)
(** ** lib/visualState.ts *)

Definition Vec3 : Type := (number * number * number)%type.

Inductive NodeShape : Type := sphere | box | ico | dodeca.
Inductive LoopType : Type := loop_R | loop_B.
Inductive FlowType : Type := line | tube.

Module Node.
Record VisualNode : Type := {
  id : string;
  shape : NodeShape;
  pos : Vec3;
  color : string;
  intensity : number;
  opacity : number;
  scale : option number;
}.
End Node.
Abbreviation VisualNode := Node.VisualNode.

Module Loop.
Record VisualLoop : Type := {
  id : string;
  type : LoopType;
  center : Vec3;
  radius : number;
  intensity : number;
  flowSpeed : number;
  bottleneck : option number;
  delay : option number;
}.
End Loop.
Abbreviation VisualLoop := Loop.VisualLoop.

Module Lever.
Record VisualLever : Type := {
  id : string;
  target : string;
  pos : Vec3;
  strength : number;
}.
End Lever.
Abbreviation VisualLever := Lever.VisualLever.

Module Flow.
Record VisualFlow : Type := {
  id : string;
  from : string;
  to : string;
  type : FlowType;
  speed : number;
  intensity : option number;
  color : option string;
}.
End Flow.
Abbreviation VisualFlow := Flow.VisualFlow.

Module Field.
Record VisualField : Type := {
  chaos : number;
  density : number;
  noiseAmp : number;
}.
End Field.
Abbreviation VisualField := Field.VisualField.

Module State.
Record VisualState : Type := {
  t : option number;
  focus : option string;
  nodes : list VisualNode;
  loops : list VisualLoop;
  levers : list VisualLever;
  flows : option (list VisualFlow);
  field : option VisualField;
}.
End State.
Abbreviation VisualState := State.VisualState.

(** *** The zod schemas

    zod is a library the file imports; its combinators are written out here
    as the library documents them.  A schema reads an untyped value and
    yields the typed one, or fails (the issue list is not modelled).
    [z.object] wants an object, reads the keys it names and drops the others;
    [z.array] wants an array and parses each item; [z.tuple] wants an array
    of exactly that many items; [z.enum] wants one of the listed strings;
    [optional()] admits [undefined], which is also what an absent key reads
    as. *)
Definition schema (A : Type) : Type := raw -> option A.

Definition and_then {A B : Type} (o : option A) (k : A -> option B) : option B :=
  match o with
  | Some a => k a
  | None => None
  end.

Notation "x <~ e ;; k" := (and_then e (fun x => k))
  (at level 61, e at next level, right associativity).

Fixpoint each {A : Type} (s : schema A) (items : list raw) : option (list A) :=
  match items with
  | [] => Some []
  | v :: rest => a <~ s v ;; others <~ each s rest ;; Some (a :: others)
  end.

Section Zod.
(** The numbers [z.number()] admits; see [zod_number] below. *)
Variable number_ok : number -> bool.

Definition z_number : schema number := fun v =>
  match v with
  | RNum n => if number_ok n then Some n else None
  | _ => None
  end.

Definition z_string : schema string := fun v =>
  match v with
  | RStr s => Some s
  | _ => None
  end.

(** [z.string().min(1)] *)
Definition z_string_min1 : schema string := fun v =>
  match v with
  | RStr s => if String.eqb s "" then None else Some s
  | _ => None
  end.

Definition z_optional {A : Type} (s : schema A) : schema (option A) := fun v =>
  match v with
  | RUndefined => Some None
  | _ => a <~ s v ;; Some (Some a)
  end.

Definition z_array {A : Type} (s : schema A) : schema (list A) := fun v =>
  match v with
  | RArr items => each s items
  | _ => None
  end.

(** [z.tuple([z.number(), z.number(), z.number()]).transform(...)]; [Number]
    of a number is that number. *)
Definition vec3Schema : schema Vec3 := fun v =>
  match v with
  | RArr [a; b; c] =>
      x <~ z_number a ;; y <~ z_number b ;; z <~ z_number c ;; Some (x, y, z)
  | _ => None
  end.

Definition shape_enum : schema NodeShape := fun v =>
  match v with
  | RStr s =>
      if String.eqb s "sphere" then Some sphere
      else if String.eqb s "box" then Some box
      else if String.eqb s "ico" then Some ico
      else if String.eqb s "dodeca" then Some dodeca
      else None
  | _ => None
  end.

Definition loop_type_enum : schema LoopType := fun v =>
  match v with
  | RStr s =>
      if String.eqb s "R" then Some loop_R
      else if String.eqb s "B" then Some loop_B
      else None
  | _ => None
  end.

Definition flow_type_enum : schema FlowType := fun v =>
  match v with
  | RStr s =>
      if String.eqb s "line" then Some line
      else if String.eqb s "tube" then Some tube
      else None
  | _ => None
  end.

Definition nodeSchema : schema VisualNode := fun v =>
  match v with
  | RObj o =>
      id <~ z_string_min1 (get o "id") ;;
      shape <~ shape_enum (get o "shape") ;;
      pos <~ vec3Schema (get o "pos") ;;
      color <~ z_string (get o "color") ;;
      intensity <~ z_number (get o "intensity") ;;
      opacity <~ z_number (get o "opacity") ;;
      scale <~ z_optional z_number (get o "scale") ;;
      Some {| Node.id := id; Node.shape := shape; Node.pos := pos;
              Node.color := color; Node.intensity := intensity;
              Node.opacity := opacity; Node.scale := scale |}
  | _ => None
  end.

Definition loopSchema : schema VisualLoop := fun v =>
  match v with
  | RObj o =>
      id <~ z_string_min1 (get o "id") ;;
      type <~ loop_type_enum (get o "type") ;;
      center <~ vec3Schema (get o "center") ;;
      radius <~ z_number (get o "radius") ;;
      intensity <~ z_number (get o "intensity") ;;
      flowSpeed <~ z_number (get o "flowSpeed") ;;
      bottleneck <~ z_optional z_number (get o "bottleneck") ;;
      delay <~ z_optional z_number (get o "delay") ;;
      Some {| Loop.id := id; Loop.type := type; Loop.center := center;
              Loop.radius := radius; Loop.intensity := intensity;
              Loop.flowSpeed := flowSpeed; Loop.bottleneck := bottleneck;
              Loop.delay := delay |}
  | _ => None
  end.

Definition leverSchema : schema VisualLever := fun v =>
  match v with
  | RObj o =>
      id <~ z_string_min1 (get o "id") ;;
      target <~ z_string_min1 (get o "target") ;;
      pos <~ vec3Schema (get o "pos") ;;
      strength <~ z_number (get o "strength") ;;
      Some {| Lever.id := id; Lever.target := target; Lever.pos := pos;
              Lever.strength := strength |}
  | _ => None
  end.

Definition flowSchema : schema VisualFlow := fun v =>
  match v with
  | RObj o =>
      id <~ z_string_min1 (get o "id") ;;
      from <~ z_string_min1 (get o "from") ;;
      to <~ z_string_min1 (get o "to") ;;
      type <~ flow_type_enum (get o "type") ;;
      speed <~ z_number (get o "speed") ;;
      intensity <~ z_optional z_number (get o "intensity") ;;
      color <~ z_optional z_string (get o "color") ;;
      Some {| Flow.id := id; Flow.from := from; Flow.to := to;
              Flow.type := type; Flow.speed := speed;
              Flow.intensity := intensity; Flow.color := color |}
  | _ => None
  end.

Definition fieldSchema : schema VisualField := fun v =>
  match v with
  | RObj o =>
      chaos <~ z_number (get o "chaos") ;;
      density <~ z_number (get o "density") ;;
      noiseAmp <~ z_number (get o "noiseAmp") ;;
      Some {| Field.chaos := chaos; Field.density := density;
              Field.noiseAmp := noiseAmp |}
  | _ => None
  end.

Definition visualStateSchema : schema VisualState := fun v =>
  match v with
  | RObj o =>
      t <~ z_optional z_number (get o "t") ;;
      focus <~ z_optional z_string (get o "focus") ;;
      nodes <~ z_array nodeSchema (get o "nodes") ;;
      loops <~ z_array loopSchema (get o "loops") ;;
      levers <~ z_array leverSchema (get o "levers") ;;
      flows <~ z_optional (z_array flowSchema) (get o "flows") ;;
      field <~ z_optional fieldSchema (get o "field") ;;
      Some {| State.t := t; State.focus := focus; State.nodes := nodes;
              State.loops := loops; State.levers := levers;
              State.flows := flows; State.field := field |}
  | _ => None
  end.
End Zod.

(** [z.number()] refuses NaN.  zod 3 admits the two infinities, zod 4 refuses
    them: [infinite_ok] says which library the schema runs on. *)
Definition zod_number (infinite_ok : bool) (n : number) : bool :=
  negb (isNaN n) && (isFinite n || infinite_ok).

(** The shape of a payload alone: types, arities and keys, with any number
    whatever where the schema asks for a number. *)
Definition any_number (n : number) : bool := true.

Definition well_shaped (input : raw) : bool :=
  match visualStateSchema any_number input with
  | Some _ => true
  | None => false
  end.

(** *** The normalisers *)

Definition clamp01 (value : number) : number := clamp value (Fin 0) (Fin 1).

(** [[Number(v[0]) || 0, Number(v[1]) || 0, Number(v[2]) || 0]] *)
Definition clampVec3 (v : Vec3) : Vec3 :=
  let '(x, y, z) := v in
  (or_else x (Fin 0), or_else y (Fin 0), or_else z (Fin 0)).

Definition normalizeNode (node : VisualNode) : VisualNode :=
  {| Node.id := Node.id node;
     Node.shape := Node.shape node;
     Node.pos := clampVec3 (Node.pos node);
     Node.color := Node.color node;
     Node.intensity := clamp01 (Node.intensity node);
     Node.opacity := clamp01 (Node.opacity node);
     Node.scale :=
       match Node.scale node with
       | Some s => Some (clamp s (Fin (1 # 10)) (Fin 5))
       | None => None
       end |}.

Definition normalizeLoop (loop : VisualLoop) : VisualLoop :=
  {| Loop.id := Loop.id loop;
     Loop.type := Loop.type loop;
     Loop.center := clampVec3 (Loop.center loop);
     Loop.radius :=
       Math_max (Fin (1 # 100)) (or_else (Loop.radius loop) (Fin (1 # 100)));
     Loop.intensity := clamp01 (Loop.intensity loop);
     Loop.flowSpeed := Math_max (Fin 0) (or_else (Loop.flowSpeed loop) (Fin 0));
     Loop.bottleneck := option_map clamp01 (Loop.bottleneck loop);
     Loop.delay := option_map clamp01 (Loop.delay loop) |}.

Definition normalizeLever (lever : VisualLever) : VisualLever :=
  {| Lever.id := Lever.id lever;
     Lever.target := Lever.target lever;
     Lever.pos := clampVec3 (Lever.pos lever);
     Lever.strength := clamp01 (Lever.strength lever) |}.

Definition normalizeFlow (flow : VisualFlow) : VisualFlow :=
  {| Flow.id := Flow.id flow;
     Flow.from := Flow.from flow;
     Flow.to := Flow.to flow;
     Flow.type := Flow.type flow;
     Flow.speed := Math_max (Fin 0) (or_else (Flow.speed flow) (Fin 0));
     Flow.intensity := option_map clamp01 (Flow.intensity flow);
     Flow.color := Flow.color flow |}.

Definition normalizeField (field : VisualField) : VisualField :=
  {| Field.chaos := clamp01 (Field.chaos field);
     Field.density := clamp01 (Field.density field);
     Field.noiseAmp := clamp01 (Field.noiseAmp field) |}.

(** [{ ok: true, data } | { ok: false, error }]; the text of the error is
    zod's and is not modelled. *)
Inductive parse_result : Type :=
| ok_true (data : VisualState)
| ok_false.

Definition parseVisualState (infinite_ok : bool) (input : raw) : parse_result :=
  match visualStateSchema (zod_number infinite_ok) input with
  | None => ok_false
  | Some data =>
      ok_true
        {| State.t := State.t data;
           State.focus := State.focus data;
           State.nodes := map normalizeNode (State.nodes data);
           State.loops := map normalizeLoop (State.loops data);
           State.levers := map normalizeLever (State.levers data);
           State.flows := option_map (map normalizeFlow) (State.flows data);
           State.field := option_map normalizeField (State.field data) |}
  end.

(** *** Typed values as untyped ones

    The data of a successful parse, seen again as an [unknown]: what a second
    call of [parseVisualState] receives. *)
Definition of_optional {A : Type} (f : A -> raw) (o : option A) : raw :=
  match o with
  | Some a => f a
  | None => RUndefined
  end.

Definition of_vec3 (v : Vec3) : raw :=
  let '(x, y, z) := v in RArr [RNum x; RNum y; RNum z].

Definition shape_name (s : NodeShape) : string :=
  match s with
  | sphere => "sphere"
  | box => "box"
  | ico => "ico"
  | dodeca => "dodeca"
  end.

Definition loop_type_name (ty : LoopType) : string :=
  match ty with
  | loop_R => "R"
  | loop_B => "B"
  end.

Definition flow_type_name (ty : FlowType) : string :=
  match ty with
  | line => "line"
  | tube => "tube"
  end.

Definition of_node (n : VisualNode) : raw :=
  RObj [("id", RStr (Node.id n));
        ("shape", RStr (shape_name (Node.shape n)));
        ("pos", of_vec3 (Node.pos n));
        ("color", RStr (Node.color n));
        ("intensity", RNum (Node.intensity n));
        ("opacity", RNum (Node.opacity n));
        ("scale", of_optional RNum (Node.scale n))].

Definition of_loop (l : VisualLoop) : raw :=
  RObj [("id", RStr (Loop.id l));
        ("type", RStr (loop_type_name (Loop.type l)));
        ("center", of_vec3 (Loop.center l));
        ("radius", RNum (Loop.radius l));
        ("intensity", RNum (Loop.intensity l));
        ("flowSpeed", RNum (Loop.flowSpeed l));
        ("bottleneck", of_optional RNum (Loop.bottleneck l));
        ("delay", of_optional RNum (Loop.delay l))].

Definition of_lever (l : VisualLever) : raw :=
  RObj [("id", RStr (Lever.id l));
        ("target", RStr (Lever.target l));
        ("pos", of_vec3 (Lever.pos l));
        ("strength", RNum (Lever.strength l))].

Definition of_flow (f : VisualFlow) : raw :=
  RObj [("id", RStr (Flow.id f));
        ("from", RStr (Flow.from f));
        ("to", RStr (Flow.to f));
        ("type", RStr (flow_type_name (Flow.type f)));
        ("speed", RNum (Flow.speed f));
        ("intensity", of_optional RNum (Flow.intensity f));
        ("color", of_optional RStr (Flow.color f))].

Definition of_field (f : VisualField) : raw :=
  RObj [("chaos", RNum (Field.chaos f));
        ("density", RNum (Field.density f));
        ("noiseAmp", RNum (Field.noiseAmp f))].

Definition of_state (d : VisualState) : raw :=
  RObj [("t", of_optional RNum (State.t d));
        ("focus", of_optional RStr (State.focus d));
        ("nodes", RArr (map of_node (State.nodes d)));
        ("loops", RArr (map of_loop (State.loops d)));
        ("levers", RArr (map of_lever (State.levers d)));
        ("flows", of_optional (fun fs => RArr (map of_flow fs)) (State.flows d));
        ("field", of_optional of_field (State.field d))].

(** The number-valued fields of a state, and its position and centre
    coordinates. *)
Definition vec3_numbers (v : Vec3) : list number :=
  let '(x, y, z) := v in [x; y; z].

Definition optional_number (o : option number) : list number :=
  match o with
  | Some n => [n]
  | None => []
  end.

Definition node_numbers (n : VisualNode) : list number :=
  vec3_numbers (Node.pos n)
    ++ [Node.intensity n; Node.opacity n] ++ optional_number (Node.scale n).

Definition loop_numbers (l : VisualLoop) : list number :=
  vec3_numbers (Loop.center l)
    ++ [Loop.radius l; Loop.intensity l; Loop.flowSpeed l]
    ++ optional_number (Loop.bottleneck l) ++ optional_number (Loop.delay l).

Definition lever_numbers (l : VisualLever) : list number :=
  vec3_numbers (Lever.pos l) ++ [Lever.strength l].

Definition flow_numbers (f : VisualFlow) : list number :=
  Flow.speed f :: optional_number (Flow.intensity f).

Definition field_numbers (f : VisualField) : list number :=
  [Field.chaos f; Field.density f; Field.noiseAmp f].

Definition state_numbers (d : VisualState) : list number :=
  optional_number (State.t d)
    ++ flat_map node_numbers (State.nodes d)
    ++ flat_map loop_numbers (State.loops d)
    ++ flat_map lever_numbers (State.levers d)
    ++ match State.flows d with
       | Some fs => flat_map flow_numbers fs
       | None => []
       end
    ++ match State.field d with
       | Some f => field_numbers f
       | None => []
       end.

(** The vectors of a state, in order: node positions, loop centres, lever
    positions. *)
Definition state_vectors (d : VisualState) : list Vec3 :=
  map Node.pos (State.nodes d)
    ++ map Loop.center (State.loops d)
    ++ map Lever.pos (State.levers d).

Definition state_coordinates (d : VisualState) : list number :=
  flat_map vec3_numbers (state_vectors d).

(* ================================================================= *)
(** ** components/visual/damp.ts and [smoothValue]

    [Math.exp] has no counterpart on [number]: the smoothing primitives are
    read over the real numbers, with the real exponential. *)

Module Smoothing.
Import Reals.
Local Open Scope R_scope.

Definition damp (current target lambda dt : R) : R :=
  let t := 1 - exp (- lambda * dt) in
  current + (target - current) * t.

Definition smoothValue (current target speed delta : R) : R :=
  current + (target - current) * (1 - exp (- speed * delta)).

End Smoothing.

(* ================================================================= *)
(** ** Vocabulary of the properties *)

(** Frames in ascending order of [t]: each frame's [t <=] the next one's. *)
Definition t_le (a b : ReplayFrame) : Prop :=
  le (Frame.t a) (Frame.t b) = true.

Definition ascending (frames : list ReplayFrame) : Prop := Sorted t_le frames.

(** How many leading frames have [t <= q]. *)
Fixpoint leading (q : number) (frames : list ReplayFrame) : nat :=
  match frames with
  | [] => 0
  | f :: rest => if le (Frame.t f) q then S (leading q rest) else 0
  end.

(** A frame at time [t] that carries only a label. *)
Definition frame_at (t : Q) (label : string) : ReplayFrame :=
  {| Frame.t := Fin t; Frame.input_text := Some label;
     Frame.system_signals := []; Frame.system_state := None;
     Frame.visual := RObj []; Frame.meta := None |}.

(** Frames whose [t] is a number other than NaN: what [validateReplayFrame]
    lets through. *)
Definition timed (f : ReplayFrame) : Prop := isNaN (Frame.t f) = false.

(** The frames of a list that sit at time [q], in their order. *)
Definition at_time (q : number) (frames : list ReplayFrame) : list ReplayFrame :=
  filter (fun f => strict_eq (Frame.t f) q) frames.

(** Response bodies of the replay store, as [JSON.parse] hands them on. *)
Definition raw_frame (t : Q) : raw :=
  RObj [("t", RNum (Fin t)); ("system_signals", RObj []); ("visual", RObj [])].

Definition raw_episode (id : string) (duration : number) (times : list Q) : raw :=
  RObj [("episode_id", RStr id);
        ("created_at", RStr "2025-01-01T00:00:00Z");
        ("updated_at", RStr "2025-01-01T00:00:00Z");
        ("title", RNull);
        ("frames", RArr (map raw_frame times));
        ("duration", RNum duration);
        ("version", RStr "1")].

(** A response body that has no [duration] key. *)
Definition raw_episode_without_duration (id : string) (times : list Q) : raw :=
  RObj [("episode_id", RStr id);
        ("created_at", RStr "2025-01-01T00:00:00Z");
        ("updated_at", RStr "2025-01-01T00:00:00Z");
        ("frames", RArr (map raw_frame times));
        ("version", RStr "1")].

(** [duration >= t] for every frame of an episode. *)
Definition covers_frames (e : ReplayEpisode) : Prop :=
  forall f, In f (Episode.frames e) ->
            ge (Episode.duration e) (Frame.t f) = true.

(** The stored duration is usable as it is: [Number.isFinite(d) && d > 0]. *)
Definition usable_duration (d : number) : bool := isFinite d && gt d (Fin 0).

(** The time cells of a clock hold finite numbers. *)
Definition finite_clock (s : Player) : Prop :=
  isFinite (currentTime s) = true /\
  match lastTick s with
  | Some l => isFinite l = true
  | None => True
  end.

(** A clock driven by animation frames at the given times. *)
Definition run_clock (frames : option (list ReplayFrame)) (duration : number)
  (nows : list number) (s : Player) : Player :=
  fold_left (animation_frame frames duration) nows s.

(** [0 <= currentTime <= duration] *)
Definition in_range (duration : number) (s : Player) : Prop :=
  le (Fin 0) (currentTime s) = true /\ le (currentTime s) duration = true.

(** The elapsed time the next [tick] measures from: [now] itself on a first
    tick, the previous tick's time afterwards. *)
Definition baseline (s : Player) (now : number) : number :=
  if lastTick_unset s then now
  else match lastTick s with Some l => l | None => now end.

(** The time a [tick] at [now] proposes, before clamping. *)
Definition proposed (s : Player) (now : number) : number :=
  add (currentTime s)
      (mul (div (sub now (baseline s now)) (Fin 1000)) (speed_value (speed s))).

(** The clock in the scenario of C5: speed 1, first tick at [first], now at
    [now]; either still playing with [currentTime = (now - first) / 1000],
    short of the duration [d], or paused at [d]. *)
Definition on_schedule (d first now : Q) (s : Player) : Prop :=
  speed s = x1 /\
  ((isPlaying s = true /\ lastTick s = Some (Fin now) /\
    exists c, currentTime s = Fin c /\ c == (now - first) / 1000 /\ c < d)
   \/
   (isPlaying s = false /\ currentTime s = Fin d /\
    d <= (now - first) / 1000)).

(** The data [parseVisualState] returns for the parsed [data]. *)
Definition normalized (data : VisualState) : VisualState :=
  {| State.t := State.t data;
     State.focus := State.focus data;
     State.nodes := map normalizeNode (State.nodes data);
     State.loops := map normalizeLoop (State.loops data);
     State.levers := map normalizeLever (State.levers data);
     State.flows := option_map (map normalizeFlow) (State.flows data);
     State.field := option_map normalizeField (State.field data) |}.

(** The strings that [z.string().min(1)] guards are not empty. *)
Definition nonempty (s : string) : bool := negb (String.eqb s "").

Definition node_named (n : VisualNode) : bool := nonempty (Node.id n).
Definition loop_named (l : VisualLoop) : bool := nonempty (Loop.id l).
Definition lever_named (l : VisualLever) : bool :=
  nonempty (Lever.id l) && nonempty (Lever.target l).
Definition flow_named (f : VisualFlow) : bool :=
  nonempty (Flow.id f) && nonempty (Flow.from f) && nonempty (Flow.to f).

Definition state_named (d : VisualState) : bool :=
  forallb node_named (State.nodes d)
  && forallb loop_named (State.loops d)
  && forallb lever_named (State.levers d)
  && match State.flows d with
     | Some fs => forallb flow_named fs
     | None => true
     end.

(** A schema run on [number_ok] is the schema run on the shape alone,
    followed by the check of the numbers it read. *)
Definition checked {A : Type} (number_ok : number -> bool)
  (numbers : A -> list number) (shape : schema A) : schema A := fun v =>
  a <~ shape v ;; if forallb number_ok (numbers a) then Some a else None.

(** A normaliser of one number keeps an admitted number admitted and does
    nothing when applied again. *)
Definition tame (ok : number -> bool) (f : number -> number) : Prop :=
  forall n, ok n = true -> ok (f n) = true /\ f (f n) = f n.

(** The normalisers of single numbers, as the code spells them. *)
Definition coordinate (n : number) : number := or_else n (Fin 0).
Definition floor_radius (n : number) : number :=
  Math_max (Fin (1 # 100)) (or_else n (Fin (1 # 100))).
Definition floor_speed (n : number) : number :=
  Math_max (Fin 0) (or_else n (Fin 0)).
Definition clamp_scale (n : number) : number := clamp n (Fin (1 # 10)) (Fin 5).

(** A payload of one node whose first position coordinate is [x]; its
    intensity 7 and opacity -1 are out of range. *)
Definition payload_with (x : number) : raw :=
  RObj [("nodes",
         RArr [RObj [("id", RStr "n1"); ("shape", RStr "box");
                     ("pos", RArr [RNum x; RNum (Fin 1); RNum (Fin (-3))]);
                     ("color", RStr "#ff0000");
                     ("intensity", RNum (Fin 7));
                     ("opacity", RNum (Fin (-1)))]]);
        ("loops", RArr []);
        ("levers", RArr [])].

(** What a coordinate of the input becomes in the output. *)
Definition coordinate_normalized (input output : number) : Prop :=
  output = or_else input (Fin 0) /\
  isNaN output = false /\
  (isFinite input = true -> isFinite output = true).

(* ================================================================= *)
(** ** Further vocabulary *)

(** The frame a clock shows at time [T]: [sortedFrames[findFrameIndex(sortedFrames, T)]]. *)
Definition frame_shown (frames : option (list ReplayFrame)) (T : number)
  : option ReplayFrame :=
  at_index (sortedFrames frames)
    (num_of_nat (findFrameIndex (sortedFrames frames) T)).

(** The index [step] aims at from index [i] by [d] frames, on [len] frames:
    [i + d] brought into [0 .. len - 1]. *)
Definition step_target (len : nat) (i d : Z) : Z :=
  Z.max 0 (Z.min (Z.of_nat len - 1) (i + d)).

(** Pausing a clock and resuming it: [pause()], the effect's run while
    paused, then [play()]. *)
Definition pause_and_resume (s : Player) : Player :=
  play (playback_effect (pause s)).

(** *** Episodes as untyped values

    A typed frame or episode seen as the body a server would send for it. *)
Definition of_frame (f : ReplayFrame) : raw :=
  RObj [("t", RNum (Frame.t f));
        ("input_text", of_optional RStr (Frame.input_text f));
        ("system_signals", RObj (Frame.system_signals f));
        ("system_state", of_optional (fun v => v) (Frame.system_state f));
        ("visual", Frame.visual f);
        ("meta", of_optional (fun v => v) (Frame.meta f))].

Definition of_episode (e : ReplayEpisode) : raw :=
  RObj [("episode_id", RStr (Episode.episode_id e));
        ("created_at", RStr (Episode.created_at e));
        ("updated_at", RStr (Episode.updated_at e));
        ("title", of_optional RStr (Episode.title e));
        ("frames", RArr (map of_frame (Episode.frames e)));
        ("duration", RNum (Episode.duration e));
        ("version", RStr (Episode.version e))].

(** What the validators of [replayApi.ts] guarantee of their results: no NaN
    in [t] or [duration], and objects where the types ask for objects. *)
Definition object_or_absent (o : option raw) : bool :=
  match o with
  | Some v => is_object_like v
  | None => true
  end.

Definition frame_ok (f : ReplayFrame) : bool :=
  negb (isNaN (Frame.t f))
  && is_object_like (Frame.visual f)
  && object_or_absent (Frame.system_state f)
  && object_or_absent (Frame.meta f).

Definition episode_ok (e : ReplayEpisode) : bool :=
  negb (isNaN (Episode.duration e)) && forallb frame_ok (Episode.frames e).

(* ================================================================= *)
(** ** components/AppShell.tsx and components/ReplayBar.tsx *)

(** [items.slice(-1)] *)
Definition slice_last {A : Type} (items : list A) : list A :=
  skipn (List.length items - 1) items.

(** [episode?.frames?.slice(-1)?.[0]?.t ?? 0] *)
Definition last_frame_t (episode : option ReplayEpisode) : number :=
  match episode with
  | Some e =>
      match slice_last (Episode.frames e) with
      | f :: _ => Frame.t f
      | [] => Fin 0
      end
  | None => Fin 0
  end.

(** [replayDuration] of [AppShell]: the duration handed to [useReplayPlayer]
    and to [ReplayBar]. *)
Definition replayDuration (episode : option ReplayEpisode) : number :=
  match episode with
  | Some e =>
      if isFinite (Episode.duration e) && truthy (Episode.duration e)
      then Math_max (Fin 0) (Episode.duration e)
      else Math_max (Fin 0) (last_frame_t episode)
  | None => Math_max (Fin 0) (last_frame_t episode)
  end.

(** [(replayEpisode.episode?.frames?.length ?? 0) > 0] *)
Definition hasReplayFrames (episode : option ReplayEpisode) : bool :=
  match episode with
  | Some e => gt (num_of_nat (List.length (Episode.frames e))) (Fin 0)
  | None => gt (Fin 0) (Fin 0)
  end.

(** [ReplayBar]: [safeDuration] and [disablePlayback]; the optional props
    [hasFrames] and [loading] may be [undefined]. *)
Definition safeDuration (duration : number) : number :=
  if isFinite duration && gt duration (Fin 0) then duration else Fin 0.

Definition to_boolean (b : option bool) : bool :=
  match b with
  | Some true => true
  | _ => false
  end.

Definition disablePlayback (duration : number) (hasFrames loading : option bool)
  : bool :=
  negb (to_boolean hasFrames)
  || le (safeDuration duration) (Fin 0)
  || to_boolean loading.

(** The slider of [ReplayBar]: [max] and [value]. *)
Definition slider_max (duration : number) : number := safeDuration duration.
Definition slider_value (duration currentTime : number) : number :=
  Math_min currentTime (safeDuration duration).

(** *** The visual state [AppShell] hands to the scene *)

Inductive ViewMode : Type := view_live | view_replay.

(** JavaScript's truthiness of a value. *)
Definition raw_truthy (v : raw) : bool :=
  match v with
  | RUndefined | RNull => false
  | RBool b => b
  | RNum n => truthy n
  | RStr s => negb (String.eqb s "")
  | RArr _ | RObj _ => true
  end.

(** [replayVisualState]: the parse of the current frame's [visual], or
    [null]. *)
Definition replayVisualState (infinite_ok : bool)
  (currentFrame : option ReplayFrame) : option VisualState :=
  match currentFrame with
  | Some f =>
      if raw_truthy (Frame.visual f)
      then match parseVisualState infinite_ok (Frame.visual f) with
           | ok_true data => Some data
           | ok_false => None
           end
      else None
  | None => None
  end.

(** The effect that keeps the last replay visual that parsed. *)
Definition keep_last_valid (replayVisual lastValidReplayVisual : option VisualState)
  : option VisualState :=
  match replayVisual with
  | Some d => Some d
  | None => lastValidReplayVisual
  end.

Definition activeVisualCandidate (viewMode : ViewMode)
  (replayVisual lastValidReplayVisual : option VisualState)
  (visualState : VisualState) : VisualState :=
  match viewMode with
  | view_replay =>
      match replayVisual with
      | Some d => d
      | None =>
          match lastValidReplayVisual with
          | Some d => d
          | None => visualState
          end
      end
  | view_live => visualState
  end.

(** [validatedVisual]: the candidate parsed once more.  The result is the
    state shown, the new content of [lastGoodVisualRef], and the warning. *)
Definition validatedVisual (infinite_ok : bool) (candidate lastGood : VisualState)
  : VisualState * VisualState * option string :=
  match parseVisualState infinite_ok (of_state candidate) with
  | ok_true data => (data, data, None)
  | ok_false => (lastGood, lastGood, Some "Visual payload invalid")
  end.

(** *** The effect of [AppShell] on a newly loaded episode *)

Inductive LoadBehavior : Type := behavior_start | behavior_end.
Inductive FocusSource : Type := focus_replay | focus_user.

Record Shell : Type := {
  viewMode : ViewMode;
  replayLoadBehavior : option LoadBehavior;
  focusSource : FocusSource;
  lastReplayId : option string
}.

(** The effect on [replayEpisode.episode]: once for each episode id, in
    replay mode, it starts the player at 0 or parks it at the end. *)
Definition replay_loaded_effect (episode : option ReplayEpisode)
  (st : Shell * Player) : Shell * Player :=
  let (sh, p) := st in
  match viewMode sh, episode with
  | view_replay, Some e =>
      if same_id (lastReplayId sh) (Some (Episode.episode_id e)) then st
      else
        let frames := Some (Episode.frames e) in
        let duration := replayDuration episode in
        ({| viewMode := viewMode sh;
            replayLoadBehavior := None;
            focusSource := focus_replay;
            lastReplayId := Some (Episode.episode_id e) |},
         match replayLoadBehavior sh with
         | Some behavior_start => play (scrub frames duration (Fin 0) p)
         | _ =>
             scrub frames duration (or_else (Episode.duration e) (Fin 0))
               (pause p)
         end)
  | _, _ => st
  end.

(** *** The ranges of a normalised state *)

Definition unit_interval (n : number) : bool := le (Fin 0) n && le n (Fin 1).

Definition optional_in (p : number -> bool) (o : option number) : bool :=
  match o with
  | Some n => p n
  | None => true
  end.

Definition scale_in_range (n : number) : bool :=
  le (Fin (1 # 10)) n && le n (Fin 5).

Definition node_in_range (n : VisualNode) : bool :=
  unit_interval (Node.intensity n)
  && unit_interval (Node.opacity n)
  && optional_in scale_in_range (Node.scale n).

Definition loop_in_range (l : VisualLoop) : bool :=
  le (Fin (1 # 100)) (Loop.radius l)
  && unit_interval (Loop.intensity l)
  && le (Fin 0) (Loop.flowSpeed l)
  && optional_in unit_interval (Loop.bottleneck l)
  && optional_in unit_interval (Loop.delay l).

Definition lever_in_range (l : VisualLever) : bool :=
  unit_interval (Lever.strength l).

Definition flow_in_range (f : VisualFlow) : bool :=
  le (Fin 0) (Flow.speed f) && optional_in unit_interval (Flow.intensity f).

Definition field_in_range (f : VisualField) : bool :=
  unit_interval (Field.chaos f)
  && unit_interval (Field.density f)
  && unit_interval (Field.noiseAmp f).

Definition state_in_range (d : VisualState) : bool :=
  forallb node_in_range (State.nodes d)
  && forallb loop_in_range (State.loops d)
  && forallb lever_in_range (State.levers d)
  && match State.flows d with
     | Some fs => forallb flow_in_range fs
     | None => true
     end
  && match State.field d with
     | Some f => field_in_range f
     | None => true
     end.

(* ================================================================= *)
(** ** components/ReplayPlayer.tsx *)

Definition Math_abs (a : number) : number :=
  match a with
  | NaN => NaN
  | NegInf | PosInf => PosInf
  | Fin q => Fin (if Qle_bool 0 q then q else - q)
  end.

(** The loop of [findNearestFrame], from [i = 1] on: [bestIndex] and
    [bestDiff] are the running answer and its distance to [t]. *)
Fixpoint findNearestFrame_loop (frames : list ReplayFrame) (t : number)
  (i bestIndex : nat) (bestDiff : number) : nat :=
  match frames with
  | [] => bestIndex
  | f :: rest =>
      let diff := Math_abs (sub (Frame.t f) t) in
      if lt diff bestDiff
      then findNearestFrame_loop rest t (S i) i diff
      else findNearestFrame_loop rest t (S i) bestIndex bestDiff
  end.

Definition findNearestFrame (frames : list ReplayFrame) (t : number) : nat :=
  match frames with
  | [] => 0%nat
  | first :: rest =>
      findNearestFrame_loop rest t 1 0 (Math_abs (sub (Frame.t first) t))
  end.

(** How far a frame is from the time [t]. *)
Definition distance (t : number) (f : ReplayFrame) : number :=
  Math_abs (sub (Frame.t f) t).

(* ================================================================= *)
(** ** lib/insight: [pickTopSignals]

    The entries are those of [Object.entries(signals)]; a value is a number,
    or is [null] or [undefined], which [?? 0] reads as 0. *)

Definition value_or_zero (entry : string * option number) : number :=
  match snd entry with
  | Some n => n
  | None => Fin 0
  end.

(** [(a, b) => (b[1] ?? 0) - (a[1] ?? 0)] *)
Definition by_value (a b : string * option number) : number :=
  sub (value_or_zero b) (value_or_zero a).

(** [entries.sort(...).slice(0, limit)], for a limit that is a natural
    number. *)
Definition pickTopSignals (entries : list (string * option number))
  (limit : nat) : list (string * option number) :=
  firstn limit (Array_sort by_value entries).

(** An entry [a] ranks no lower than [b]. *)
Definition outranks (a b : string * option number) : Prop :=
  le (value_or_zero b) (value_or_zero a) = true.

(* ================================================================= *)
(** ** lib/api/replayApi.ts: the list of episodes, and
    hooks/useReplayEpisodesList.ts *)

Module Summary.
Record EpisodeSummary : Type := {
  episode_id : string;
  title : option string;
  created_at : string;
  updated_at : string;
  duration : number;
  frame_count : number
}.
End Summary.
Abbreviation EpisodeSummary := Summary.EpisodeSummary.

Definition validateEpisodeSummary (value : raw) : result EpisodeSummary :=
  obj <- assertObject value "episode summary" ;;
  episode_id <- assertString (get obj "episode_id") "episode_id" ;;
  created_at <- assertString (get obj "created_at") "created_at" ;;
  updated_at <- assertString (get obj "updated_at") "updated_at" ;;
  duration <- assertNumber (get obj "duration") "duration" ;;
  frame_count <- assertNumber (get obj "frame_count") "frame_count" ;;
  Ok {| Summary.episode_id := episode_id;
        Summary.title := string_or_none (get obj "title");
        Summary.created_at := created_at;
        Summary.updated_at := updated_at;
        Summary.duration := duration;
        Summary.frame_count := frame_count |}.

(** [listEpisodes]: the request's outcome, validated. *)
Definition listEpisodes (response : fetched) : result (list EpisodeSummary) :=
  match response with
  | Body (RArr items) => mapM validateEpisodeSummary items
  | Body _ => Err "Invalid episode list: expected array"
  | Failed message => Err message
  end.

(** The cells of [useReplayEpisodesList]. *)
Record EpisodesList : Type := {
  list_loading : bool;
  list_error : option string;
  episodes : list EpisodeSummary
}.

(** [load] up to its [await], and from the settled request on. *)
Definition list_load_start (s : EpisodesList) : EpisodesList :=
  {| list_loading := true; list_error := None; episodes := episodes s |}.

Definition list_load_settle (response : fetched) (s : EpisodesList)
  : EpisodesList :=
  match listEpisodes response with
  | Ok data =>
      {| list_loading := false; list_error := list_error s; episodes := data |}
  | Err message =>
      {| list_loading := false; list_error := Some message;
         episodes := episodes s |}
  end.

Definition summary_ok (s : EpisodeSummary) : bool :=
  negb (isNaN (Summary.duration s)) && negb (isNaN (Summary.frame_count s)).

(* ================================================================= *)
(** ** The player under use

    What the shell, [ReplayBar] and the animation frames do to the player of
    [useReplayPlayer], one action at a time; the playback effect runs after
    each, and [tick] only while the clock is playing. *)
Inductive player_action : Type :=
| DoPlay
| DoPause
| DoTogglePlay
| DoSetSpeed (next : SpeedOption)
| DoScrub (t : number)
| DoStep (deltaFrames : Z)
| DoFrame (now : number).

Definition player_step (frames : option (list ReplayFrame)) (duration : number)
  (s : Player) (a : player_action) : Player :=
  match a with
  | DoPlay => playback_effect (play s)
  | DoPause => playback_effect (pause s)
  | DoTogglePlay => playback_effect (togglePlay s)
  | DoSetSpeed next => playback_effect (handleSetSpeed next s)
  | DoScrub t => playback_effect (scrub frames duration t s)
  | DoStep deltaFrames =>
      playback_effect (step frames (num_of_Z deltaFrames) s)
  | DoFrame now => animation_frame frames duration s now
  end.

Definition player_run (frames : option (list ReplayFrame)) (duration : number)
  (actions : list player_action) : Player :=
  fold_left (player_step frames duration) actions initial_player.

(** The index is a whole number within the frames. *)
Definition valid_index (len : nat) (index : number) : Prop :=
  exists q i,
    index = Fin q /\ q == inject_Z i /\ (0 <= i < Z.of_nat len)%Z.

(* ================================================================= *)
(** ** components/visual/SystemVisualScene.tsx: [ChaosField] *)

Definition Math_floor (a : number) : number :=
  match a with
  | Fin q => Fin (inject_Z (Qfloor q))
  | _ => a
  end.

(** The whole part of a quotient, rounded towards zero. *)
Definition Qtrunc (q : Q) : Z :=
  if Qle_bool 0 q then Qfloor q else Qceiling q.

(** [a % b]: the remainder has the sign of [a]. *)
Definition remainder (a b : number) : number :=
  match a, b with
  | Fin p, Fin q =>
      if Qeq_bool q 0 then NaN
      else Fin (p - q * inject_Z (Qtrunc (p / q)))
  | Fin p, (PosInf | NegInf) => Fin p
  | _, _ => NaN
  end.

(** [Math.floor((field.chaos + field.density + field.noiseAmp) * 1000)] *)
Definition chaos_seed (field : VisualField) : number :=
  Math_floor
    (mul (add (add (Field.chaos field) (Field.density field))
              (Field.noiseAmp field))
         (Fin 1000)).

(** [Math.floor(clamp(120 + field.density * 480, 120, 600))] *)
Definition chaos_count (field : VisualField) : number :=
  Math_floor
    (clamp (add (Fin 120) (mul (Field.density field) (Fin 480)))
           (Fin 120) (Fin 600)).

(** One call of [rand] on the generator's state [s]: the new state and the
    value returned. *)
Definition rand (s : number) : number * number :=
  let s' := remainder (mul s (Fin 16807)) (Fin 2147483647) in
  (s', div (sub s' (Fin 1)) (Fin 2147483646)).

(** The generator's state after a number of calls. *)
Fixpoint rand_state (calls : nat) (s : number) : number :=
  match calls with
  | O => s
  | S n => rand_state n (fst (rand s))
  end.

(** [3.5 + rand() * 2.5] *)
Definition particle_radius (v : number) : number :=
  add (Fin (7 # 2)) (mul v (Fin (5 # 2))).

(** [0.35 + field.chaos * 0.25] *)
Definition chaos_opacity (field : VisualField) : number :=
  add (Fin (7 # 20)) (mul (Field.chaos field) (Fin (1 # 4))).

(* ================================================================= *)
(** ** components/visual/SystemVisualScene.tsx: [hashTo01]

    The hash keeps whole numbers, read as 32-bit integers by [^] and
    [Math.imul] and as an unsigned one by [>>> 0]; the id is given by its
    UTF-16 code units, [id.charCodeAt(i)]. *)

Definition ToInt32 (z : Z) : Z :=
  ((z + 2147483648) mod 4294967296 - 2147483648)%Z.

Definition ToUint32 (z : Z) : Z := (z mod 4294967296)%Z.

(** [a ^ b] *)
Definition xor32 (a b : Z) : Z := Z.lxor (ToInt32 a) (ToInt32 b).

(** [Math.imul(a, b)] *)
Definition Math_imul (a b : Z) : Z := ToInt32 (ToUint32 a * ToUint32 b).

(** The loop of [hashTo01] on the code units left to read. *)
Fixpoint hash_loop (codes : list Z) (h : Z) : Z :=
  match codes with
  | [] => h
  | c :: rest => hash_loop rest (Math_imul (xor32 h c) 16777619)
  end.

Definition hashTo01 (codes : list Z) : number :=
  div (remainder (num_of_Z (ToUint32 (hash_loop codes 2166136261)))
                 (Fin 1000))
      (Fin 1000).

(** The 32-bit FNV-1a hash, computed on unsigned words. *)
Definition fnv1a_step (h c : Z) : Z :=
  ((Z.lxor h c * 16777619) mod 4294967296)%Z.

Definition fnv1a (codes : list Z) : Z :=
  fold_left fnv1a_step codes 2166136261%Z.

(** A UTF-16 code unit. *)
Definition code_unit (c : Z) : Prop := (0 <= c < 65536)%Z.

(* ================================================================= *)
(** * Properties *)

(** ** Order on numbers *)

Ltac q_prop :=
  unfold Qlt_bool in *;
  repeat match goal with
  | H : negb _ = true |- _ => apply negb_true_iff in H
  | H : negb _ = false |- _ => apply negb_false_iff in H
  | H : Qle_bool _ _ = true |- _ => apply Qle_bool_iff in H
  | H : Qle_bool _ _ = false |- _ =>
      apply not_true_iff_false in H; rewrite Qle_bool_iff in H
  | H : Qeq_bool _ _ = true |- _ => apply Qeq_bool_iff in H
  | H : Qeq_bool _ _ = false |- _ =>
      apply not_true_iff_false in H; rewrite Qeq_bool_iff in H
  | |- negb _ = true => apply negb_true_iff
  | |- negb _ = false => apply negb_false_iff
  | |- Qle_bool _ _ = true => apply Qle_bool_iff
  | |- Qle_bool _ _ = false =>
      apply not_true_iff_false; rewrite Qle_bool_iff; intro
  | |- Qeq_bool _ _ = true => apply Qeq_bool_iff
  | |- Qeq_bool _ _ = false =>
      apply not_true_iff_false; rewrite Qeq_bool_iff; intro
  end.

Ltac split_cmp :=
  repeat (unfold Qlt_bool in *;
          match goal with
          | |- context [Qle_bool ?a ?b] =>
              let E := fresh "E" in destruct (Qle_bool a b) eqn:E; simpl
          | |- context [Qeq_bool ?a ?b] =>
              let E := fresh "E" in destruct (Qeq_bool a b) eqn:E; simpl
          end).

Ltac num_solve :=
  simpl in *; try discriminate; try reflexivity; try assumption;
  q_prop; try lra.

Lemma num_le_trans (a b c : number) :
  le a b = true -> le b c = true -> le a c = true.
Proof. destruct a, b, c; intros; num_solve. Qed.

Lemma num_le_refl (a : number) : isNaN a = false -> le a a = true.
Proof. destruct a; intros; num_solve. Qed.

Lemma num_lt_not_le (a b : number) : lt a b = true -> le b a = false.
Proof. destruct a, b; intros; num_solve. Qed.

Lemma num_le_not_lt (a b : number) : le a b = true -> lt b a = false.
Proof. destruct a, b; intros; num_solve. Qed.

Lemma num_not_lt_le (a b : number) :
  isNaN a = false -> isNaN b = false -> lt a b = false -> le b a = true.
Proof. destruct a, b; intros; num_solve. Qed.

Lemma num_lt_le (a b : number) : lt a b = true -> le a b = true.
Proof. destruct a, b; intros; num_solve. Qed.

Lemma num_le_not_nan (a b : number) :
  le a b = true -> isNaN a = false /\ isNaN b = false.
Proof. destruct a, b; intros; split; num_solve. Qed.

(* ================================================================= *)
(** ** [findFrameIndex] *)

#[local] Instance t_le_transitive : Transitive t_le.
Proof. intros a b c; unfold t_le; apply num_le_trans. Qed.

Lemma ascending_strongly (frames : list ReplayFrame) :
  ascending frames -> StronglySorted t_le frames.
Proof. apply Sorted_StronglySorted; exact t_le_transitive. Qed.

Lemma loop_leading (frames : list ReplayFrame) (q : number) :
  forall i b,
    findFrameIndex_loop frames q i b =
    match leading q frames with
    | O => b
    | S k => (i + k)%nat
    end.
Proof.
  induction frames as [|f rest IH]; intros i b; simpl; [reflexivity|].
  destruct (le (Frame.t f) q); [|reflexivity].
  rewrite IH. destruct (leading q rest); lia.
Qed.

Lemma findFrameIndex_leading (frames : list ReplayFrame) (q : number) :
  findFrameIndex frames q = Nat.pred (leading q frames).
Proof.
  destruct frames as [|f rest]; [reflexivity|].
  unfold findFrameIndex. rewrite loop_leading.
  destruct (leading q (f :: rest)); reflexivity.
Qed.

Lemma leading_le_length (q : number) (frames : list ReplayFrame) :
  (leading q frames <= List.length frames)%nat.
Proof.
  induction frames as [|f rest IH]; simpl; [lia|].
  destruct (le (Frame.t f) q); lia.
Qed.

Lemma leading_qualifies (q : number) (frames : list ReplayFrame) :
  forall k f,
    (k < leading q frames)%nat -> nth_error frames k = Some f ->
    le (Frame.t f) q = true.
Proof.
  induction frames as [|g rest IH]; intros k f Hk Hn; simpl in *; [lia|].
  destruct (le (Frame.t g) q) eqn:Hg; [|lia].
  destruct k as [|k]; simpl in Hn.
  - now inversion Hn; subst.
  - apply (IH k); [lia|assumption].
Qed.

Lemma leading_stops (q : number) (frames : list ReplayFrame) :
  forall j f,
    nth_error frames j = Some f -> le (Frame.t f) q = false ->
    (leading q frames <= j)%nat.
Proof.
  induction frames as [|g rest IH]; intros j f Hn Hf; simpl in *; [lia|].
  destruct (le (Frame.t g) q) eqn:Hg; [|lia].
  destruct j as [|j]; simpl in Hn.
  - inversion Hn; subst; congruence.
  - specialize (IH j f Hn Hf). lia.
Qed.

Lemma leading_covers (q : number) (frames : list ReplayFrame) :
  StronglySorted t_le frames ->
  forall i f,
    nth_error frames i = Some f -> le (Frame.t f) q = true ->
    (i < leading q frames)%nat.
Proof.
  induction 1 as [|g rest Hs IH Hall]; intros i f Hn Hf.
  - destruct i; discriminate.
  - simpl. destruct i as [|i]; simpl in Hn.
    + inversion Hn; subst. rewrite Hf. lia.
    + assert (Hg : le (Frame.t g) q = true).
      { apply num_le_trans with (Frame.t f); [|assumption].
        rewrite Forall_forall in Hall. apply Hall.
        eapply nth_error_In; eassumption. }
      rewrite Hg. specialize (IH i f Hn Hf). lia.
Qed.

(** C4.  On frames in ascending order of [t], [findFrameIndex frames q] is the
    index of the last frame with [t <= q]: it is 0 on the empty list and when
    no frame qualifies (in particular when [q] is before the first frame);
    it is the last index when the last frame has [t <= q]; it is [i] when
    frame [i] has [t <= q] and frame [i+1] has [q < t]; and in general it
    bounds every qualifying index and qualifies itself. *)
Theorem findFrameIndex_floor (frames : list ReplayFrame) (q : number) :
  ascending frames ->
  (frames = [] -> findFrameIndex frames q = 0%nat) /\
  ((forall f, In f frames -> le (Frame.t f) q = false) ->
   findFrameIndex frames q = 0%nat) /\
  (forall first rest,
     frames = first :: rest -> lt q (Frame.t first) = true ->
     findFrameIndex frames q = 0%nat) /\
  (forall final,
     nth_error frames (List.length frames - 1) = Some final ->
     le (Frame.t final) q = true ->
     findFrameIndex frames q = (List.length frames - 1)%nat) /\
  (forall i fi fj,
     nth_error frames i = Some fi -> nth_error frames (S i) = Some fj ->
     le (Frame.t fi) q = true -> lt q (Frame.t fj) = true ->
     findFrameIndex frames q = i) /\
  (forall i fi,
     nth_error frames i = Some fi -> le (Frame.t fi) q = true ->
     (i <= findFrameIndex frames q)%nat /\
     exists fr,
       nth_error frames (findFrameIndex frames q) = Some fr /\
       le (Frame.t fr) q = true).
Proof.
  intros Hasc. apply ascending_strongly in Hasc.
  rewrite findFrameIndex_leading.
  pose proof (leading_le_length q frames) as Hlen.
  split; [|split; [|split; [|split; [|split]]]].
  - intros ->. reflexivity.
  - intros Hnone. destruct frames as [|f rest]; [reflexivity|].
    simpl. rewrite (Hnone f (or_introl eq_refl)). reflexivity.
  - intros first rest -> Hlt. simpl.
    rewrite (num_lt_not_le _ _ Hlt). reflexivity.
  - intros final Hn Hf.
    pose proof (leading_covers q Hasc _ Hn Hf). lia.
  - intros i fi fj Hi Hj Hfi Hfj.
    pose proof (leading_covers q Hasc _ Hi Hfi).
    pose proof (leading_stops q frames _ Hj (num_lt_not_le _ _ Hfj)). lia.
  - intros i fi Hi Hfi.
    pose proof (leading_covers q Hasc _ Hi Hfi) as Hlt.
    split; [lia|].
    destruct (nth_error frames (Nat.pred (leading q frames))) as [fr|] eqn:Hr.
    + exists fr. split; [reflexivity|].
      apply (leading_qualifies q frames (k := Nat.pred (leading q frames)));
        [lia|assumption].
    + apply nth_error_None in Hr. lia.
Qed.

(** The frames at t = 0, 2, 5 and the query 3: frame 1 is the answer. *)
Lemma findFrameIndex_floor_witness :
  findFrameIndex [frame_at 0 "a"; frame_at 2 "b"; frame_at 5 "c"] (Fin 3)
  = 1%nat.
Proof.
  refine (proj1 (proj2 (proj2 (proj2 (proj2
    (@findFrameIndex_floor
       [frame_at 0 "a"; frame_at 2 "b"; frame_at 5 "c"] (Fin 3) _)))))
    1%nat (frame_at 2 "b") (frame_at 5 "c") eq_refl eq_refl eq_refl eq_refl).
  repeat constructor.
Defined.

(* ================================================================= *)
(** ** Sorting frames by [t] *)

Lemma gt_sub_zero (a b : number) :
  isNaN a = false -> isNaN b = false -> gt (sub a b) (Fin 0) = lt b a.
Proof.
  unfold gt, sub. destruct a, b; intros; simpl in *; try discriminate;
    try reflexivity.
  unfold Qlt_bool.
  destruct (Qle_bool (q + - q0) 0) eqn:E1, (Qle_bool q q0) eqn:E2;
    try reflexivity; q_prop; lra.
Qed.

Lemma strict_eq_not_lt (a b q : number) :
  strict_eq a q = true -> strict_eq b q = true -> lt a b = false.
Proof. destruct a, b, q; intros; num_solve. Qed.

Lemma validateReplayFrame_timed (value : raw) (f : ReplayFrame) :
  validateReplayFrame value = Ok f -> timed f.
Proof.
  unfold validateReplayFrame, timed, assertObject, assertNumber.
  destruct value; simpl; try discriminate.
  destruct (get fields "system_signals"); try discriminate.
  destruct (get fields "t"); simpl; try discriminate.
  destruct (isNaN n) eqn:E; simpl; try discriminate.
  intros H; inversion H; subst; simpl. exact E.
Qed.

Lemma insert_permutation (x : ReplayFrame) (l : list ReplayFrame) :
  Permutation (x :: l) (insert by_t x l).
Proof.
  induction l as [|y rest IH]; cbn [insert]; [reflexivity|].
  destruct (gt (by_t x y) (Fin 0)); [|reflexivity].
  rewrite perm_swap. now constructor.
Qed.

Lemma insert_timed (x : ReplayFrame) (l : list ReplayFrame) :
  timed x -> Forall timed l -> Forall timed (insert by_t x l).
Proof.
  intros Hx Hl.
  apply (Permutation_Forall (insert_permutation x l)). now constructor.
Qed.

Lemma insert_hdrel (x a : ReplayFrame) (l : list ReplayFrame) :
  t_le a x -> HdRel t_le a l -> HdRel t_le a (insert by_t x l).
Proof.
  intros Hax Hal. destruct l as [|y rest]; cbn [insert].
  - now constructor.
  - destruct (gt (by_t x y) (Fin 0)); constructor; [|assumption].
    now inversion Hal.
Qed.

Lemma insert_ascending (x : ReplayFrame) (l : list ReplayFrame) :
  timed x -> Forall timed l -> ascending l -> ascending (insert by_t x l).
Proof.
  unfold ascending. intros Hx Hl Hs.
  induction l as [|y rest IH]; cbn [insert].
  - repeat constructor.
  - inversion Hl as [|? ? Hy Hrest]; subst.
    inversion Hs as [|? ? Hs' Hhd]; subst.
    unfold by_t at 1. rewrite gt_sub_zero by assumption.
    destruct (lt (Frame.t y) (Frame.t x)) eqn:E.
    + constructor; [now apply IH|].
      apply insert_hdrel; [|assumption].
      unfold t_le. now apply num_lt_le.
    + constructor; [assumption|]. constructor.
      unfold t_le. now apply num_not_lt_le.
Qed.

Lemma insert_at_time (q : number) (x : ReplayFrame) (l : list ReplayFrame) :
  timed x -> Forall timed l ->
  at_time q (insert by_t x l) = at_time q (x :: l).
Proof.
  unfold at_time. intros Hx Hl.
  induction l as [|y rest IH]; [reflexivity|].
  inversion Hl as [|? ? Hy Hrest]; subst.
  cbn [insert]. unfold by_t at 1. rewrite gt_sub_zero by assumption.
  destruct (lt (Frame.t y) (Frame.t x)) eqn:E; [|reflexivity].
  cbn [filter] in *. rewrite (IH Hrest).
  destruct (strict_eq (Frame.t y) q) eqn:Ey,
           (strict_eq (Frame.t x) q) eqn:Ex; try reflexivity.
  rewrite (strict_eq_not_lt _ _ _ Ey Ex) in E. discriminate.
Qed.

Lemma sort_frames_permutation (frames : list ReplayFrame) :
  Permutation frames (sort_frames frames).
Proof.
  unfold sort_frames, Array_sort.
  induction frames as [|x rest IH]; simpl; [constructor|].
  etransitivity; [|apply insert_permutation]. now constructor.
Qed.

Lemma sort_frames_timed (frames : list ReplayFrame) :
  Forall timed frames -> Forall timed (sort_frames frames).
Proof. apply Permutation_Forall, sort_frames_permutation. Qed.

Lemma sort_frames_ascending (frames : list ReplayFrame) :
  Forall timed frames -> ascending (sort_frames frames).
Proof.
  intros H. induction H as [|x rest Hx Hrest IH].
  - constructor.
  - change (sort_frames (x :: rest)) with (insert by_t x (sort_frames rest)).
    apply insert_ascending; [assumption| now apply sort_frames_timed |exact IH].
Qed.

Lemma sort_frames_at_time (q : number) (frames : list ReplayFrame) :
  Forall timed frames -> at_time q (sort_frames frames) = at_time q frames.
Proof.
  intros H. induction H as [|x rest Hx Hrest IH]; [reflexivity|].
  change (sort_frames (x :: rest)) with (insert by_t x (sort_frames rest)).
  rewrite insert_at_time by (try assumption; now apply sort_frames_timed).
  unfold at_time in *. cbn [filter]. now rewrite IH.
Qed.

Lemma strict_eq_refl (a : number) : isNaN a = false -> strict_eq a a = true.
Proof. destruct a; intros; num_solve. Qed.

Lemma strict_eq_sym (a b : number) : strict_eq a b = strict_eq b a.
Proof.
  destruct a, b; try reflexivity. simpl.
  destruct (Qeq_bool q q0) eqn:E1, (Qeq_bool q0 q) eqn:E2; try reflexivity;
    exfalso; q_prop; lra.
Qed.

Lemma le_antisym_strict_eq (a b : number) :
  le a b = true -> le b a = true -> strict_eq a b = true.
Proof. destruct a, b; intros; num_solve. Qed.

Lemma at_time_subset (q : number) (f : ReplayFrame) (l : list ReplayFrame) :
  In f (at_time q l) -> In f l.
Proof. unfold at_time. intros H. apply filter_In in H. tauto. Qed.

Lemma at_time_cons (q : number) (f : ReplayFrame) (l : list ReplayFrame) :
  at_time q (f :: l)
  = if strict_eq (Frame.t f) q then f :: at_time q l else at_time q l.
Proof. reflexivity. Qed.

(** Ascending order and the order within each time fix a list of frames:
    whatever algorithm an engine sorts with, a stable sort by [t] returns the
    list [sort_frames] returns. *)
Lemma ascending_stable_unique (l1 : list ReplayFrame) :
  forall l2,
    Forall timed l1 -> Forall timed l2 ->
    StronglySorted t_le l1 -> StronglySorted t_le l2 ->
    (forall q, at_time q l1 = at_time q l2) ->
    l1 = l2.
Proof.
  induction l1 as [|a l1 IH]; intros l2 Ht1 Ht2 Hs1 Hs2 Hq.
  - destruct l2 as [|b l2]; [reflexivity|].
    inversion Ht2 as [|? ? Hb _]; subst.
    specialize (Hq (Frame.t b)). rewrite at_time_cons in Hq.
    rewrite (strict_eq_refl _ Hb) in Hq. discriminate.
  - inversion Ht1 as [|? ? Ha Ht1']; subst.
    inversion Hs1 as [|? ? Hs1' Hall1]; subst.
    destruct l2 as [|b l2].
    { specialize (Hq (Frame.t a)). rewrite at_time_cons in Hq.
      rewrite (strict_eq_refl _ Ha) in Hq. discriminate. }
    inversion Ht2 as [|? ? Hb Ht2']; subst.
    inversion Hs2 as [|? ? Hs2' Hall2]; subst.
    assert (Hab : a = b).
    { pose proof (Hq (Frame.t a)) as Qa. pose proof (Hq (Frame.t b)) as Qb.
      rewrite !at_time_cons in Qa, Qb.
      rewrite (strict_eq_refl _ Ha) in Qa. rewrite (strict_eq_refl _ Hb) in Qb.
      destruct (strict_eq (Frame.t b) (Frame.t a)) eqn:Eba.
      - now inversion Qa.
      - rewrite strict_eq_sym, Eba in Qb.
        assert (Hin_a : In a l2).
        { apply (at_time_subset (Frame.t a)). rewrite <- Qa. now left. }
        assert (Hin_b : In b l1).
        { apply (at_time_subset (Frame.t b)). rewrite Qb. now left. }
        rewrite Forall_forall in Hall1, Hall2.
        pose proof (le_antisym_strict_eq _ _ (Hall2 a Hin_a) (Hall1 b Hin_b)).
        congruence. }
    subst b. f_equal. apply IH; try assumption.
    intros q. specialize (Hq q). rewrite !at_time_cons in Hq.
    destruct (strict_eq (Frame.t a) q); [now inversion Hq|exact Hq].
Qed.

Lemma stable_sort_is_sort_frames (frames sorted : list ReplayFrame) :
  Forall timed frames ->
  Permutation frames sorted -> ascending sorted ->
  (forall q, at_time q sorted = at_time q frames) ->
  sorted = sort_frames frames.
Proof.
  intros Ht Hp Hs Hq.
  apply ascending_stable_unique.
  - exact (Permutation_Forall Hp Ht).
  - now apply sort_frames_timed.
  - now apply ascending_strongly.
  - now apply ascending_strongly, sort_frames_ascending.
  - intros q. now rewrite Hq, sort_frames_at_time.
Qed.

(** C7.  For every list of frames (each [t] a number other than NaN, as
    [validateReplayFrame] guarantees), in any order, the sorted copy holds the
    same frames, is non-decreasing in [t], and keeps the frames of any one
    time [q] in their input order. *)
Theorem sort_frames_sorted_stable (frames : list ReplayFrame) :
  Forall timed frames ->
  Permutation frames (sort_frames frames) /\
  ascending (sort_frames frames) /\
  forall q, at_time q (sort_frames frames) = at_time q frames.
Proof.
  intros H. split; [apply sort_frames_permutation|].
  split; [now apply sort_frames_ascending|].
  intros q. now apply sort_frames_at_time.
Qed.

Lemma sort_frames_sorted_stable_witness :
  at_time (Fin 2)
    (sort_frames [frame_at 5 "a"; frame_at 2 "b"; frame_at 5 "c";
                  frame_at 0 "d"; frame_at 2 "e"])
  = [frame_at 2 "b"; frame_at 2 "e"].
Proof.
  refine (proj2 (proj2
    (@sort_frames_sorted_stable
       [frame_at 5 "a"; frame_at 2 "b"; frame_at 5 "c";
        frame_at 0 "d"; frame_at 2 "e"] _)) (Fin 2)).
  repeat constructor.
Defined.

(* ================================================================= *)
(** ** Loading an episode *)

Lemma Qfloor_pred (z : Z) : Qfloor (inject_Z z + - (1)) = (z - 1)%Z.
Proof.
  assert (E : inject_Z z + - (1) == inject_Z (z - 1)).
  { unfold Z.sub. rewrite inject_Z_plus, inject_Z_opp. reflexivity. }
  rewrite E. apply Qfloor_Z.
Qed.

Lemma at_index_pred_length (A : Type) (l : list A) :
  at_index l (sub (num_of_nat (List.length l)) (Fin 1)) =
  match l with
  | [] => None
  | _ => nth_error l (List.length l - 1)
  end.
Proof.
  unfold at_index, sub, add, neg, num_of_nat, num_of_Z.
  rewrite Qfloor_pred.
  assert (E : Qeq_bool (inject_Z (Z.of_nat (List.length l)) + - (1))
                (inject_Z (Z.of_nat (List.length l) - 1)) = true).
  { apply Qeq_bool_iff. unfold Z.sub.
    rewrite inject_Z_plus, inject_Z_opp. reflexivity. }
  rewrite E. simpl andb.
  destruct l as [|a rest]; [reflexivity|].
  assert (Hpos : (0 <=? Z.of_nat (List.length (a :: rest)) - 1)%Z = true).
  { apply Z.leb_le. simpl List.length. lia. }
  rewrite Hpos. f_equal. lia.
Qed.

Lemma lastT_nil : lastT [] = Fin 0.
Proof. reflexivity. Qed.

Lemma lastT_last (frames : list ReplayFrame) (f : ReplayFrame) :
  nth_error frames (List.length frames - 1) = Some f -> lastT frames = Frame.t f.
Proof.
  intros H. unfold lastT. rewrite at_index_pred_length.
  destruct frames; [discriminate|]. now rewrite H.
Qed.

Lemma last_exists (A : Type) (l : list A) :
  l <> [] -> exists a, nth_error l (List.length l - 1) = Some a.
Proof.
  intros Hne.
  destruct (nth_error l (List.length l - 1)) as [a|] eqn:E; [now exists a|].
  apply nth_error_None in E. destruct l; [congruence|simpl in E; lia].
Qed.

Lemma strongly_last_max (frames : list ReplayFrame) :
  StronglySorted t_le frames -> Forall timed frames ->
  forall m,
    nth_error frames (List.length frames - 1) = Some m ->
    forall f, In f frames -> le (Frame.t f) (Frame.t m) = true.
Proof.
  induction 1 as [|g rest Hs IH Hall]; intros Ht m Hm f Hin.
  - destruct Hin.
  - inversion Ht as [|? ? Hg Hrest]; subst.
    destruct rest as [|g' rest'].
    + simpl in Hm. inversion Hm; subst.
      destruct Hin as [->|[]]. now apply num_le_refl.
    + assert (Hm' : nth_error (g' :: rest') (List.length (g' :: rest') - 1)
                    = Some m).
      { simpl in *. now rewrite Nat.sub_0_r in *. }
      destruct Hin as [->|Hin].
      * rewrite Forall_forall in Hall. apply Hall.
        eapply nth_error_In; exact Hm'.
      * now apply (IH Hrest m Hm').
Qed.

Lemma getEpisode_timed (response : fetched) (data : ReplayEpisode) :
  getEpisode response = Ok data ->
  Forall timed (Episode.frames data) /\ isNaN (Episode.duration data) = false.
Proof.
  destruct response as [value|]; [|discriminate].
  unfold getEpisode, validateEpisode, assertObject.
  destruct value; simpl; try discriminate.
  set (fs := match get fields "frames" with
             | RArr items => mapM validateReplayFrame items
             | _ => Ok []
             end).
  assert (Hfs : forall l, fs = Ok l -> Forall timed l).
  { subst fs. destruct (get fields "frames"); intros l E;
      try (inversion E; subst; constructor).
    revert l E. induction items as [|v items IH]; simpl; intros l E.
    - inversion E; constructor.
    - destruct (validateReplayFrame v) as [f|] eqn:Ev; simpl in E;
        [|discriminate].
      destruct (mapM validateReplayFrame items) as [l'|]; simpl in E;
        [|discriminate].
      inversion E; subst. constructor.
      + eapply validateReplayFrame_timed; eassumption.
      + now apply IH. }
  destruct fs as [l|]; simpl; [|discriminate].
  destruct (assertString (get fields "episode_id") "episode_id"); simpl;
    [|discriminate].
  destruct (assertString (get fields "created_at") "created_at"); simpl;
    [|discriminate].
  destruct (assertString (get fields "updated_at") "updated_at"); simpl;
    [|discriminate].
  unfold assertNumber.
  destruct (get fields "duration"); simpl; try discriminate.
  destruct (isNaN n) eqn:En; simpl; [discriminate|].
  destruct (assertString (get fields "version") "version"); simpl;
    [|discriminate].
  intros E; inversion E; subst; simpl. split; [now apply Hfs|exact En].
Qed.

Lemma getEpisode_needs_duration (obj : list (string * raw)) :
  (forall n, get obj "duration" = RNum n -> isNaN n = true) ->
  exists message, getEpisode (Body (RObj obj)) = Err message.
Proof.
  intros Hd.
  destruct (getEpisode (Body (RObj obj))) as [data|message] eqn:E;
    [|now exists message].
  exfalso. revert E.
  unfold getEpisode, validateEpisode, assertObject. simpl.
  destruct (match get obj "frames" with
            | RArr items => mapM validateReplayFrame items
            | _ => Ok []
            end); simpl; [|discriminate].
  destruct (assertString (get obj "episode_id") "episode_id"); simpl;
    [|discriminate].
  destruct (assertString (get obj "created_at") "created_at"); simpl;
    [|discriminate].
  destruct (assertString (get obj "updated_at") "updated_at"); simpl;
    [|discriminate].
  unfold assertNumber.
  destruct (get obj "duration") eqn:Eg; simpl; try discriminate.
  rewrite (Hd n eq_refl). simpl. discriminate.
Qed.

Lemma num_lt_le_trans (a b c : number) :
  lt a b = true -> le b c = true -> lt a c = true.
Proof. destruct a, b, c; intros; num_solve. Qed.

Lemma fallback_duration (frames : list ReplayFrame) :
  Forall timed frames ->
  let fs := sort_frames frames in
  let d := if gt (lastT fs) (Fin 0) then lastT fs else Fin 0 in
  (forall f, In f frames -> le (Frame.t f) d = true) /\
  (frames = [] -> d = Fin 0) /\
  ((exists f, In f frames /\ gt (Frame.t f) (Fin 0) = true) ->
   exists m, In m frames /\ d = Frame.t m /\
             forall f, In f frames -> le (Frame.t f) (Frame.t m) = true) /\
  ((forall f, In f frames -> gt (Frame.t f) (Fin 0) = false) -> d = Fin 0).
Proof.
  intros Ht fs d.
  pose proof (sort_frames_permutation frames) as Hperm. fold fs in Hperm.
  pose proof (sort_frames_timed Ht) as Hts. fold fs in Hts.
  pose proof (ascending_strongly (sort_frames_ascending Ht)) as Hs.
  fold fs in Hs.
  destruct fs as [|g rest] eqn:Efs.
  { apply Permutation_sym, Permutation_nil in Hperm. subst frames.
    subst d. rewrite lastT_nil. simpl.
    repeat split; try reflexivity.
    - intros f [].
    - intros [f [[] _]]. }
  destruct (@last_exists _ (g :: rest)) as [m Hm]; [discriminate|].
  pose proof (strongly_last_max Hs Hts Hm) as Hmax.
  assert (Hmin : In m frames).
  { apply (Permutation_in _ (Permutation_sym Hperm)).
    eapply nth_error_In; exact Hm. }
  assert (Hall : forall f, In f frames -> le (Frame.t f) (Frame.t m) = true).
  { intros f Hf. apply Hmax. now apply (Permutation_in _ Hperm). }
  assert (Hmt : isNaN (Frame.t m) = false).
  { rewrite Forall_forall in Ht. now apply Ht. }
  subst d. rewrite (lastT_last _ Hm).
  repeat split.
  - intros f Hf. unfold gt. destruct (lt (Fin 0) (Frame.t m)) eqn:E.
    + now apply Hall.
    + apply num_le_trans with (Frame.t m); [now apply Hall|].
      now apply num_not_lt_le.
  - intros ->. destruct Hmin.
  - intros [f [Hf Hpos]]. exists m. split; [assumption|]. split; [|assumption].
    unfold gt in *. now rewrite (num_lt_le_trans _ _ _ Hpos (Hall f Hf)).
  - intros Hnone. now rewrite (Hnone m Hmin).
Qed.

Lemma loaded_duration_usable (data : ReplayEpisode) :
  usable_duration (Episode.duration data) = true ->
  Episode.duration (loaded_episode data) = Episode.duration data.
Proof.
  intros Hu. unfold loaded_episode. cbn [Episode.duration].
  change (isFinite (Episode.duration data)
          && gt (Episode.duration data) (Fin 0))
    with (usable_duration (Episode.duration data)).
  rewrite Hu. apply andb_true_iff in Hu. destruct Hu as [_ Hpos].
  now rewrite Hpos.
Qed.

Lemma loaded_duration_fallback (data : ReplayEpisode) :
  usable_duration (Episode.duration data) = false ->
  Episode.duration (loaded_episode data) =
  if gt (lastT (sort_frames (Episode.frames data))) (Fin 0)
  then lastT (sort_frames (Episode.frames data)) else Fin 0.
Proof.
  intros Hu. unfold loaded_episode. cbn [Episode.duration].
  change (isFinite (Episode.duration data)
          && gt (Episode.duration data) (Fin 0))
    with (usable_duration (Episode.duration data)).
  now rewrite Hu.
Qed.

(** C1, as the code has it.  When a response loads, the session stores the
    episode with its frames sorted by [t].  A response duration that is finite
    and positive is stored as it is, whatever the frames' timestamps.
    Otherwise (an infinite, zero or negative duration) the stored duration is
    the maximum frame [t] when that is positive, and 0 when it is not or there
    is no frame; it is then [>=] every frame's [t].  A response whose
    duration is missing, not a number or NaN does not load. *)
Theorem load_reconciles_duration (response : fetched) (s : Session)
  (data : ReplayEpisode) :
  getEpisode response = Ok data ->
  episode (load_settle response s) = Some (loaded_episode data) /\
  isNaN (Episode.duration data) = false /\
  Permutation (Episode.frames data) (Episode.frames (loaded_episode data)) /\
  ascending (Episode.frames (loaded_episode data)) /\
  (usable_duration (Episode.duration data) = true ->
   Episode.duration (loaded_episode data) = Episode.duration data) /\
  (usable_duration (Episode.duration data) = false ->
   covers_frames (loaded_episode data) /\
   (Episode.frames data = [] ->
    Episode.duration (loaded_episode data) = Fin 0) /\
   ((exists f, In f (Episode.frames data) /\ gt (Frame.t f) (Fin 0) = true) ->
    exists m,
      In m (Episode.frames data) /\
      Episode.duration (loaded_episode data) = Frame.t m /\
      forall f, In f (Episode.frames data) ->
                le (Frame.t f) (Frame.t m) = true) /\
   ((forall f, In f (Episode.frames data) -> gt (Frame.t f) (Fin 0) = false) ->
    Episode.duration (loaded_episode data) = Fin 0)) /\
  (forall obj,
     (forall n, get obj "duration" = RNum n -> isNaN n = true) ->
     episode (load_settle (Body (RObj obj)) s) = None).
Proof.
  intros Hload. destruct (getEpisode_timed _ Hload) as [Ht Hd].
  split; [unfold load_settle; now rewrite Hload|].
  split; [assumption|].
  split; [apply sort_frames_permutation|].
  split; [now apply sort_frames_ascending|].
  split; [|split].
  - apply loaded_duration_usable.
  - intros Hu. unfold covers_frames. rewrite (loaded_duration_fallback _ Hu).
    destruct (fallback_duration Ht) as [Hcov [Hnil [Hmax Hzero]]].
    repeat split; try assumption.
    intros f Hf. unfold ge. apply Hcov.
    apply (Permutation_in _ (Permutation_sym (sort_frames_permutation _))).
    exact Hf.
  - intros obj Hmissing.
    destruct (getEpisode_needs_duration obj Hmissing) as [message E].
    unfold load_settle. now rewrite E.
Qed.

(** A body with duration -1 and frames at t = 3 and t = 12.5 loads with
    duration 12.5. *)
Lemma load_reconciles_duration_witness :
  Episode.duration
    (loaded_episode
       {| Episode.episode_id := "A";
          Episode.created_at := "2025-01-01T00:00:00Z";
          Episode.updated_at := "2025-01-01T00:00:00Z";
          Episode.title := None;
          Episode.frames :=
            [{| Frame.t := Fin (25 # 2); Frame.input_text := None;
                Frame.system_signals := []; Frame.system_state := None;
                Frame.visual := RObj []; Frame.meta := None |};
             {| Frame.t := Fin 3; Frame.input_text := None;
                Frame.system_signals := []; Frame.system_state := None;
                Frame.visual := RObj []; Frame.meta := None |}];
          Episode.duration := Fin (-1);
          Episode.version := "1" |})
  = Fin (25 # 2).
Proof.
  pose proof (@load_reconciles_duration
                (Body (raw_episode "A" (Fin (-1)) [25 # 2; 3]))
                initial_session _ eq_refl) as H.
  destruct H as [_ [_ [_ [_ [_ [H _]]]]]].
  destruct (H eq_refl) as [_ [_ [Hmax _]]].
  destruct Hmax as [m [Hin [Hd Hle]]].
  - eexists; split; [left; reflexivity|reflexivity].
  - transitivity (Frame.t m); [exact Hd|].
    destruct Hin as [<-|[<-|[]]]; [reflexivity|].
    specialize (Hle _ (or_introl eq_refl)). discriminate Hle.
Defined.

(** C1 as stated fails.  A response with duration 5 and a frame at t = 12.5
    loads with duration 5, below that frame's [t].  A response with duration
    -1 whose frames are at t = -5 and t = -2 loads with duration 0, not the
    maximum [t].  A response without a duration does not load. *)
Lemma loaded_duration_below_frame :
  (exists e f,
     episode (snd (session_run
       [SetEpisodeId (Some "A");
        Settled "A" (Body (raw_episode "A" (Fin 5) [25 # 2]))])) = Some e /\
     In f (Episode.frames e) /\
     Frame.t f = Fin (25 # 2) /\
     Episode.duration e = Fin 5 /\
     ge (Episode.duration e) (Frame.t f) = false) /\
  (exists e,
     episode (snd (session_run
       [SetEpisodeId (Some "A");
        Settled "A" (Body (raw_episode "A" (Fin (-1)) [-5; -2]))])) = Some e /\
     lastT (Episode.frames e) = Fin (-2) /\
     Episode.duration e = Fin 0) /\
  snd (session_run
         [SetEpisodeId (Some "A");
          Settled "A" (Body (raw_episode_without_duration "A" [0; 25 # 2]))])
  = {| loading := false;
       error := Some "Invalid duration: expected number";
       episode := None |}.
Proof.
  split; [|split].
  - eexists. eexists. split; [vm_compute; reflexivity|].
    split; [left; reflexivity|]. repeat split.
  - eexists. split; [vm_compute; reflexivity|]. split; reflexivity.
  - vm_compute. reflexivity.
Qed.

Lemma settle_ignores_request (id : option string) (s : Session)
  (r1 r2 : string) (response : fetched) :
  session_step (id, s) (Settled r1 response) =
  session_step (id, s) (Settled r2 response).
Proof. reflexivity. Qed.

Lemma late_response_stored (id : option string) (s : Session)
  (requested : string) (response : fetched) (data : ReplayEpisode) :
  getEpisode response = Ok data ->
  episode (snd (session_step (id, s) (Settled requested response)))
  = Some (loaded_episode data).
Proof. intros H. simpl. unfold load_settle. now rewrite H. Qed.

(** C2 fails on the code.  The hook loads A, then B; B's response arrives,
    then A's: the hook's [episodeId] is B and the stored episode is A's. *)
Theorem stale_response_overwrites :
  fst (session_run
         [SetEpisodeId (Some "A"); SetEpisodeId (Some "B");
          Settled "B" (Body (raw_episode "B" (Fin 5) [0; 5]));
          Settled "A" (Body (raw_episode "A" (Fin 3) [0; 3]))])
  = Some "B" /\
  option_map Episode.episode_id
    (episode (snd (session_run
         [SetEpisodeId (Some "A"); SetEpisodeId (Some "B");
          Settled "B" (Body (raw_episode "B" (Fin 5) [0; 5]))])))
  = Some "B" /\
  option_map Episode.episode_id
    (episode (snd (session_run
         [SetEpisodeId (Some "A"); SetEpisodeId (Some "B");
          Settled "B" (Body (raw_episode "B" (Fin 5) [0; 5]));
          Settled "A" (Body (raw_episode "A" (Fin 3) [0; 3]))])))
  = Some "A".
Proof. repeat split; vm_compute; reflexivity. Qed.

(* ================================================================= *)
(** ** The playback clock *)

Lemma clamp_inverted_bounds (v lo hi : number) :
  isNaN v = false -> lt hi lo = true -> clamp v lo hi = hi.
Proof.
  unfold clamp, Math_min, Math_max.
  destruct v, lo, hi; intros; simpl in *; try discriminate; try reflexivity;
    split_cmp; try reflexivity; exfalso; q_prop; lra.
Qed.

Lemma clamp_at_most (v lo hi : number) :
  isNaN v = false -> le hi lo = true -> clamp v lo hi = hi.
Proof.
  unfold clamp, Math_min, Math_max.
  destruct v, lo, hi; intros; simpl in *; try discriminate; try reflexivity;
    split_cmp; try reflexivity; exfalso; q_prop; lra.
Qed.

Lemma at_index_negative (A : Type) (l : list A) : at_index l (Fin (-1)) = None.
Proof. reflexivity. Qed.

Lemma sortedFrames_empty (frames : option (list ReplayFrame)) :
  sortedFrames frames = [] <-> frames = None \/ frames = Some [].
Proof.
  split.
  - destruct frames as [l|]; [|now left]. intros H. right. f_equal.
    apply Permutation_nil. simpl in H. rewrite <- H.
    apply Permutation_sym, sort_frames_permutation.
  - intros [-> | ->]; reflexivity.
Qed.

(** C10.  With no frames, [step(d)] for an integer [d], from any index
    [i >= 0], leaves [currentIndex = -1] and [currentTime = 0]; -1 indexes no
    frame and is not the 0 that [findFrameIndex] gives on no frames. *)
Theorem step_without_frames (frames : option (list ReplayFrame)) (d i : Z)
  (s : Player) (q : number) :
  sortedFrames frames = [] ->
  currentIndex s = num_of_Z i -> (0 <= i)%Z ->
  currentIndex (step frames (num_of_Z d) s) = Fin (-1) /\
  currentTime (step frames (num_of_Z d) s) = Fin 0 /\
  at_index (sortedFrames frames) (currentIndex (step frames (num_of_Z d) s))
    = None /\
  findFrameIndex (sortedFrames frames) q = 0%nat /\
  strict_eq (currentIndex (step frames (num_of_Z d) s))
            (num_of_nat (findFrameIndex (sortedFrames frames) q)) = false.
Proof.
  intros Hempty Hi _.
  assert (E : currentIndex (step frames (num_of_Z d) s) = Fin (-1)).
  { unfold step. cbn [currentIndex]. rewrite Hempty, Hi.
    apply (@clamp_inverted_bounds _ (Fin 0) (Fin (-1))); reflexivity. }
  assert (T : currentTime (step frames (num_of_Z d) s) = Fin 0).
  { unfold step in *. cbn [currentIndex currentTime] in *. rewrite E.
    now rewrite at_index_negative. }
  rewrite E, T, Hempty. repeat split.
Qed.

Lemma step_without_frames_witness :
  currentIndex (step None (num_of_Z 1) initial_player) = Fin (-1).
Proof.
  refine (proj1 (@step_without_frames None 1 0 initial_player (Fin 0)
                   eq_refl eq_refl _)).
  discriminate.
Defined.

Unset Implicit Arguments.

Lemma tick_currentTime (frames : option (list ReplayFrame))
  (duration now : number) (s : Player) :
  currentTime (tick frames duration now s)
  = clamp (proposed s now) (Fin 0) duration.
Proof.
  unfold tick, proposed, baseline. cbn [currentTime].
  destruct (lastTick_unset s); [reflexivity|].
  destruct (lastTick s); reflexivity.
Qed.

Lemma tick_isPlaying (frames : option (list ReplayFrame))
  (duration now : number) (s : Player) :
  isPlaying (tick frames duration now s)
  = if ge (currentTime (tick frames duration now s)) duration
    then false else isPlaying s.
Proof. reflexivity. Qed.

Lemma tick_lastTick (frames : option (list ReplayFrame))
  (duration now : number) (s : Player) :
  lastTick (tick frames duration now s) = Some now.
Proof. reflexivity. Qed.

Lemma tick_speed (frames : option (list ReplayFrame))
  (duration now : number) (s : Player) :
  speed (tick frames duration now s) = speed s.
Proof. reflexivity. Qed.

Lemma playback_effect_fields (s : Player) :
  isPlaying (playback_effect s) = isPlaying s /\
  currentTime (playback_effect s) = currentTime s /\
  speed (playback_effect s) = speed s /\
  lastTick (playback_effect s) = if isPlaying s then lastTick s else None.
Proof. unfold playback_effect. destruct (isPlaying s) eqn:E; simpl; auto. Qed.

Lemma speed_value_positive (sp : SpeedOption) :
  exists q, speed_value sp = Fin q /\ 0 < q.
Proof. destruct sp; eexists; split; try reflexivity; reflexivity. Qed.

Lemma div_1000 (a : Q) : div (Fin a) (Fin 1000) = Fin (a / 1000).
Proof. reflexivity. Qed.

Lemma proposed_finite (s : Player) (now : number) :
  finite_clock s -> isFinite now = true ->
  exists v, proposed s now = Fin v.
Proof.
  intros [Hc Hl] Hn. unfold proposed, baseline.
  destruct (speed_value_positive (speed s)) as [sp [-> _]].
  destruct now as [| | |n]; try discriminate.
  destruct (currentTime s) as [| | |c]; try discriminate.
  destruct (lastTick_unset s).
  - unfold sub, neg, add at 2. rewrite div_1000. eexists; reflexivity.
  - destruct (lastTick s) as [l|].
    + destruct l as [| | |l]; try discriminate.
      unfold sub, neg, add at 2. rewrite div_1000. eexists; reflexivity.
    + unfold sub, neg, add at 2. rewrite div_1000. eexists; reflexivity.
Qed.

Lemma clamp_cases (v : Q) (duration : number) :
  le (Fin 0) duration = true ->
  (clamp (Fin v) (Fin 0) duration = duration /\
   (le duration (Fin v) = true \/ le duration (Fin 0) = true)) \/
  (clamp (Fin v) (Fin 0) duration = Fin v /\ 0 < v /\
   lt (Fin v) duration = true) \/
  (clamp (Fin v) (Fin 0) duration = Fin 0 /\ v <= 0 /\
   lt (Fin 0) duration = true).
Proof.
  unfold clamp, Math_min, Math_max.
  destruct duration as [| | |d]; intros H; simpl in *; try discriminate;
    split_cmp;
    first
      [ left; split; [reflexivity | left; solve [num_solve] ]
      | left; split; [reflexivity | right; solve [num_solve] ]
      | right; left; split; [reflexivity | split; solve [num_solve] ]
      | right; right; split; [reflexivity | split; solve [num_solve] ] ].
Qed.

Lemma le_finite_upper (a : number) (q : Q) :
  le a (Fin q) = true -> le (Fin 0) a = true -> isFinite a = true.
Proof. destruct a; intros; num_solve. Qed.

Lemma tick_in_range (frames : option (list ReplayFrame))
  (duration now : number) (s : Player) :
  le (Fin 0) duration = true -> finite_clock s -> isFinite now = true ->
  in_range duration (tick frames duration now s) /\
  isFinite (currentTime (tick frames duration now s)) = true /\
  (isPlaying (tick frames duration now s) = false ->
   isPlaying s = true ->
   currentTime (tick frames duration now s) = duration).
Proof.
  intros Hd Hs Hn.
  destruct (proposed_finite s now Hs Hn) as [v Hv].
  unfold in_range. rewrite tick_isPlaying, !tick_currentTime, !Hv.
  destruct (clamp_cases v duration Hd) as [[-> Hc]|[[-> [Hpos Hlt]]|[-> [Hneg Hlt]]]].
  - split; [split; [assumption|]|split].
    + destruct duration; num_solve.
    + destruct Hc as [Hc|Hc]; eapply le_finite_upper; eassumption.
    + reflexivity.
  - split; [split|split].
    + num_solve.
    + now apply num_lt_le.
    + reflexivity.
    + unfold ge. rewrite (num_lt_not_le _ _ Hlt). congruence.
  - split; [split|split].
    + reflexivity.
    + now apply num_lt_le.
    + reflexivity.
    + unfold ge. rewrite (num_lt_not_le _ _ Hlt). congruence.
Qed.

Lemma tick_pauses_at_duration (frames : option (list ReplayFrame))
  (duration now : number) (s : Player) :
  ge (currentTime (tick frames duration now s)) duration = true ->
  isPlaying (tick frames duration now s) = false.
Proof. intros H. rewrite tick_isPlaying, H. reflexivity. Qed.

Lemma animation_frame_paused (frames : option (list ReplayFrame))
  (duration now : number) (s : Player) :
  isPlaying s = false -> animation_frame frames duration s now = s.
Proof. unfold animation_frame. now intros ->. Qed.

Lemma animation_frame_playing (frames : option (list ReplayFrame))
  (duration now : number) (s : Player) :
  isPlaying s = true ->
  animation_frame frames duration s now
  = playback_effect (tick frames duration now s).
Proof. unfold animation_frame. now intros ->. Qed.

Lemma animation_frame_in_range (frames : option (list ReplayFrame))
  (duration now : number) (s : Player) :
  le (Fin 0) duration = true -> finite_clock s -> isFinite now = true ->
  isPlaying s = true ->
  in_range duration (animation_frame frames duration s now) /\
  finite_clock (animation_frame frames duration s now) /\
  (ge (currentTime (animation_frame frames duration s now)) duration = true ->
   isPlaying (animation_frame frames duration s now) = false) /\
  (isPlaying (animation_frame frames duration s now) = false ->
   currentTime (animation_frame frames duration s now) = duration).
Proof.
  intros Hd Hs Hn Hp. rewrite (animation_frame_playing _ _ _ _ Hp).
  destruct (tick_in_range frames duration now s Hd Hs Hn) as [Hr [Hf Hstop]].
  destruct (playback_effect_fields (tick frames duration now s))
    as [E1 [E2 [_ E4]]].
  unfold in_range, finite_clock. rewrite E1, E2, E4.
  repeat split; try apply Hr; try assumption.
  - destruct (isPlaying (tick frames duration now s)); [|exact I].
    rewrite tick_lastTick. exact Hn.
  - apply tick_pauses_at_duration.
  - intros Hoff. now apply Hstop.
Qed.

Lemma run_clock_in_range (frames : option (list ReplayFrame))
  (duration : number) (nows : list number) :
  le (Fin 0) duration = true -> Forall (fun n => isFinite n = true) nows ->
  forall s,
    finite_clock s -> in_range duration s ->
    finite_clock (run_clock frames duration nows s) /\
    in_range duration (run_clock frames duration nows s).
Proof.
  intros Hd Hn. induction Hn as [|now rest Hnow Hrest IH]; intros s Hs Hr.
  - now split.
  - unfold run_clock in *. cbn [fold_left].
    destruct (isPlaying s) eqn:Hp.
    + destruct (animation_frame_in_range frames duration now s Hd Hs Hnow Hp)
        as [Hr' [Hs' _]].
      now apply IH.
    + rewrite (animation_frame_paused _ _ _ _ Hp). now apply IH.
Qed.

Lemma proposed_on_schedule (d first now now' : Q) (s : Player) (c : Q) :
  0 < now -> speed s = x1 -> lastTick s = Some (Fin now) ->
  currentTime s = Fin c ->
  proposed s (Fin now') = Fin (c + (now' + - now) / 1000 * 1).
Proof.
  intros Hnow Hsp Hl Hc. unfold proposed, baseline, lastTick_unset.
  rewrite Hsp, Hl, Hc. cbn [truthy speed_value].
  assert (E : Qeq_bool now 0 = false) by (q_prop; lra).
  rewrite E. reflexivity.
Qed.

Lemma on_schedule_step (frames : option (list ReplayFrame))
  (d first now now' : Q) (s : Player) :
  0 < first -> first <= now -> now <= now' ->
  on_schedule d first now s ->
  on_schedule d first now' (animation_frame frames (Fin d) s (Fin now')).
Proof.
  intros Hfirst Hnow Hnext [Hsp [[Hp [Hl [c [Hc [Hcv Hcd]]]]]|[Hp [Hc Hd]]]].
  - rewrite (animation_frame_playing _ _ _ _ Hp).
    destruct (playback_effect_fields (tick frames (Fin d) (Fin now') s))
      as [E1 [E2 [E3 E4]]].
    assert (Hprop : proposed s (Fin now') = Fin (c + (now' + - now) / 1000 * 1)).
    { apply (proposed_on_schedule d first); try assumption. lra. }
    assert (Hd0 : le (Fin 0) (Fin d) = true).
    { simpl. q_prop. rewrite Hcv in Hcd.
      assert (0 <= (now - first) / 1000).
      { apply Qle_shift_div_l; lra. }
      lra. }
    assert (Hv : c + (now' + - now) / 1000 * 1 == (now' - first) / 1000).
    { rewrite Hcv. field. }
    unfold on_schedule. rewrite E1, E2, E3, E4, tick_speed.
    split; [assumption|].
    rewrite tick_isPlaying, tick_lastTick, !tick_currentTime, !Hprop.
    destruct (clamp_cases (c + (now' + - now) / 1000 * 1) (Fin d) Hd0)
      as [[-> Hge]|[[-> [Hpos Hlt]]|[-> [Hneg Hlt]]]].
    + right. unfold ge. simpl le. 
      assert (Qle_bool d d = true) as -> by (q_prop; lra).
      split; [reflexivity|]. split; [reflexivity|].
      destruct Hge as [Hge|Hge]; simpl in Hge; q_prop.
      * rewrite <- Hv. exact Hge.
      * rewrite Hcv in Hcd.
        assert (0 <= (now - first) / 1000) by (apply Qle_shift_div_l; lra).
        lra.
    + left. unfold ge. rewrite (num_lt_not_le _ _ Hlt), Hp.
      split; [reflexivity|]. split; [reflexivity|].
      eexists. split; [reflexivity|]. split; [exact Hv|].
      simpl in Hlt. q_prop. lra.
    + left. unfold ge. rewrite (num_lt_not_le _ _ Hlt), Hp.
      split; [reflexivity|]. split; [reflexivity|].
      exists 0. split; [reflexivity|].
      assert (0 <= (now' - first) / 1000) by (apply Qle_shift_div_l; lra).
      split; [lra|]. simpl in Hlt. q_prop. lra.
  - rewrite (animation_frame_paused _ _ _ _ Hp).
    split; [assumption|]. right. split; [assumption|]. split; [assumption|].
    apply Qle_trans with ((now - first) / 1000); [assumption|].
    apply Qmult_le_compat_r; [lra|]. discriminate.
Qed.

Lemma on_schedule_first (frames : option (list ReplayFrame)) (d first : Q) :
  0 <= d ->
  on_schedule d first first
    (animation_frame frames (Fin d) (play initial_player) (Fin first)).
Proof.
  intros Hd.
  rewrite (animation_frame_playing frames (Fin d) (Fin first)
             (play initial_player) eq_refl).
  destruct (playback_effect_fields
              (tick frames (Fin d) (Fin first) (play initial_player)))
    as [E1 [E2 [E3 E4]]].
  unfold on_schedule. rewrite E1, E2, E3, E4, tick_speed.
  split; [reflexivity|].
  rewrite tick_isPlaying, tick_lastTick, !tick_currentTime.
  change (proposed (play initial_player) (Fin first))
    with (Fin (0 + (first + - first) / 1000 * 1)).
  assert (Hd0 : le (Fin 0) (Fin d) = true) by (simpl; q_prop; lra).
  assert (Hz : (first - first) / 1000 == 0) by field.
  assert (Hv : 0 + (first + - first) / 1000 * 1 == 0) by field.
  destruct (clamp_cases (0 + (first + - first) / 1000 * 1) (Fin d) Hd0)
    as [[-> Hge]|[[-> [Hpos Hlt]]|[-> [Hneg Hlt]]]].
  - right. unfold ge. simpl le.
    assert (Qle_bool d d = true) as -> by (q_prop; lra).
    split; [reflexivity|]. split; [reflexivity|].
    rewrite Hz. destruct Hge as [Hge|Hge]; simpl in Hge; q_prop; lra.
  - exfalso. lra.
  - left. unfold ge. rewrite (num_lt_not_le _ _ Hlt).
    split; [reflexivity|]. split; [reflexivity|].
    exists 0. split; [reflexivity|]. split; [now rewrite Hz|].
    simpl in Hlt. q_prop. lra.
Qed.

Lemma firstn_incl (A : Type) (k : nat) (l : list A) (a : A) :
  In a (firstn k l) -> In a l.
Proof.
  intros H. rewrite <- (firstn_skipn k l). apply in_or_app. now left.
Qed.

Lemma last_cons (A : Type) (l : list A) :
  forall a d, List.last (a :: l) d = List.last l a.
Proof.
  induction l as [|b l IH]; intros a d; [reflexivity|].
  change (List.last (a :: b :: l) d) with (List.last (b :: l) d).
  rewrite (IH b d), (IH b a). reflexivity.
Qed.

Lemma on_schedule_run (frames : option (list ReplayFrame)) (d first : Q) :
  0 < first ->
  forall (rest : list Q) (now : Q) (s : Player),
    first <= now -> Sorted Qle (now :: rest) ->
    on_schedule d first now s ->
    on_schedule d first (List.last rest now)
      (run_clock frames (Fin d) (map Fin rest) s).
Proof.
  intros Hfirst. induction rest as [|now' rest IH]; intros now s Hnow Hs Hinv.
  - exact Hinv.
  - inversion Hs as [|? ? Hs' Hhd]; subst. inversion Hhd as [|? ? Hle]; subst.
    unfold run_clock. cbn [map fold_left].
    rewrite last_cons.
    apply IH; [lra|assumption|].
    now apply on_schedule_step with now.
Qed.

Lemma on_schedule_finished (d first now : Q) (s : Player) :
  on_schedule d first now s -> (now - first) / 1000 == d ->
  isPlaying s = false /\ currentTime s = Fin d.
Proof.
  intros [_ [[_ [_ [c [_ [Hcv Hcd]]]]]|[Hp [Hc _]]]] Hsum.
  - exfalso. lra.
  - now split.
Qed.

Lemma play_initial_in_range (d : Q) :
  0 <= d ->
  finite_clock (play initial_player) /\ in_range (Fin d) (play initial_player).
Proof.
  intros Hd. unfold finite_clock, in_range. simpl.
  repeat split. q_prop. lra.
Qed.



(** Scrubbing on a clock of duration 10 clamps -5 to 0 and 999 to 10; on
    frames at t = 0, 2, 5 with duration 5, scrubbing to 3 selects frame 1 and
    scrubbing to 5 selects frame 2. *)
Example scrub_clamps_and_seeks :
  currentTime (scrub None (Fin 10) (Fin (-5)) initial_player) = Fin 0 /\
  currentTime (scrub None (Fin 10) (Fin 999) initial_player) = Fin 10 /\
  currentIndex
    (scrub (Some [frame_at 5 "c"; frame_at 0 "a"; frame_at 2 "b"]) (Fin 5)
       (Fin 3) initial_player) = Fin 1 /\
  currentIndex
    (scrub (Some [frame_at 5 "c"; frame_at 0 "a"; frame_at 2 "b"]) (Fin 5)
       (Fin 5) initial_player) = Fin 2.
Proof. repeat split. Qed.

Lemma play_keeps_clock_finite (s : Player) :
  finite_clock s -> finite_clock (play s).
Proof. intros H. exact H. Qed.

Lemma le_self_of_le (a b : number) : le a b = true -> le a a = true.
Proof. destruct a, b; intros; num_solve. Qed.

(** C8, as the code has it.  [play()] sets [isPlaying] and nothing else, and
    does not look at the duration; it changes nothing when the clock is
    already playing.  A clock whose duration is [<= 0] enters the playing
    state like any other, and its next animation frame pauses it again, at
    [currentTime = duration]. *)
Theorem play_sets_isPlaying (frames : option (list ReplayFrame))
  (duration now : number) (s : Player) :
  isPlaying (play s) = true /\
  speed (play s) = speed s /\
  currentTime (play s) = currentTime s /\
  currentIndex (play s) = currentIndex s /\
  lastTick (play s) = lastTick s /\
  (isPlaying s = true -> play s = s) /\
  (le duration (Fin 0) = true -> finite_clock s -> isFinite now = true ->
   isPlaying (animation_frame frames duration (play s) now) = false /\
   currentTime (animation_frame frames duration (play s) now) = duration).
Proof.
  do 5 (split; [reflexivity|]). split.
  - destruct s as [p sp ct ci lt0]. simpl. now intros ->.
  - intros Hd Hs Hnow.
    rewrite (animation_frame_playing frames duration now (play s) eq_refl).
    destruct (playback_effect_fields (tick frames duration now (play s)))
      as [-> [-> _]].
    rewrite tick_isPlaying, !tick_currentTime.
    destruct (proposed_finite (play s) now Hs Hnow) as [v ->].
    rewrite (@clamp_at_most (Fin v) (Fin 0) duration eq_refl Hd).
    unfold ge. rewrite (le_self_of_le _ _ Hd). split; reflexivity.
Qed.

Lemma play_sets_isPlaying_witness :
  isPlaying (animation_frame None (Fin 0) (play initial_player) (Fin 16))
  = false.
Proof.
  refine (proj1 (proj2 (proj2 (proj2 (proj2 (proj2 (proj2
    (play_sets_isPlaying None (Fin 0) (Fin 16) initial_player)))))) _ _ _)).
  - reflexivity.
  - split; [reflexivity|exact I].
  - reflexivity.
Defined.

(** C8 as stated fails: on a paused clock with duration 0, [play()] is not a
    no-op: the clock is playing afterwards (until the next animation frame
    pauses it again). *)
Lemma play_with_zero_duration :
  isPlaying initial_player = false /\
  isPlaying (play initial_player) = true /\
  isPlaying (run_clock None (Fin 0) [] (play initial_player)) = true /\
  run_clock None (Fin 0) [Fin 16] (play initial_player) = initial_player.
Proof. repeat split. Qed.

(* ================================================================= *)
(** ** The schema: shape and numbers *)

Section SchemaFactors.
Variable ok : number -> bool.

Ltac chain_head t :=
  lazymatch t with
  | and_then ?e _ => chain_head e
  | _ => t
  end.

(** The side run on [ok]: split on the next parse and on the next check. *)
Ltac split_checked t :=
  let h := chain_head t in
  lazymatch h with
  | Some _ => fail
  | None => fail
  | (if ?b then _ else _) => destruct b eqn:?
  | _ => destruct h eqn:?
  end.

(** The side run on the shape: split on the next parse. *)
Ltac split_shape t :=
  let h := chain_head t in
  lazymatch h with
  | Some _ => fail
  | None => fail
  | (if _ then _ else _) => fail
  | _ => destruct h eqn:?
  end.

Ltac chain_step :=
  cbn [and_then];
  lazymatch goal with
  | |- ?l = ?r => first [split_checked l | split_shape r]
  end.

Ltac close_numbers :=
  cbn [and_then];
  unfold node_numbers, loop_numbers, lever_numbers, flow_numbers,
    field_numbers;
  cbn [vec3_numbers optional_number
       Node.pos Node.intensity Node.opacity Node.scale
       Loop.center Loop.radius Loop.intensity Loop.flowSpeed Loop.bottleneck
       Loop.delay Lever.pos Lever.strength Flow.speed Flow.intensity
       Field.chaos Field.density Field.noiseAmp];
  rewrite ?forallb_app; cbn [forallb app];
  repeat match goal with
         | E : forallb ok _ = _ |- _ => rewrite E
         | E : ok _ = _ |- _ => rewrite E
         end;
  cbn [andb]; try reflexivity.

Ltac crunch := repeat chain_step; close_numbers.

Lemma z_number_checked (v : raw) :
  z_number ok v
  = (n <~ z_number any_number v ;; if ok n then Some n else None).
Proof.
  destruct v; reflexivity.
Qed.

Lemma vec3Schema_checked (v : raw) :
  vec3Schema ok v = checked ok vec3_numbers (vec3Schema any_number) v.
Proof.
  unfold checked, vec3Schema. destruct v; try reflexivity.
  destruct items as [|a [|b [|c [|]]]]; try reflexivity.
  rewrite !z_number_checked. crunch.
Qed.

Lemma optional_number_checked (v : raw) :
  z_optional (z_number ok) v
  = checked ok optional_number (z_optional (z_number any_number)) v.
Proof.
  unfold checked, z_optional. destruct v; try reflexivity. simpl.
  destruct (ok n); reflexivity.
Qed.

Lemma nodeSchema_checked (v : raw) :
  nodeSchema ok v = checked ok node_numbers (nodeSchema any_number) v.
Proof.
  unfold checked, nodeSchema. destruct v; try reflexivity.
  rewrite vec3Schema_checked, optional_number_checked, !z_number_checked.
  unfold checked. crunch.
Qed.

Lemma loopSchema_checked (v : raw) :
  loopSchema ok v = checked ok loop_numbers (loopSchema any_number) v.
Proof.
  unfold checked, loopSchema. destruct v; try reflexivity.
  rewrite vec3Schema_checked, !optional_number_checked, !z_number_checked.
  unfold checked. crunch.
Qed.

Lemma leverSchema_checked (v : raw) :
  leverSchema ok v = checked ok lever_numbers (leverSchema any_number) v.
Proof.
  unfold checked, leverSchema. destruct v; try reflexivity.
  rewrite vec3Schema_checked, !z_number_checked.
  unfold checked. crunch.
Qed.

Lemma flowSchema_checked (v : raw) :
  flowSchema ok v = checked ok flow_numbers (flowSchema any_number) v.
Proof.
  unfold checked, flowSchema. destruct v; try reflexivity.
  rewrite !optional_number_checked, !z_number_checked.
  unfold checked. crunch.
Qed.

Lemma fieldSchema_checked (v : raw) :
  fieldSchema ok v = checked ok field_numbers (fieldSchema any_number) v.
Proof.
  unfold checked, fieldSchema. destruct v; try reflexivity.
  rewrite !z_number_checked.
  unfold checked. crunch.
Qed.

Lemma each_checked (A : Type) (numbers : A -> list number)
  (s_ok s_any : schema A) :
  (forall v, s_ok v = checked ok numbers s_any v) ->
  forall items,
    each s_ok items
    = (l <~ each s_any items ;;
       if forallb ok (flat_map numbers l) then Some l else None).
Proof.
  intros H. induction items as [|v items IH]; [reflexivity|].
  cbn [each]. rewrite H, IH. unfold checked.
  destruct (s_any v) as [a|]; cbn [and_then]; [|reflexivity].
  destruct (forallb ok (numbers a)) eqn:Ea; cbn [and_then];
    destruct (each s_any items) as [l|]; cbn [and_then flat_map];
    try reflexivity; rewrite forallb_app, Ea; cbn [andb];
    try reflexivity.
  destruct (forallb ok (flat_map numbers l)); reflexivity.
Qed.

Lemma z_array_checked (A : Type) (numbers : A -> list number)
  (s_ok s_any : schema A) :
  (forall v, s_ok v = checked ok numbers s_any v) ->
  forall v,
    z_array s_ok v = checked ok (flat_map numbers) (z_array s_any) v.
Proof.
  intros H v. unfold checked, z_array. destruct v; try reflexivity.
  now apply each_checked.
Qed.

Lemma z_optional_checked (A : Type) (numbers : A -> list number)
  (s_ok s_any : schema A) :
  (forall v, s_ok v = checked ok numbers s_any v) ->
  forall v,
    z_optional s_ok v
    = checked ok (fun o => match o with Some a => numbers a | None => [] end)
        (z_optional s_any) v.
Proof.
  intros H v. unfold checked, z_optional.
  destruct v; try reflexivity; rewrite H; unfold checked;
    (destruct (s_any _) as [a|]; cbn [and_then]; [|reflexivity]);
    destruct (forallb ok (numbers a)); reflexivity.
Qed.

Lemma visualStateSchema_checked (v : raw) :
  visualStateSchema ok v
  = checked ok state_numbers (visualStateSchema any_number) v.
Proof.
  unfold checked at 1, visualStateSchema. destruct v; try reflexivity.
  rewrite optional_number_checked.
  rewrite (z_array_checked _ node_numbers _ _ nodeSchema_checked).
  rewrite (z_array_checked _ loop_numbers _ _ loopSchema_checked).
  rewrite (z_array_checked _ lever_numbers _ _ leverSchema_checked).
  rewrite (z_optional_checked _ (flat_map flow_numbers) _ _
             (z_array_checked _ flow_numbers _ _ flowSchema_checked)).
  rewrite (z_optional_checked _ field_numbers _ _ fieldSchema_checked).
  unfold checked. repeat chain_step; cbn [and_then];
    unfold state_numbers;
    cbn [State.t State.nodes State.loops State.levers State.flows State.field];
    rewrite ?forallb_app;
    repeat match goal with
           | E : forallb ok _ = _ |- _ => rewrite E
           end;
    cbn [andb]; reflexivity.
Qed.
End SchemaFactors.

(* ================================================================= *)
(** ** The normalisers *)

Lemma zod_number_not_nan (b : bool) (n : number) :
  zod_number b n = true -> isNaN n = false.
Proof. unfold zod_number. destruct n; simpl; intros; congruence. Qed.

Lemma zod_number_finite (b : bool) (q : Q) : zod_number b (Fin q) = true.
Proof. reflexivity. Qed.

Ltac tame_cases :=
  unfold clamp, Math_min, Math_max, or_else, truthy, lt;
  split_cmp; try discriminate; split; try reflexivity;
  unfold clamp, Math_min, Math_max, or_else, truthy, lt;
  split_cmp; try reflexivity; try discriminate; exfalso; q_prop; lra.

Lemma clamp_tame (b : bool) (lo hi : Q) :
  lo <= hi -> tame (zod_number b) (fun n => clamp n (Fin lo) (Fin hi)).
Proof.
  intros Hb n Hn. destruct n as [| | |q]; try discriminate.
  - tame_cases.
  - tame_cases.
  - tame_cases.
Qed.

Lemma clamp01_tame (b : bool) : tame (zod_number b) clamp01.
Proof. apply (clamp_tame b 0 1). discriminate. Qed.

Lemma clamp_scale_tame (b : bool) : tame (zod_number b) clamp_scale.
Proof. apply (clamp_tame b (1 # 10) 5). discriminate. Qed.

Lemma coordinate_tame (b : bool) : tame (zod_number b) coordinate.
Proof.
  intros n Hn. unfold coordinate.
  destruct n as [| | |q]; try discriminate; try (split; [assumption|reflexivity]).
  tame_cases.
Qed.

Lemma floor_radius_tame (b : bool) : tame (zod_number b) floor_radius.
Proof.
  intros n Hn. unfold floor_radius.
  destruct n as [| | |q]; try discriminate.
  - split; reflexivity.
  - split; [assumption|reflexivity].
  - tame_cases.
Qed.

Lemma floor_speed_tame (b : bool) : tame (zod_number b) floor_speed.
Proof.
  intros n Hn. unfold floor_speed.
  destruct n as [| | |q]; try discriminate.
  - split; reflexivity.
  - split; [assumption|reflexivity].
  - tame_cases.
Qed.

Section Normalisers.
Variable b : bool.

Ltac split_numbers H :=
  cbn in H;
  repeat (apply andb_true_iff in H;
          let Hn := fresh "Hn" in destruct H as [Hn H]).

Ltac by_tame lemma H :=
  let H1 := fresh "Hok" in
  let H2 := fresh "Hidem" in
  destruct (lemma b _ H) as [H1 H2];
  unfold coordinate, floor_radius, floor_speed, clamp_scale in H1, H2.

Lemma optional_tame (f : number -> number) (o : option number) :
  tame (zod_number b) f ->
  forallb (zod_number b) (optional_number o) = true ->
  forallb (zod_number b) (optional_number (option_map f o)) = true /\
  option_map f (option_map f o) = option_map f o.
Proof.
  intros Hf H. destruct o as [n|]; [|split; reflexivity].
  cbn in *. apply andb_true_iff in H. destruct H as [H _].
  destruct (Hf n H) as [-> ->]. split; reflexivity.
Qed.

Lemma clampVec3_tame (v : Vec3) :
  forallb (zod_number b) (vec3_numbers v) = true ->
  forallb (zod_number b) (vec3_numbers (clampVec3 v)) = true /\
  clampVec3 (clampVec3 v) = clampVec3 v.
Proof.
  destruct v as [[x y] z]. intros H. split_numbers H.
  by_tame coordinate_tame Hn. by_tame coordinate_tame Hn0.
  by_tame coordinate_tame Hn1.
  cbn [clampVec3 vec3_numbers forallb]. rewrite Hok, Hok0, Hok1.
  rewrite Hidem, Hidem0, Hidem1. split; reflexivity.
Qed.

Lemma normalizeNode_tame (n : VisualNode) :
  forallb (zod_number b) (node_numbers n) = true ->
  forallb (zod_number b) (node_numbers (normalizeNode n)) = true /\
  normalizeNode (normalizeNode n) = normalizeNode n.
Proof.
  destruct n as [id shape pos color i o sc]. unfold node_numbers, normalizeNode.
  cbn [Node.id Node.shape Node.pos Node.color Node.intensity Node.opacity
       Node.scale].
  rewrite !forallb_app. intros H.
  apply andb_true_iff in H. destruct H as [Hpos H].
  apply andb_true_iff in H. destruct H as [Hio Hsc].
  cbn in Hio. apply andb_true_iff in Hio. destruct Hio as [Hi Ho].
  apply andb_true_iff in Ho. destruct Ho as [Ho _].
  destruct (clampVec3_tame pos Hpos) as [Hp1 Hp2].
  destruct (clamp01_tame b i Hi) as [Hi1 Hi2].
  destruct (clamp01_tame b o Ho) as [Ho1 Ho2].
  destruct (optional_tame clamp_scale sc (clamp_scale_tame b) Hsc)
    as [Hs1 Hs2].
  change (match sc with
          | Some s => Some (clamp s (Fin (1 # 10)) (Fin 5))
          | None => None
          end) with (option_map clamp_scale sc).
  change (match option_map clamp_scale sc with
          | Some s => Some (clamp s (Fin (1 # 10)) (Fin 5))
          | None => None
          end) with (option_map clamp_scale (option_map clamp_scale sc)).
  rewrite Hp1, Hs1, Hp2, Hi2, Ho2, Hs2. cbn [forallb app].
  rewrite Hi1, Ho1. split; reflexivity.
Qed.

Lemma normalizeLoop_tame (l : VisualLoop) :
  forallb (zod_number b) (loop_numbers l) = true ->
  forallb (zod_number b) (loop_numbers (normalizeLoop l)) = true /\
  normalizeLoop (normalizeLoop l) = normalizeLoop l.
Proof.
  destruct l as [id ty center r i fs bn dl]. unfold loop_numbers, normalizeLoop.
  cbn [Loop.id Loop.type Loop.center Loop.radius Loop.intensity Loop.flowSpeed
       Loop.bottleneck Loop.delay].
  rewrite !forallb_app. intros H.
  apply andb_true_iff in H. destruct H as [Hc H].
  apply andb_true_iff in H. destruct H as [Hnum H].
  apply andb_true_iff in H. destruct H as [Hbn Hdl].
  split_numbers Hnum.
  destruct (clampVec3_tame center Hc) as [Hc1 Hc2].
  destruct (floor_radius_tame b r Hn) as [Hr1 Hr2].
  destruct (clamp01_tame b i Hn0) as [Hi1 Hi2].
  destruct (floor_speed_tame b fs Hn1) as [Hf1 Hf2].
  destruct (optional_tame clamp01 bn (clamp01_tame b) Hbn) as [Hb1 Hb2].
  destruct (optional_tame clamp01 dl (clamp01_tame b) Hdl) as [Hd1 Hd2].
  unfold floor_radius, floor_speed in *.
  rewrite Hc1, Hb1, Hd1, Hc2, Hr2, Hi2, Hf2, Hb2, Hd2. cbn [forallb app].
  rewrite Hr1, Hi1, Hf1. split; reflexivity.
Qed.

Lemma normalizeLever_tame (l : VisualLever) :
  forallb (zod_number b) (lever_numbers l) = true ->
  forallb (zod_number b) (lever_numbers (normalizeLever l)) = true /\
  normalizeLever (normalizeLever l) = normalizeLever l.
Proof.
  destruct l as [id target pos st]. unfold lever_numbers, normalizeLever.
  cbn [Lever.id Lever.target Lever.pos Lever.strength].
  rewrite !forallb_app. intros H.
  apply andb_true_iff in H. destruct H as [Hp Hnum].
  split_numbers Hnum.
  destruct (clampVec3_tame pos Hp) as [Hp1 Hp2].
  destruct (clamp01_tame b st Hn) as [Hs1 Hs2].
  rewrite Hp1, Hp2, Hs2. cbn [forallb app].
  rewrite Hs1. split; reflexivity.
Qed.

Lemma normalizeFlow_tame (f : VisualFlow) :
  forallb (zod_number b) (flow_numbers f) = true ->
  forallb (zod_number b) (flow_numbers (normalizeFlow f)) = true /\
  normalizeFlow (normalizeFlow f) = normalizeFlow f.
Proof.
  destruct f as [id from to ty sp i color]. unfold flow_numbers, normalizeFlow.
  cbn [Flow.id Flow.from Flow.to Flow.type Flow.speed Flow.intensity
       Flow.color].
  cbn [forallb]. intros H.
  apply andb_true_iff in H. destruct H as [Hsp Hi].
  destruct (floor_speed_tame b sp Hsp) as [Hs1 Hs2].
  destruct (optional_tame clamp01 i (clamp01_tame b) Hi) as [Hi1 Hi2].
  unfold floor_speed in *.
  rewrite Hs1, Hi1, Hs2, Hi2. split; reflexivity.
Qed.

Lemma normalizeField_tame (f : VisualField) :
  forallb (zod_number b) (field_numbers f) = true ->
  forallb (zod_number b) (field_numbers (normalizeField f)) = true /\
  normalizeField (normalizeField f) = normalizeField f.
Proof.
  destruct f as [c d n]. unfold field_numbers, normalizeField.
  cbn [Field.chaos Field.density Field.noiseAmp]. intros H.
  split_numbers H.
  destruct (clamp01_tame b c Hn) as [Hc1 Hc2].
  destruct (clamp01_tame b d Hn0) as [Hd1 Hd2].
  destruct (clamp01_tame b n Hn1) as [Hn1' Hn2].
  cbn [forallb]. rewrite Hc1, Hd1, Hn1', Hc2, Hd2, Hn2. split; reflexivity.
Qed.

Lemma map_tame (A : Type) (numbers : A -> list number) (f : A -> A) :
  (forall a,
     forallb (zod_number b) (numbers a) = true ->
     forallb (zod_number b) (numbers (f a)) = true /\ f (f a) = f a) ->
  forall l,
    forallb (zod_number b) (flat_map numbers l) = true ->
    forallb (zod_number b) (flat_map numbers (map f l)) = true /\
    map f (map f l) = map f l.
Proof.
  intros Hf. induction l as [|a l IH]; intros H; [split; reflexivity|].
  cbn [flat_map map] in *. rewrite forallb_app in *.
  apply andb_true_iff in H. destruct H as [Ha Hl].
  destruct (Hf a Ha) as [-> ->]. destruct (IH Hl) as [-> ->].
  split; reflexivity.
Qed.

Lemma normalized_tame (d : VisualState) :
  forallb (zod_number b) (state_numbers d) = true ->
  forallb (zod_number b) (state_numbers (normalized d)) = true /\
  normalized (normalized d) = normalized d.
Proof.
  destruct d as [t focus nodes loops levers flows field].
  unfold state_numbers, normalized.
  cbn [State.t State.focus State.nodes State.loops State.levers State.flows
       State.field].
  rewrite !forallb_app. intros H.
  apply andb_true_iff in H. destruct H as [Ht H].
  apply andb_true_iff in H. destruct H as [Hnodes H].
  apply andb_true_iff in H. destruct H as [Hloops H].
  apply andb_true_iff in H. destruct H as [Hlevers H].
  apply andb_true_iff in H. destruct H as [Hflows Hfield].
  destruct (map_tame _ node_numbers normalizeNode normalizeNode_tame
              nodes Hnodes) as [-> ->].
  destruct (map_tame _ loop_numbers normalizeLoop normalizeLoop_tame
              loops Hloops) as [-> ->].
  destruct (map_tame _ lever_numbers normalizeLever normalizeLever_tame
              levers Hlevers) as [-> ->].
  rewrite Ht. cbn [andb].
  destruct flows as [fs|]; destruct field as [fd|]; cbn [option_map] in *;
    try (destruct (map_tame _ flow_numbers normalizeFlow normalizeFlow_tame
                     fs Hflows) as [-> ->]);
    try (destruct (normalizeField_tame fd Hfield) as [-> ->]);
    split; reflexivity.
Qed.
End Normalisers.

(* ================================================================= *)
(** ** Parsed data read again *)

Ltac open_chain H :=
  repeat match type of H with
         | and_then ?e _ = Some _ =>
             let E := fresh "E" in
             destruct e eqn:E; cbn [and_then] in H; [|discriminate H]
         end;
  inversion H; subst; clear H.

Lemma z_string_min1_nonempty (v : raw) (s : string) :
  z_string_min1 v = Some s -> nonempty s = true.
Proof.
  unfold z_string_min1, nonempty. destruct v; try discriminate.
  destruct (String.eqb s0 "") eqn:E; [discriminate|].
  intros H; inversion H; subst. now rewrite E.
Qed.

Section Named.
Variable ok : number -> bool.

Lemma nodeSchema_named (v : raw) (n : VisualNode) :
  nodeSchema ok v = Some n -> node_named n = true.
Proof.
  unfold nodeSchema. destruct v; try discriminate. intros H. open_chain H.
  unfold node_named. cbn. eapply z_string_min1_nonempty; eassumption.
Qed.

Lemma loopSchema_named (v : raw) (l : VisualLoop) :
  loopSchema ok v = Some l -> loop_named l = true.
Proof.
  unfold loopSchema. destruct v; try discriminate. intros H. open_chain H.
  unfold loop_named. cbn. eapply z_string_min1_nonempty; eassumption.
Qed.

Lemma leverSchema_named (v : raw) (l : VisualLever) :
  leverSchema ok v = Some l -> lever_named l = true.
Proof.
  unfold leverSchema. destruct v; try discriminate. intros H. open_chain H.
  unfold lever_named. cbn. apply andb_true_iff.
  split; eapply z_string_min1_nonempty; eassumption.
Qed.

Lemma flowSchema_named (v : raw) (f : VisualFlow) :
  flowSchema ok v = Some f -> flow_named f = true.
Proof.
  unfold flowSchema. destruct v; try discriminate. intros H. open_chain H.
  unfold flow_named. cbn. rewrite !andb_true_iff.
  repeat split; eapply z_string_min1_nonempty; eassumption.
Qed.

Lemma each_named (A : Type) (s : schema A) (named : A -> bool) :
  (forall v a, s v = Some a -> named a = true) ->
  forall items l, each s items = Some l -> forallb named l = true.
Proof.
  intros Hs. induction items as [|v items IH]; intros l H; cbn [each] in H.
  - inversion H; reflexivity.
  - open_chain H. cbn [forallb]. rewrite (Hs _ _ E), (IH _ eq_refl). reflexivity.
Qed.

Lemma z_array_named (A : Type) (s : schema A) (named : A -> bool) :
  (forall v a, s v = Some a -> named a = true) ->
  forall v l, z_array s v = Some l -> forallb named l = true.
Proof.
  intros Hs v l. unfold z_array. destruct v; try discriminate.
  now apply each_named.
Qed.

Lemma visualStateSchema_named (v : raw) (d : VisualState) :
  visualStateSchema ok v = Some d -> state_named d = true.
Proof.
  unfold visualStateSchema. destruct v; try discriminate. intros H.
  open_chain H. unfold state_named.
  cbn [State.nodes State.loops State.levers State.flows].
  rewrite (z_array_named _ _ node_named nodeSchema_named _ _ E1).
  rewrite (z_array_named _ _ loop_named loopSchema_named _ _ E2).
  rewrite (z_array_named _ _ lever_named leverSchema_named _ _ E3).
  cbn [andb]. destruct o1 as [fs|]; [|reflexivity].
  unfold z_optional in E4. destruct (get fields "flows"); try discriminate;
    open_chain E4;
    eapply (z_array_named _ _ flow_named flowSchema_named); eassumption.
Qed.
End Named.

Lemma forallb_map_same (A : Type) (named : A -> bool) (f : A -> A) :
  (forall a, named (f a) = named a) ->
  forall l, forallb named (map f l) = forallb named l.
Proof.
  intros Hf. induction l as [|a l IH]; [reflexivity|].
  cbn [map forallb]. now rewrite Hf, IH.
Qed.

Lemma normalized_named (d : VisualState) :
  state_named (normalized d) = state_named d.
Proof.
  destruct d as [t focus nodes loops levers flows field].
  unfold state_named, normalized.
  cbn [State.nodes State.loops State.levers State.flows].
  rewrite (forallb_map_same _ node_named normalizeNode) by reflexivity.
  rewrite (forallb_map_same _ loop_named normalizeLoop) by reflexivity.
  rewrite (forallb_map_same _ lever_named normalizeLever) by reflexivity.
  destruct flows as [fs|]; cbn [option_map]; [|reflexivity].
  rewrite (forallb_map_same _ flow_named normalizeFlow) by reflexivity.
  reflexivity.
Qed.

Lemma z_string_min1_of (s : string) :
  nonempty s = true -> z_string_min1 (RStr s) = Some s.
Proof.
  unfold nonempty, z_string_min1. intros H.
  apply negb_true_iff in H. now rewrite H.
Qed.

Lemma vec3Schema_of (v : Vec3) : vec3Schema any_number (of_vec3 v) = Some v.
Proof. destruct v as [[x y] z]. reflexivity. Qed.

Lemma optional_number_of (o : option number) :
  z_optional (z_number any_number) (of_optional RNum o) = Some o.
Proof. destruct o; reflexivity. Qed.

Lemma optional_string_of (o : option string) :
  z_optional z_string (of_optional RStr o) = Some o.
Proof. destruct o; reflexivity. Qed.

Lemma nodeSchema_of (n : VisualNode) :
  node_named n = true -> nodeSchema any_number (of_node n) = Some n.
Proof.
  destruct n as [id shape pos color i o sc]. unfold node_named.
  cbn [Node.id]. intros Hid.
  unfold nodeSchema, of_node.
  cbn [get String.eqb Ascii.eqb Bool.eqb Node.id Node.shape Node.pos
       Node.color Node.intensity Node.opacity Node.scale].
  rewrite (z_string_min1_of _ Hid), vec3Schema_of, optional_number_of.
  destruct shape; reflexivity.
Qed.

Lemma loopSchema_of (l : VisualLoop) :
  loop_named l = true -> loopSchema any_number (of_loop l) = Some l.
Proof.
  destruct l as [id ty center r i fs bn dl]. unfold loop_named.
  cbn [Loop.id]. intros Hid.
  unfold loopSchema, of_loop.
  cbn [get String.eqb Ascii.eqb Bool.eqb Loop.id Loop.type Loop.center
       Loop.radius Loop.intensity Loop.flowSpeed Loop.bottleneck Loop.delay].
  rewrite (z_string_min1_of _ Hid), vec3Schema_of, !optional_number_of.
  destruct ty; reflexivity.
Qed.

Lemma leverSchema_of (l : VisualLever) :
  lever_named l = true -> leverSchema any_number (of_lever l) = Some l.
Proof.
  destruct l as [id target pos st]. unfold lever_named.
  cbn [Lever.id Lever.target]. intros H.
  apply andb_true_iff in H. destruct H as [Hid Htarget].
  unfold leverSchema, of_lever.
  cbn [get String.eqb Ascii.eqb Bool.eqb Lever.id Lever.target Lever.pos
       Lever.strength].
  rewrite (z_string_min1_of _ Hid), (z_string_min1_of _ Htarget),
    vec3Schema_of.
  reflexivity.
Qed.

Lemma flowSchema_of (f : VisualFlow) :
  flow_named f = true -> flowSchema any_number (of_flow f) = Some f.
Proof.
  destruct f as [id from to ty sp i color]. unfold flow_named.
  cbn [Flow.id Flow.from Flow.to]. intros H.
  apply andb_true_iff in H. destruct H as [H Hto].
  apply andb_true_iff in H. destruct H as [Hid Hfrom].
  unfold flowSchema, of_flow.
  cbn [get String.eqb Ascii.eqb Bool.eqb Flow.id Flow.from Flow.to Flow.type
       Flow.speed Flow.intensity Flow.color].
  rewrite (z_string_min1_of _ Hid), (z_string_min1_of _ Hfrom),
    (z_string_min1_of _ Hto), optional_number_of, optional_string_of.
  destruct ty; reflexivity.
Qed.

Lemma fieldSchema_of (f : VisualField) :
  fieldSchema any_number (of_field f) = Some f.
Proof. destruct f as [c d n]. reflexivity. Qed.

Lemma each_of (A : Type) (s : schema A) (named : A -> bool)
  (embed : A -> raw) :
  (forall a, named a = true -> s (embed a) = Some a) ->
  forall l, forallb named l = true -> each s (map embed l) = Some l.
Proof.
  intros Hs. induction l as [|a l IH]; intros H; [reflexivity|].
  cbn [forallb] in H. apply andb_true_iff in H. destruct H as [Ha Hl].
  cbn [map each]. rewrite (Hs a Ha), (IH Hl). reflexivity.
Qed.

Lemma visualStateSchema_of (d : VisualState) :
  state_named d = true -> visualStateSchema any_number (of_state d) = Some d.
Proof.
  destruct d as [t focus nodes loops levers flows field].
  unfold state_named.
  cbn [State.nodes State.loops State.levers State.flows]. intros H.
  apply andb_true_iff in H. destruct H as [H Hflows].
  apply andb_true_iff in H. destruct H as [H Hlevers].
  apply andb_true_iff in H. destruct H as [Hnodes Hloops].
  unfold visualStateSchema, of_state.
  cbn [get String.eqb Ascii.eqb Bool.eqb State.t State.focus State.nodes
       State.loops State.levers State.flows State.field].
  rewrite optional_number_of, optional_string_of. unfold z_array.
  rewrite (each_of _ _ node_named of_node nodeSchema_of nodes Hnodes).
  rewrite (each_of _ _ loop_named of_loop loopSchema_of loops Hloops).
  rewrite (each_of _ _ lever_named of_lever leverSchema_of levers Hlevers).
  cbn [and_then].
  destruct flows as [fs|]; destruct field as [[c dn na]|];
    cbn [of_optional z_optional and_then];
    try rewrite (each_of _ _ flow_named of_flow flowSchema_of fs Hflows);
    reflexivity.
Qed.

Lemma checked_Some (A : Type) (ok : number -> bool)
  (numbers : A -> list number) (s : schema A) (v : raw) (a : A) :
  checked ok numbers s v = Some a <->
  s v = Some a /\ forallb ok (numbers a) = true.
Proof.
  unfold checked. destruct (s v) as [a'|]; cbn [and_then].
  - destruct (forallb ok (numbers a')) eqn:E; split.
    + intros H; inversion H; subst. now split.
    + intros [H _]. exact H.
    + discriminate.
    + intros [H H']. inversion H; subst. congruence.
  - split; [discriminate|]. intros [H _]. discriminate.
Qed.

Lemma parseVisualState_checked (infinite_ok : bool) (input : raw)
  (shape : VisualState) :
  visualStateSchema any_number input = Some shape ->
  parseVisualState infinite_ok input
  = if forallb (zod_number infinite_ok) (state_numbers shape)
    then ok_true (normalized shape) else ok_false.
Proof.
  intros H. unfold parseVisualState.
  rewrite visualStateSchema_checked. unfold checked. rewrite H.
  cbn [and_then].
  destruct (forallb (zod_number infinite_ok) (state_numbers shape));
    reflexivity.
Qed.

Lemma parseVisualState_ok (infinite_ok : bool) (input : raw)
  (d : VisualState) :
  parseVisualState infinite_ok input = ok_true d ->
  exists shape,
    visualStateSchema any_number input = Some shape /\
    forallb (zod_number infinite_ok) (state_numbers shape) = true /\
    d = normalized shape.
Proof.
  unfold parseVisualState.
  destruct (visualStateSchema (zod_number infinite_ok) input) as [shape|]
    eqn:E; [|discriminate].
  intros H. inversion H; subst. exists shape.
  rewrite visualStateSchema_checked in E. apply checked_Some in E.
  destruct E as [E1 E2]. repeat split; assumption.
Qed.

(** C6.  When [parseVisualState] succeeds on an input, it succeeds on its own
    output, read as an untyped value again, and returns that output. *)
Theorem parseVisualState_idempotent (infinite_ok : bool) (x : raw)
  (d : VisualState) :
  parseVisualState infinite_ok x = ok_true d ->
  parseVisualState infinite_ok (of_state d) = ok_true d.
Proof.
  intros H. destruct (parseVisualState_ok _ _ _ H) as [shape [Hs [Hn ->]]].
  destruct (normalized_tame infinite_ok shape Hn) as [Hn' Hidem].
  assert (Hnamed : state_named (normalized shape) = true).
  { rewrite normalized_named.
    eapply visualStateSchema_named; eassumption. }
  rewrite (parseVisualState_checked infinite_ok (of_state (normalized shape))
             (normalized shape) (visualStateSchema_of _ Hnamed)).
  now rewrite Hn', Hidem.
Qed.

Lemma parseVisualState_idempotent_witness :
  parseVisualState true
    (of_state
       {| State.t := None; State.focus := None;
          State.nodes :=
            [{| Node.id := "n1"; Node.shape := box;
                Node.pos := (PosInf, Fin 1, Fin (-3));
                Node.color := "#ff0000"; Node.intensity := Fin 1;
                Node.opacity := Fin 0; Node.scale := None |}];
          State.loops := []; State.levers := [];
          State.flows := None; State.field := None |})
  = ok_true
      {| State.t := None; State.focus := None;
         State.nodes :=
           [{| Node.id := "n1"; Node.shape := box;
               Node.pos := (PosInf, Fin 1, Fin (-3));
               Node.color := "#ff0000"; Node.intensity := Fin 1;
               Node.opacity := Fin 0; Node.scale := None |}];
         State.loops := []; State.levers := [];
         State.flows := None; State.field := None |}.
Proof.
  apply (parseVisualState_idempotent true (payload_with PosInf)).
  reflexivity.
Defined.

Lemma finite_numbers_admitted (b : bool) (l : list number) :
  forallb isFinite l = true -> forallb (zod_number b) l = true.
Proof.
  induction l as [|n l IH]; [reflexivity|]. cbn [forallb]. intros H.
  apply andb_true_iff in H. destruct H as [Hn Hl].
  rewrite (IH Hl). destruct n; try discriminate. reflexivity.
Qed.

Lemma coordinate_is_normalized (c : number) :
  coordinate_normalized c (or_else c (Fin 0)).
Proof.
  unfold coordinate_normalized, or_else.
  destruct c as [| | |q]; cbn; repeat split; try discriminate.
  - destruct (Qeq_bool q 0); reflexivity.
  - destruct (Qeq_bool q 0); reflexivity.
Qed.

Lemma clampVec3_coordinates (v : Vec3) :
  Forall2 coordinate_normalized (vec3_numbers v) (vec3_numbers (clampVec3 v)).
Proof.
  destruct v as [[x y] z]. cbn [clampVec3 vec3_numbers].
  repeat constructor; apply coordinate_is_normalized.
Qed.

Lemma vectors_coordinates (A : Type) (vec : A -> Vec3) (f : A -> A) :
  (forall a, vec (f a) = clampVec3 (vec a)) ->
  forall l,
    Forall2 coordinate_normalized
      (flat_map vec3_numbers (map vec l))
      (flat_map vec3_numbers (map vec (map f l))).
Proof.
  intros Hf. induction l as [|a l IH]; [constructor|].
  cbn [map flat_map]. apply Forall2_app; [|exact IH].
  rewrite Hf. apply clampVec3_coordinates.
Qed.

Lemma normalized_coordinates (d : VisualState) :
  Forall2 coordinate_normalized
    (state_coordinates d) (state_coordinates (normalized d)).
Proof.
  unfold state_coordinates, state_vectors, normalized.
  cbn [State.nodes State.loops State.levers].
  rewrite !flat_map_app.
  repeat apply Forall2_app; apply vectors_coordinates; reflexivity.
Qed.

(** C3, as the code has it.  On a structurally well-shaped payload
    validation succeeds exactly when [z.number()] admits every number-valued
    field: a NaN is rejected (and, on zod 4, an infinity); finite numbers of
    any magnitude are accepted and normalised.  In the output each position
    and centre coordinate is the input coordinate, or 0 for a falsy one; it
    is never NaN, and it is finite when the input coordinate is. *)
Theorem validation_of_well_shaped (infinite_ok : bool) (input : raw)
  (shape : VisualState) :
  visualStateSchema any_number input = Some shape ->
  parseVisualState infinite_ok input
  = (if forallb (zod_number infinite_ok) (state_numbers shape)
     then ok_true (normalized shape) else ok_false) /\
  (forallb isFinite (state_numbers shape) = true ->
   parseVisualState infinite_ok input = ok_true (normalized shape)) /\
  Forall2 coordinate_normalized
    (state_coordinates shape) (state_coordinates (normalized shape)).
Proof.
  intros H. pose proof (parseVisualState_checked infinite_ok _ _ H) as E.
  split; [exact E|]. split.
  - intros Hfin. rewrite E.
    now rewrite (finite_numbers_admitted infinite_ok _ Hfin).
  - apply normalized_coordinates.
Qed.

Lemma validation_of_well_shaped_witness :
  parseVisualState false (payload_with (Fin 1000000000))
  = ok_true
      {| State.t := None; State.focus := None;
         State.nodes :=
           [{| Node.id := "n1"; Node.shape := box;
               Node.pos := (Fin 1000000000, Fin 1, Fin (-3));
               Node.color := "#ff0000"; Node.intensity := Fin 1;
               Node.opacity := Fin 0; Node.scale := None |}];
         State.loops := []; State.levers := [];
         State.flows := None; State.field := None |}.
Proof.
  exact (proj1 (proj2
    (validation_of_well_shaped false (payload_with (Fin 1000000000)) _
       eq_refl)) eq_refl).
Defined.

(** C3 as stated fails.  A well-shaped payload with a NaN coordinate is
    rejected, on zod 3 and on zod 4.  With an infinite coordinate it is
    rejected on zod 4, and accepted on zod 3 with that coordinate left
    infinite in the output. *)
Lemma nan_rejected_infinity_kept :
  well_shaped (payload_with NaN) = true /\
  parseVisualState true (payload_with NaN) = ok_false /\
  parseVisualState false (payload_with NaN) = ok_false /\
  well_shaped (payload_with PosInf) = true /\
  parseVisualState false (payload_with PosInf) = ok_false /\
  exists d,
    parseVisualState true (payload_with PosInf) = ok_true d /\
    state_coordinates d = [PosInf; Fin 1; Fin (-3)] /\
    forallb isFinite (state_coordinates d) = false.
Proof.
  repeat split. eexists. repeat split.
Qed.

(* ================================================================= *)
(** ** Exponential smoothing *)

Module SmoothingFacts.
Import Reals Lra.
Import Smoothing.
Local Open Scope R_scope.

Lemma exp_neg_le_1 (x : R) : 0 <= x -> exp (- x) <= 1.
Proof.
  intros Hx. rewrite <- exp_0.
  destruct (Req_dec x 0) as [->|Hne].
  - rewrite Ropp_0. lra.
  - left. apply exp_increasing. lra.
Qed.

Lemma blend_factor_bounds (lambda dt : R) :
  0 < lambda -> 0 <= dt ->
  0 <= 1 - exp (- lambda * dt) < 1.
Proof.
  intros Hl Hd.
  replace (- lambda * dt) with (- (lambda * dt)) by ring.
  assert (0 <= lambda * dt) by (apply Rmult_le_pos; lra).
  pose proof (exp_neg_le_1 (lambda * dt) H).
  pose proof (exp_pos (- (lambda * dt))). lra.
Qed.

Lemma damp_error (current target lambda dt : R) :
  damp current target lambda dt - target
  = (current - target) * exp (- lambda * dt).
Proof. unfold damp. ring. Qed.

Lemma damp_between (current target lambda dt : R) :
  0 < lambda -> 0 <= dt ->
  Rmin current target <= damp current target lambda dt
  <= Rmax current target.
Proof.
  intros Hl Hd. pose proof (blend_factor_bounds lambda dt Hl Hd) as [H0 H1].
  unfold damp. cbv zeta. set (k := 1 - exp (- lambda * dt)) in *.
  unfold Rmin, Rmax. destruct (Rle_dec current target); split; nra.
Qed.

Lemma damp_converges (current target lambda : R) :
  0 < lambda ->
  forall eps, 0 < eps ->
    exists T, 0 <= T /\
      forall dt, T <= dt ->
        Rabs (damp current target lambda dt - target) < eps.
Proof.
  intros Hl eps Heps.
  set (M := Rabs (current - target)).
  assert (HM : 0 <= M) by apply Rabs_pos.
  exists (M / (eps * lambda)).
  assert (Hel : 0 < eps * lambda) by (apply Rmult_lt_0_compat; lra).
  split.
  { apply Rmult_le_pos; [assumption|]. left. now apply Rinv_0_lt_compat. }
  intros dt Hdt.
  rewrite damp_error, Rabs_mult. fold M.
  rewrite (Rabs_right (exp _)) by (left; apply exp_pos).
  replace (- lambda * dt) with (- (lambda * dt)) by ring.
  rewrite exp_Ropp.
  pose proof (exp_ineq1_le (lambda * dt)) as Hexp.
  pose proof (exp_pos (lambda * dt)) as Hpos.
  assert (Hbig : M <= eps * lambda * dt).
  { apply (Rmult_le_compat_l (eps * lambda)) in Hdt; [|lra].
    replace (eps * lambda * (M / (eps * lambda))) with M in Hdt
      by (field; lra).
    lra. }
  apply (Rmult_lt_reg_r (exp (lambda * dt))); [assumption|].
  rewrite Rmult_assoc, Rinv_l by lra. nra.
Qed.

Lemma exp_nat_lower (n : nat) : 2 ^ n <= exp (INR n).
Proof.
  induction n as [|n IH].
  - simpl. rewrite exp_0. lra.
  - rewrite S_INR, exp_plus. simpl pow.
    pose proof (exp_ineq1_le 1). pose proof (pow_lt 2 n). 
    pose proof (exp_pos (INR n)). nra.
Qed.

Lemma damp_example : Rabs (damp 0 10 8 5 - 10) < / 1000000000.
Proof.
  rewrite damp_error, Rabs_mult.
  rewrite (Rabs_right (exp _)) by (left; apply exp_pos).
  replace (Rabs (0 - 10)) with 10
    by (rewrite Rabs_left; lra).
  replace (- (8) * 5) with (- INR 40) by (simpl; lra).
  rewrite exp_Ropp.
  pose proof (exp_nat_lower 40) as H. simpl pow in H.
  pose proof (exp_pos (INR 40)) as Hpos.
  apply (Rmult_lt_reg_r (exp (INR 40))); [assumption|].
  rewrite Rmult_assoc, Rinv_l by lra. lra.
Qed.


End SmoothingFacts.

(* ================================================================= *)
(** * Further properties *)

(** ** Clamping *)

Lemma clamp_spec (v lo hi : number) :
  isNaN v = false -> le lo hi = true ->
  le lo (clamp v lo hi) = true /\
  le (clamp v lo hi) hi = true /\
  (lt v lo = true -> strict_eq (clamp v lo hi) lo = true) /\
  (lt hi v = true -> strict_eq (clamp v lo hi) hi = true) /\
  (le lo v = true -> le v hi = true -> strict_eq (clamp v lo hi) v = true).
Proof.
  unfold clamp, Math_min, Math_max.
  destruct v, lo, hi; intros Hv Hb; simpl in *; try discriminate;
    repeat split; intros; simpl in *; try discriminate; try reflexivity;
    split_cmp; try discriminate; try reflexivity;
    first [ solve [q_prop; lra] | exfalso; q_prop; lra ].
Qed.

(* ================================================================= *)
(** ** The playback clock: seeking and stepping *)

Lemma at_index_int (A : Type) (l : list A) (q : Q) (k : Z) :
  q == inject_Z k -> (0 <= k)%Z ->
  at_index l (Fin q) = nth_error l (Z.to_nat k).
Proof.
  intros Hq Hk. unfold at_index.
  assert (Hf : Qfloor q = k) by (rewrite Hq; apply Qfloor_Z).
  rewrite Hf.
  assert (E : Qeq_bool q (inject_Z k) = true) by (now apply Qeq_bool_iff).
  rewrite E. apply Z.leb_le in Hk. now rewrite Hk.
Qed.

Lemma at_index_nat (A : Type) (l : list A) (n : nat) :
  at_index l (num_of_nat n) = nth_error l n.
Proof.
  unfold num_of_nat, num_of_Z.
  rewrite (at_index_int A l _ (Z.of_nat n)); [|reflexivity|lia].
  now rewrite Nat2Z.id.
Qed.

Lemma findFrameIndex_bound (frames : list ReplayFrame) (q : number) :
  frames <> [] -> (findFrameIndex frames q < List.length frames)%nat.
Proof.
  intros Hne. rewrite findFrameIndex_leading.
  pose proof (leading_le_length q frames).
  destruct frames; [congruence|]. simpl List.length in *. lia.
Qed.

Lemma strongly_sorted_nth (l : list ReplayFrame) :
  StronglySorted t_le l -> Forall timed l ->
  forall j k g f,
    (j <= k)%nat -> nth_error l j = Some g -> nth_error l k = Some f ->
    le (Frame.t g) (Frame.t f) = true.
Proof.
  induction 1 as [|a l Hs IH Hall]; intros Ht j k g f Hjk Hj Hk.
  - destruct j; discriminate.
  - inversion Ht as [|? ? Ha Ht']; subst.
    destruct j as [|j]; simpl in Hj.
    + inversion Hj; subst. destruct k as [|k]; simpl in Hk.
      * inversion Hk; subst. now apply num_le_refl.
      * rewrite Forall_forall in Hall. apply Hall.
        eapply nth_error_In; eassumption.
    + destruct k as [|k]; [lia|]. simpl in Hk.
      apply (IH Ht' j k); [lia|assumption|assumption].
Qed.

Lemma frame_shown_floor (frames : list ReplayFrame) (T : number) :
  frames <> [] -> Forall timed frames ->
  exists f,
    frame_shown (Some frames) T = Some f /\ In f frames /\
    ((le (Frame.t f) T = true /\
      forall g, In g frames -> le (Frame.t g) T = true ->
                le (Frame.t g) (Frame.t f) = true)
     \/
     ((forall g, In g frames -> le (Frame.t g) T = false) /\
      forall g, In g frames -> le (Frame.t f) (Frame.t g) = true)).
Proof.
  intros Hne Ht. unfold frame_shown. cbn [sortedFrames].
  set (sorted := sort_frames frames).
  pose proof (sort_frames_permutation frames) as Hperm. fold sorted in Hperm.
  pose proof (sort_frames_timed Ht) as Hts. fold sorted in Hts.
  pose proof (ascending_strongly (sort_frames_ascending Ht)) as Hs.
  fold sorted in Hs.
  assert (Hne' : sorted <> []).
  { intros E. rewrite E in Hperm. apply Permutation_sym in Hperm.
    now apply Permutation_nil in Hperm. }
  rewrite at_index_nat.
  pose proof (findFrameIndex_bound sorted T Hne') as Hb.
  destruct (nth_error sorted (findFrameIndex sorted T)) as [f|] eqn:Hf;
    [|apply nth_error_None in Hf; lia].
  exists f. split; [reflexivity|].
  assert (Hin : forall g, In g frames <-> In g sorted).
  { intros g. split; apply Permutation_in;
      [assumption|now apply Permutation_sym]. }
  split; [apply Hin; eapply nth_error_In; eassumption|].
  rewrite findFrameIndex_leading in Hf.
  destruct (leading T sorted) as [|k] eqn:Hlead.
  - right. simpl in Hf.
    assert (Hnone : forall g, In g sorted -> le (Frame.t g) T = false).
    { intros g Hg. destruct (le (Frame.t g) T) eqn:E; [|reflexivity].
      apply In_nth_error in Hg. destruct Hg as [j Hj].
      pose proof (leading_covers T Hs _ Hj E). lia. }
    split.
    + intros g Hg. apply Hnone. now apply Hin.
    + intros g Hg. apply Hin in Hg. apply In_nth_error in Hg.
      destruct Hg as [j Hj].
      apply (strongly_sorted_nth sorted Hs Hts 0 j); [lia|assumption|assumption].
  - left. simpl in Hf. split.
    + apply (leading_qualifies T sorted (k := k)); [lia|assumption].
    + intros g Hg Hq. apply Hin in Hg. apply In_nth_error in Hg.
      destruct Hg as [j Hj].
      pose proof (leading_covers T Hs _ Hj Hq).
      apply (strongly_sorted_nth sorted Hs Hts j k); [lia|assumption|assumption].
Qed.

(** X1.  After [scrub] or [tick] on an episode with frames, the clock shows a
    frame of the episode: the latest one whose [t] is not after the clock's
    time, or the earliest frame when every frame is after it. *)
Theorem current_frame_is_floor (frames : list ReplayFrame)
  (duration t now : number) (s s' : Player) :
  frames <> [] -> Forall timed frames ->
  s' = scrub (Some frames) duration t s \/
  s' = tick (Some frames) duration now s ->
  exists f,
    currentFrame (Some frames) s' = Some f /\ In f frames /\
    ((le (Frame.t f) (currentTime s') = true /\
      forall g, In g frames -> le (Frame.t g) (currentTime s') = true ->
                le (Frame.t g) (Frame.t f) = true)
     \/
     ((forall g, In g frames -> le (Frame.t g) (currentTime s') = false) /\
      forall g, In g frames -> le (Frame.t f) (Frame.t g) = true)).
Proof.
  intros Hne Ht Hs'.
  assert (E : currentFrame (Some frames) s'
              = frame_shown (Some frames) (currentTime s')).
  { destruct Hs' as [-> | ->]; reflexivity. }
  rewrite E. now apply frame_shown_floor.
Qed.

Lemma current_frame_is_floor_witness :
  exists f,
    currentFrame (Some [frame_at 5 "c"; frame_at 0 "a"; frame_at 2 "b"])
      (scrub (Some [frame_at 5 "c"; frame_at 0 "a"; frame_at 2 "b"])
         (Fin 5) (Fin 3) initial_player) = Some f /\
    In f [frame_at 5 "c"; frame_at 0 "a"; frame_at 2 "b"].
Proof.
  edestruct (current_frame_is_floor
               [frame_at 5 "c"; frame_at 0 "a"; frame_at 2 "b"]
               (Fin 5) (Fin 3) (Fin 0) initial_player)
    as [f [Hf [Hin _]]].
  - discriminate.
  - repeat constructor.
  - left. reflexivity.
  - exists f. split; [exact Hf|exact Hin].
Defined.

(** X2.  [scrub(t)] with a duration [>= 0] and [t] not NaN leaves
    [currentTime] within [[0, duration]]: it is [t] itself when [t] is in
    that range, 0 when [t < 0] and [duration] when [t > duration].  It does
    not touch [isPlaying], [speed] or the tick baseline. *)
Theorem scrub_clamps (frames : option (list ReplayFrame))
  (duration t : number) (s : Player) :
  le (Fin 0) duration = true -> isNaN t = false ->
  in_range duration (scrub frames duration t s) /\
  (lt t (Fin 0) = true ->
   strict_eq (currentTime (scrub frames duration t s)) (Fin 0) = true) /\
  (lt duration t = true ->
   strict_eq (currentTime (scrub frames duration t s)) duration = true) /\
  (le (Fin 0) t = true -> le t duration = true ->
   strict_eq (currentTime (scrub frames duration t s)) t = true) /\
  isPlaying (scrub frames duration t s) = isPlaying s /\
  speed (scrub frames duration t s) = speed s /\
  lastTick (scrub frames duration t s) = lastTick s.
Proof.
  intros Hd Ht.
  destruct (clamp_spec t (Fin 0) duration Ht Hd) as [H1 [H2 [H3 [H4 H5]]]].
  unfold in_range, scrub. cbn [currentTime isPlaying speed lastTick].
  repeat split; assumption.
Qed.

Lemma scrub_clamps_witness :
  strict_eq (currentTime (scrub None (Fin 10) (Fin 999) initial_player))
            (Fin 10) = true.
Proof.
  apply (proj1 (proj2 (proj2
    (scrub_clamps None (Fin 10) (Fin 999) initial_player eq_refl eq_refl)))).
  reflexivity.
Defined.

Lemma compare_integers (q q' : Q) (a b : Z) :
  q == inject_Z a -> q' == inject_Z b ->
  lt (Fin q) (Fin q') = (a <? b)%Z /\ le (Fin q) (Fin q') = (a <=? b)%Z.
Proof.
  intros Ha Hb. simpl. unfold Qlt_bool. split.
  - destruct (a <? b)%Z eqn:E.
    + apply Z.ltb_lt in E. q_prop. rewrite Ha, Hb in H.
      rewrite <- Zle_Qle in H. lia.
    + apply Z.ltb_ge in E. q_prop. rewrite Ha, Hb. now rewrite <- Zle_Qle.
  - destruct (a <=? b)%Z eqn:E.
    + apply Z.leb_le in E. q_prop. rewrite Ha, Hb. now rewrite <- Zle_Qle.
    + apply Z.leb_gt in E. q_prop. rewrite Ha, Hb in H.
      rewrite <- Zle_Qle in H. lia.
Qed.

Lemma clamp_index (i d : Z) (len : nat) :
  (0 < len)%nat ->
  exists q,
    clamp (add (num_of_Z i) (num_of_Z d)) (Fin 0)
          (sub (num_of_nat len) (Fin 1)) = Fin q /\
    q == inject_Z (Z.max 0 (Z.min (Z.of_nat len - 1) (i + d))).
Proof.
  intros Hlen.
  assert (Hv : inject_Z i + inject_Z d == inject_Z (i + d))
    by (now rewrite inject_Z_plus).
  assert (Hhi : inject_Z (Z.of_nat len) + - (1) == inject_Z (Z.of_nat len - 1)).
  { unfold Z.sub. rewrite inject_Z_plus, inject_Z_opp. reflexivity. }
  assert (H0 : 0 == inject_Z 0) by reflexivity.
  unfold add, sub, neg, num_of_nat, num_of_Z, add.
  destruct (clamp_spec (Fin (inject_Z i + inject_Z d)) (Fin 0)
              (Fin (inject_Z (Z.of_nat len) + - (1))) eq_refl)
    as [_ [_ [Hlow [Hhigh Hmid]]]].
  { rewrite (proj2 (compare_integers _ _ _ _ H0 Hhi)). apply Z.leb_le. lia. }
  rewrite (proj1 (compare_integers _ _ _ _ Hv H0)) in Hlow.
  rewrite (proj1 (compare_integers _ _ _ _ Hhi Hv)) in Hhigh.
  rewrite (proj2 (compare_integers _ _ _ _ H0 Hv)) in Hmid.
  rewrite (proj2 (compare_integers _ _ _ _ Hv Hhi)) in Hmid.
  destruct (clamp (Fin (inject_Z i + inject_Z d)) (Fin 0)
              (Fin (inject_Z (Z.of_nat len) + - (1)))) as [| | |q] eqn:Ec.
  1-3: exfalso;
    destruct (Z_lt_le_dec (i + d) 0) as [Hn|Hn];
    [ apply Z.ltb_lt in Hn; specialize (Hlow Hn); discriminate
    | destruct (Z_lt_le_dec (Z.of_nat len - 1) (i + d)) as [Hm|Hm];
      [ apply Z.ltb_lt in Hm; specialize (Hhigh Hm); discriminate
      | apply Z.leb_le in Hn; apply Z.leb_le in Hm;
        specialize (Hmid Hn Hm); discriminate ] ].
  exists q. split; [reflexivity|].
  destruct (Z_lt_le_dec (i + d) 0) as [Hn|Hn].
  - pose proof Hn as Hn'. apply Z.ltb_lt in Hn'. specialize (Hlow Hn').
    simpl in Hlow. q_prop. rewrite Hlow.
    replace (Z.max 0 (Z.min (Z.of_nat len - 1) (i + d))) with 0%Z by lia.
    reflexivity.
  - destruct (Z_lt_le_dec (Z.of_nat len - 1) (i + d)) as [Hm|Hm].
    + pose proof Hm as Hm'. apply Z.ltb_lt in Hm'. specialize (Hhigh Hm').
      simpl in Hhigh. q_prop. rewrite Hhigh, Hhi.
      replace (Z.max 0 (Z.min (Z.of_nat len - 1) (i + d)))
        with (Z.of_nat len - 1)%Z by lia.
      reflexivity.
    + pose proof Hn as Hn'. pose proof Hm as Hm'.
      apply Z.leb_le in Hn'. apply Z.leb_le in Hm'.
      specialize (Hmid Hn' Hm'). simpl in Hmid. q_prop. rewrite Hmid, Hv.
      replace (Z.max 0 (Z.min (Z.of_nat len - 1) (i + d)))
        with (i + d)%Z by lia.
      reflexivity.
Qed.

(** X3.  On an episode with frames, [step(d)] for an integer [d] from an
    integer index [i] moves to index [i + d] brought into [0 .. length - 1],
    shows the frame there and sets [currentTime] to that frame's [t]; it does
    not change [isPlaying]. *)
Theorem step_lands_on_frame (frames : option (list ReplayFrame)) (i d : Z)
  (s : Player) :
  sortedFrames frames <> [] -> currentIndex s = num_of_Z i ->
  exists f,
    nth_error (sortedFrames frames)
      (Z.to_nat (step_target (List.length (sortedFrames frames)) i d))
    = Some f /\
    strict_eq (currentIndex (step frames (num_of_Z d) s))
      (num_of_Z (step_target (List.length (sortedFrames frames)) i d))
    = true /\
    currentFrame frames (step frames (num_of_Z d) s) = Some f /\
    currentTime (step frames (num_of_Z d) s) = Frame.t f /\
    isPlaying (step frames (num_of_Z d) s) = isPlaying s.
Proof.
  intros Hne Hi.
  assert (Hlen : (0 < List.length (sortedFrames frames))%nat).
  { destruct (sortedFrames frames); [congruence|simpl; lia]. }
  destruct (clamp_index i d _ Hlen) as [q [Hq Hk]].
  fold (step_target (List.length (sortedFrames frames)) i d) in Hk.
  set (k := step_target (List.length (sortedFrames frames)) i d) in *.
  assert (Hk0 : (0 <= k)%Z) by (unfold k, step_target; lia).
  assert (Hk1 : (Z.to_nat k < List.length (sortedFrames frames))%nat)
    by (unfold k, step_target; lia).
  destruct (nth_error (sortedFrames frames) (Z.to_nat k)) as [f|] eqn:Hf;
    [|apply nth_error_None in Hf; lia].
  exists f. split; [reflexivity|].
  assert (Hidx : currentIndex (step frames (num_of_Z d) s) = Fin q).
  { unfold step. cbn [currentIndex]. now rewrite Hi. }
  assert (Hat : at_index (sortedFrames frames) (Fin q) = Some f).
  { now rewrite (at_index_int _ _ q k Hk Hk0). }
  split; [|split; [|split]].
  - rewrite Hidx. simpl. now apply Qeq_bool_iff.
  - unfold currentFrame. now rewrite Hidx.
  - unfold step in *. cbn [currentIndex currentTime] in *.
    rewrite Hi in *. rewrite Hq. now rewrite Hat.
  - reflexivity.
Qed.

Lemma step_lands_on_frame_witness :
  exists f,
    currentFrame (Some [frame_at 5 "c"; frame_at 0 "a"; frame_at 2 "b"])
      (step (Some [frame_at 5 "c"; frame_at 0 "a"; frame_at 2 "b"])
         (num_of_Z 7) initial_player) = Some f /\
    Frame.t f = Fin 5.
Proof.
  destruct (step_lands_on_frame
              (Some [frame_at 5 "c"; frame_at 0 "a"; frame_at 2 "b"])
              0 7 initial_player) as [f [Hn [_ [Hc _]]]].
  - discriminate.
  - reflexivity.
  - exists f. split; [exact Hc|]. inversion Hn. reflexivity.
Defined.

Lemma strict_eq_Qeq (p q : Q) : strict_eq (Fin p) (Fin q) = true <-> p == q.
Proof. simpl. apply Qeq_bool_iff. Qed.

Lemma strict_eq_trans (a b c : number) :
  strict_eq a b = true -> strict_eq b c = true -> strict_eq a c = true.
Proof. destruct a, b, c; intros; num_solve. Qed.

Lemma strict_eq_le (a b c : number) :
  strict_eq a b = true -> le b c = le a c /\ lt a c = lt b c.
Proof.
  destruct a, b, c; intros H; simpl in *; try discriminate; split;
    try reflexivity; q_prop; unfold Qlt_bool.
  - destruct (Qle_bool q0 q1) eqn:E1, (Qle_bool q q1) eqn:E2;
      try reflexivity; exfalso; q_prop; lra.
  - destruct (Qle_bool q1 q) eqn:E1, (Qle_bool q1 q0) eqn:E2;
      try reflexivity; exfalso; q_prop; lra.
Qed.

Lemma proposed_value (s : Player) (n : Q) :
  finite_clock s ->
  exists c l sp,
    currentTime s = Fin c /\ baseline s (Fin n) = Fin l /\
    speed_value (speed s) = Fin sp /\ 0 < sp /\
    proposed s (Fin n) = Fin (c + (n + - l) / 1000 * sp).
Proof.
  intros [Hc Hl].
  destruct (speed_value_positive (speed s)) as [sp [Hsp Hpos]].
  destruct (currentTime s) as [| | |c] eqn:Ec; try discriminate.
  assert (Hb : exists l, baseline s (Fin n) = Fin l).
  { unfold baseline. destruct (lastTick_unset s); [now exists n|].
    destruct (lastTick s) as [[| | |l]|]; try discriminate;
      eexists; reflexivity. }
  destruct Hb as [l Hb].
  exists c, l, sp. repeat split; try assumption.
  unfold proposed. rewrite Ec, Hb, Hsp. reflexivity.
Qed.

(** X4.  Pausing and resuming does not make the clock jump: after [pause()]
    and [play()], whatever the time of the last tick before the pause, the
    first animation frame leaves [currentTime] where it was and only records
    its own time as the new baseline. *)
Theorem resume_does_not_jump (frames : option (list ReplayFrame))
  (duration now : number) (s : Player) :
  isFinite (currentTime s) = true -> isFinite now = true ->
  le (Fin 0) (currentTime s) = true -> lt (currentTime s) duration = true ->
  strict_eq
    (currentTime (animation_frame frames duration (pause_and_resume s) now))
    (currentTime s) = true /\
  isPlaying (animation_frame frames duration (pause_and_resume s) now) = true /\
  lastTick (animation_frame frames duration (pause_and_resume s) now)
  = Some now.
Proof.
  intros Hc Hn H0 Hlt.
  destruct now as [| | |n]; try discriminate.
  destruct (currentTime s) as [| | |c] eqn:Ec; try discriminate.
  set (r := pause_and_resume s).
  assert (Hr : finite_clock r) by (split; [cbn; now rewrite Ec|exact I]).
  assert (Hplay : isPlaying r = true) by reflexivity.
  destruct (proposed_value r n Hr) as [c' [l [sp [Hc' [Hb [_ [_ Hp]]]]]]].
  assert (c' = c) by (cbn in Hc'; rewrite Ec in Hc'; now inversion Hc').
  assert (l = n) by (cbn in Hb; now inversion Hb).
  subst c' l.
  rewrite (animation_frame_playing frames duration (Fin n) r Hplay).
  destruct (playback_effect_fields (tick frames duration (Fin n) r))
    as [E1 [E2 [_ E4]]].
  rewrite E1, E2, E4, tick_isPlaying, tick_lastTick, !tick_currentTime, !Hp.
  assert (Hv : strict_eq (Fin (c + (n + - n) / 1000 * sp)) (Fin c) = true).
  { apply strict_eq_Qeq. field. }
  assert (Hd : le (Fin 0) duration = true).
  { apply num_le_trans with (Fin c); [assumption|now apply num_lt_le]. }
  destruct (strict_eq_le _ _ duration Hv) as [Hle Hlt'].
  destruct (strict_eq_le _ _ (Fin 0) Hv) as [_ Hlt0].
  destruct (clamp_spec (Fin (c + (n + - n) / 1000 * sp)) (Fin 0) duration
              eq_refl Hd) as [_ [_ [_ [_ Hmid]]]].
  assert (Hsame : strict_eq
                    (clamp (Fin (c + (n + - n) / 1000 * sp)) (Fin 0) duration)
                    (Fin (c + (n + - n) / 1000 * sp)) = true).
  { apply Hmid.
    - simpl in *. q_prop. assert (c + (n + - n) / 1000 * sp == c) by field.
      lra.
    - rewrite <- Hle. now apply num_lt_le. }
  assert (Hnot : ge (clamp (Fin (c + (n + - n) / 1000 * sp)) (Fin 0) duration)
                   duration = false).
  { unfold ge. apply num_lt_not_le.
    rewrite (proj2 (strict_eq_le _ _ duration Hsame)). rewrite Hlt'.
    exact Hlt. }
  rewrite Hnot, Hplay. split; [|split; reflexivity].
  eapply strict_eq_trans; eassumption.
Qed.

Lemma resume_does_not_jump_witness :
  strict_eq
    (currentTime
       (animation_frame None (Fin 10)
          (pause_and_resume
             {| isPlaying := true; speed := x2; currentTime := Fin 4;
                currentIndex := Fin 0; lastTick := Some (Fin 1000) |})
          (Fin 90000)))
    (Fin 4) = true.
Proof.
  apply (resume_does_not_jump None (Fin 10) (Fin 90000)
           {| isPlaying := true; speed := x2; currentTime := Fin 4;
              currentIndex := Fin 0; lastTick := Some (Fin 1000) |});
    reflexivity.
Defined.

(** X5.  A tick never rewinds the clock: when the tick's time is not before
    its baseline and the clock is within [[0, duration]], [currentTime] after
    the tick is [>=] what it was. *)
Theorem tick_never_rewinds (frames : option (list ReplayFrame))
  (duration now : number) (s : Player) :
  finite_clock s -> in_range duration s -> isFinite now = true ->
  le (baseline s now) now = true ->
  le (currentTime s) (currentTime (tick frames duration now s)) = true.
Proof.
  intros Hs [H0 Hd] Hn Hb.
  destruct now as [| | |n]; try discriminate.
  destruct (proposed_value s n Hs) as [c [l [sp [Hc [Hl [_ [Hsp Hp]]]]]]].
  rewrite tick_currentTime, Hp. rewrite Hc in *. rewrite Hl in Hb.
  assert (Hdur : le (Fin 0) duration = true)
    by (apply num_le_trans with (Fin c); assumption).
  assert (Hv : c <= c + (n + - l) / 1000 * sp).
  { simpl in Hb. q_prop.
    assert (0 <= (n + - l) / 1000) by (apply Qle_shift_div_l; lra).
    assert (0 <= (n + - l) / 1000 * sp) by (apply Qmult_le_0_compat; lra).
    lra. }
  destruct (clamp_cases (c + (n + - l) / 1000 * sp) duration Hdur)
    as [[-> _]|[[-> _]|[-> [Hneg _]]]].
  - exact Hd.
  - simpl. now apply Qle_bool_iff.
  - simpl in *. q_prop. lra.
Qed.

Lemma tick_never_rewinds_witness :
  le (Fin 4)
     (currentTime
        (tick None (Fin 10) (Fin 1500)
           {| isPlaying := true; speed := x2; currentTime := Fin 4;
              currentIndex := Fin 0; lastTick := Some (Fin 1000) |}))
  = true.
Proof.
  apply (tick_never_rewinds None (Fin 10) (Fin 1500)
           {| isPlaying := true; speed := x2; currentTime := Fin 4;
              currentIndex := Fin 0; lastTick := Some (Fin 1000) |}).
  - split; reflexivity.
  - split; reflexivity.
  - reflexivity.
  - reflexivity.
Defined.

(* ================================================================= *)
(** ** The validators of the replay store's responses *)

Ltac open_result H :=
  repeat match type of H with
         | bind ?e _ = Ok _ =>
             let E := fresh "E" in
             destruct e eqn:E; cbn [bind] in H; [|discriminate H]
         end.

Lemma assertNumber_Ok (v : raw) (name : string) (n : number) :
  assertNumber v name = Ok n <-> v = RNum n /\ isNaN n = false.
Proof.
  unfold assertNumber. split.
  - destruct v; try discriminate. destruct (isNaN n0) eqn:E; [discriminate|].
    intros H; inversion H; subst. now split.
  - intros [-> ->]. reflexivity.
Qed.

Lemma assertString_Ok (v : raw) (name s : string) :
  assertString v name = Ok s <-> v = RStr s.
Proof.
  unfold assertString. split.
  - destruct v; try discriminate. intros H; now inversion H.
  - intros ->. reflexivity.
Qed.

Lemma validateReplayFrame_ok (v : raw) (f : ReplayFrame) :
  validateReplayFrame v = Ok f -> frame_ok f = true.
Proof.
  unfold validateReplayFrame, assertObject.
  destruct v; try discriminate. cbn [bind].
  destruct (get fields "system_signals"); try discriminate.
  intros H. open_result H. apply assertNumber_Ok in E. destruct E as [_ En].
  inversion H; subst; clear H. unfold frame_ok, object_or_absent.
  cbn [Frame.t Frame.visual Frame.system_state Frame.meta].
  rewrite En.
  destruct (is_object_like (get fields "visual")) eqn:Ev;
  destruct (is_object_like (get fields "system_state")) eqn:Es;
  destruct (is_object_like (get fields "meta")) eqn:Em;
  rewrite ?Ev, ?Es, ?Em; reflexivity.
Qed.

Lemma validateReplayFrame_of (f : ReplayFrame) :
  frame_ok f = true -> validateReplayFrame (of_frame f) = Ok f.
Proof.
  destruct f as [t input signals state visual meta].
  unfold frame_ok, object_or_absent.
  cbn [Frame.t Frame.visual Frame.system_state Frame.meta]. intros H.
  apply andb_true_iff in H. destruct H as [H Hm].
  apply andb_true_iff in H. destruct H as [H Hs].
  apply andb_true_iff in H. destruct H as [Ht Hv].
  apply negb_true_iff in Ht.
  unfold validateReplayFrame, of_frame, assertObject, assertNumber.
  cbn [bind get String.eqb Ascii.eqb Bool.eqb Frame.t Frame.input_text
       Frame.system_signals Frame.system_state Frame.visual Frame.meta].
  rewrite Ht, Hv. cbn [bind].
  destruct input, state, meta; cbn [of_optional string_or_none];
    rewrite ?Hs, ?Hm; reflexivity.
Qed.

Lemma mapM_frames_ok (items : list raw) :
  forall fs,
    mapM validateReplayFrame items = Ok fs -> forallb frame_ok fs = true.
Proof.
  induction items as [|v items IH]; intros fs H; cbn [mapM] in H.
  - inversion H. reflexivity.
  - open_result H. inversion H; subst. cbn [forallb].
    rewrite (validateReplayFrame_ok _ _ E), (IH _ eq_refl). reflexivity.
Qed.

Lemma mapM_frames_of (fs : list ReplayFrame) :
  forallb frame_ok fs = true ->
  mapM validateReplayFrame (map of_frame fs) = Ok fs.
Proof.
  induction fs as [|f fs IH]; intros H; [reflexivity|].
  cbn [forallb] in H. apply andb_true_iff in H. destruct H as [Hf Hfs].
  cbn [map mapM]. rewrite (validateReplayFrame_of f Hf), (IH Hfs).
  reflexivity.
Qed.



Lemma mapM_fails (items : list raw) (v : raw) (message : string) :
  In v items -> validateReplayFrame v = Err message ->
  exists m, mapM validateReplayFrame items = Err m.
Proof.
  induction items as [|w items IH]; intros Hin Hv; [destruct Hin|].
  cbn [mapM]. destruct (validateReplayFrame w) as [f|m] eqn:Ew;
    cbn [bind]; [|now exists m].
  destruct Hin as [->|Hin]; [congruence|].
  destruct (IH Hin Hv) as [m ->]. now exists m.
Qed.

(** X7.  The frames of a response: when [frames] is missing or is not an
    array the episode validates with no frames at all; when it is an array,
    one item that is not a valid frame makes the whole episode invalid. *)
Theorem validateEpisode_frames (obj : list (string * raw)) :
  ((forall items, get obj "frames" <> RArr items) ->
   forall e, validateEpisode (RObj obj) = Ok e -> Episode.frames e = []) /\
  (forall items v message,
     get obj "frames" = RArr items -> In v items ->
     validateReplayFrame v = Err message ->
     exists m, validateEpisode (RObj obj) = Err m).
Proof.
  split.
  - intros Hno e. unfold validateEpisode, assertObject. cbn [bind].
    intros H. open_result H. inversion H; subst; clear H.
    cbn [Episode.frames].
    destruct (get obj "frames"); try (now inversion E).
    exfalso. now apply (Hno items).
  - intros items v message Hf Hin Hv.
    unfold validateEpisode, assertObject. cbn [bind]. rewrite Hf.
    destruct (mapM_fails items v message Hin Hv) as [m ->].
    now exists m.
Qed.

Lemma validateEpisode_frames_witness :
  exists m,
    validateEpisode
      (RObj [("episode_id", RStr "A"); ("created_at", RStr "c");
             ("updated_at", RStr "u"); ("duration", RNum (Fin 1));
             ("version", RStr "1");
             ("frames", RArr [raw_frame 0; RObj [("t", RNum (Fin 1))]])])
    = Err m.
Proof.
  apply (proj2 (validateEpisode_frames _)
           [raw_frame 0; RObj [("t", RNum (Fin 1))]]
           (RObj [("t", RNum (Fin 1))])
           "Invalid system_signals: expected object").
  - reflexivity.
  - right. left. reflexivity.
  - reflexivity.
Defined.

(* ================================================================= *)
(** ** Loading twice, and the duration the player gets *)

Lemma sort_frames_ascending_id (frames : list ReplayFrame) :
  Forall timed frames -> ascending frames -> sort_frames frames = frames.
Proof.
  intros Ht Hs. symmetry.
  apply stable_sort_is_sort_frames; try assumption; reflexivity.
Qed.

Lemma sort_frames_idempotent (frames : list ReplayFrame) :
  Forall timed frames ->
  sort_frames (sort_frames frames) = sort_frames frames.
Proof.
  intros Ht. apply sort_frames_ascending_id.
  - now apply sort_frames_timed.
  - now apply sort_frames_ascending.
Qed.

Lemma fallback_cases (L : number) :
  let D := if gt L (Fin 0) then L else Fin 0 in
  (if gt (if usable_duration D then D else L) (Fin 0)
   then (if usable_duration D then D else L) else Fin 0) = D.
Proof.
  unfold usable_duration, gt.
  destruct L as [| | |q]; try reflexivity. simpl.
  destruct (Qlt_bool 0 q) eqn:E; simpl; rewrite ?E; simpl; rewrite ?E;
    reflexivity.
Qed.

(** X8.  Loading is idempotent: what [useReplayEpisode] stores for a
    response, loaded once more through the same code, is stored unchanged
    (frames already sorted, duration already reconciled). *)
Theorem loaded_episode_idempotent (data : ReplayEpisode) :
  Forall timed (Episode.frames data) ->
  loaded_episode (loaded_episode data) = loaded_episode data.
Proof.
  intros Ht.
  assert (Hd : Episode.duration (loaded_episode (loaded_episode data))
               = Episode.duration (loaded_episode data)).
  { destruct (usable_duration (Episode.duration (loaded_episode data)))
      eqn:Eu.
    - now apply loaded_duration_usable.
    - rewrite (loaded_duration_fallback _ Eu).
      change (Episode.frames (loaded_episode data))
        with (sort_frames (Episode.frames data)).
      rewrite (sort_frames_idempotent _ Ht).
      destruct (usable_duration (Episode.duration data)) eqn:Eu0.
      + rewrite (loaded_duration_usable _ Eu0) in Eu. congruence.
      + rewrite (loaded_duration_fallback _ Eu0) in *.
        pose proof (fallback_cases (lastT (sort_frames (Episode.frames data))))
          as Hc.
        cbv zeta in Hc. rewrite Eu in Hc. exact Hc. }
  unfold loaded_episode at 1. fold (loaded_episode data).
  change (Episode.frames (loaded_episode data))
    with (sort_frames (Episode.frames data)).
  rewrite (sort_frames_idempotent _ Ht).
  unfold loaded_episode at 1 in Hd. cbn [Episode.duration] in Hd.
  change (Episode.frames (loaded_episode data))
    with (sort_frames (Episode.frames data)) in Hd.
  rewrite (sort_frames_idempotent _ Ht) in Hd.
  rewrite Hd. unfold loaded_episode. cbn. reflexivity.
Qed.

Lemma loaded_episode_idempotent_witness :
  loaded_episode
    (loaded_episode
       {| Episode.episode_id := "A"; Episode.created_at := "c";
          Episode.updated_at := "u"; Episode.title := None;
          Episode.frames := [frame_at 2 "b"; frame_at 0 "a"];
          Episode.duration := Fin (-1); Episode.version := "1" |})
  = loaded_episode
      {| Episode.episode_id := "A"; Episode.created_at := "c";
         Episode.updated_at := "u"; Episode.title := None;
         Episode.frames := [frame_at 2 "b"; frame_at 0 "a"];
         Episode.duration := Fin (-1); Episode.version := "1" |}.
Proof.
  apply loaded_episode_idempotent. repeat constructor.
Defined.

Lemma skipn_nth (A : Type) (l : list A) :
  forall n,
    skipn n l =
    match nth_error l n with
    | Some a => a :: skipn (S n) l
    | None => []
    end.
Proof.
  induction l as [|a l IH]; intros n.
  - destruct n; reflexivity.
  - destruct n as [|n]; [reflexivity|]. simpl. apply IH.
Qed.

Lemma last_frame_t_lastT (e : ReplayEpisode) :
  last_frame_t (Some e) = lastT (Episode.frames e).
Proof.
  unfold last_frame_t, slice_last, lastT.
  rewrite at_index_pred_length, skipn_nth.
  destruct (Episode.frames e) as [|f l] eqn:E; [reflexivity|].
  destruct (nth_error (f :: l) (List.length (f :: l) - 1)); reflexivity.
Qed.

Lemma lastT_not_nan (frames : list ReplayFrame) :
  Forall timed frames -> isNaN (lastT frames) = false.
Proof.
  intros Ht. unfold lastT. rewrite at_index_pred_length.
  destruct frames as [|f l]; [reflexivity|].
  destruct (nth_error (f :: l) (List.length (f :: l) - 1)) as [g|] eqn:E;
    [|reflexivity].
  rewrite Forall_forall in Ht. apply Ht. eapply nth_error_In; eassumption.
Qed.

Lemma Math_max_zero (b : number) :
  isNaN b = false ->
  le (Fin 0) (Math_max (Fin 0) b) = true /\
  Math_max (Fin 0) b = if lt (Fin 0) b then b else Fin 0.
Proof. destruct b; intros H; try discriminate; split; try reflexivity.
  simpl. unfold Qlt_bool. destruct (Qle_bool q 0) eqn:E; simpl.
  - reflexivity.
  - q_prop. lra.
Qed.

Lemma loaded_duration_cases (data : ReplayEpisode) :
  Forall timed (Episode.frames data) ->
  Episode.duration (loaded_episode data) = Fin 0 \/
  (lt (Fin 0) (Episode.duration (loaded_episode data)) = true /\
   (usable_duration (Episode.duration data) = true \/
    Episode.duration (loaded_episode data)
    = lastT (sort_frames (Episode.frames data)))).
Proof.
  intros Ht.
  destruct (usable_duration (Episode.duration data)) eqn:Eu.
  - right. rewrite (loaded_duration_usable _ Eu). split; [|now left].
    unfold usable_duration in Eu. apply andb_true_iff in Eu. apply Eu.
  - rewrite (loaded_duration_fallback _ Eu). unfold gt.
    destruct (lt (Fin 0) (lastT (sort_frames (Episode.frames data))))
      eqn:Eg; [right|left]; auto.
Qed.

Lemma replayDuration_loaded (data : ReplayEpisode) :
  Forall timed (Episode.frames data) ->
  replayDuration (Some (loaded_episode data))
  = Episode.duration (loaded_episode data).
Proof.
  intros Ht. unfold replayDuration. rewrite last_frame_t_lastT.
  change (Episode.frames (loaded_episode data))
    with (sort_frames (Episode.frames data)).
  pose proof (lastT_not_nan _ (sort_frames_timed Ht)) as HL.
  destruct (Math_max_zero _ HL) as [_ HmaxL].
  destruct (usable_duration (Episode.duration data)) eqn:Eu.
  - rewrite (loaded_duration_usable _ Eu).
    unfold usable_duration in Eu. apply andb_true_iff in Eu.
    destruct Eu as [Ef Eg].
    destruct (Episode.duration data) as [| | |d]; try discriminate.
    unfold gt in Eg. simpl in Eg.
    assert (Ez : Qeq_bool d 0 = false).
    { destruct (Qeq_bool d 0) eqn:Ez; [|reflexivity].
      exfalso. q_prop. lra. }
    cbn [isFinite truthy andb]. rewrite Ez. cbn [negb].
    unfold Math_max. simpl lt. now rewrite Eg.
  - rewrite (loaded_duration_fallback _ Eu). unfold gt.
    destruct (lt (Fin 0) (lastT (sort_frames (Episode.frames data))))
      eqn:Eg.
    + rewrite HmaxL. now destruct (isFinite _ && truthy _).
    + cbn [isFinite truthy andb]. cbn. exact HmaxL.
Qed.

(** X9.  The duration [AppShell] hands to the player and to [ReplayBar] is
    never NaN and never negative, for no episode and for any episode whose
    frames have a [t] other than NaN; for an episode stored by
    [useReplayEpisode] it is that episode's duration. *)
Theorem replayDuration_of_session (episode : option ReplayEpisode)
  (data : ReplayEpisode) :
  ((forall e, episode = Some e -> Forall timed (Episode.frames e)) ->
   le (Fin 0) (replayDuration episode) = true) /\
  (Forall timed (Episode.frames data) ->
   replayDuration (Some (loaded_episode data))
   = Episode.duration (loaded_episode data)).
Proof.
  split; [|apply replayDuration_loaded].
  intros Ht. destruct episode as [e|]; [|reflexivity].
  unfold replayDuration.
  destruct (isFinite (Episode.duration e) && truthy (Episode.duration e))
    eqn:E.
  - apply andb_true_iff in E. destruct E as [E _].
    apply Math_max_zero. destruct (Episode.duration e); now try discriminate.
  - apply Math_max_zero. rewrite last_frame_t_lastT.
    apply lastT_not_nan. now apply Ht.
Qed.

Lemma replayDuration_of_session_witness :
  le (Fin 0)
     (replayDuration
        (Some {| Episode.episode_id := "A"; Episode.created_at := "c";
                 Episode.updated_at := "u"; Episode.title := None;
                 Episode.frames := [frame_at (-2) "b"];
                 Episode.duration := NaN; Episode.version := "1" |}))
  = true.
Proof.
  apply (proj1 (replayDuration_of_session _
                  {| Episode.episode_id := "A"; Episode.created_at := "c";
                     Episode.updated_at := "u"; Episode.title := None;
                     Episode.frames := []; Episode.duration := Fin 0;
                     Episode.version := "1" |})).
  intros e H. inversion H; subst. repeat constructor.
Defined.

(** X10.  [ReplayBar] enables its transport controls exactly when it is told
    there are frames, the duration is finite and positive, and nothing is
    loading; and its slider's value never exceeds the slider's maximum. *)
Theorem playback_controls_enabled (duration currentTime : number)
  (hasFrames loading : option bool) :
  (disablePlayback duration hasFrames loading = false <->
   hasFrames = Some true /\ isFinite duration = true /\
   gt duration (Fin 0) = true /\ to_boolean loading = false) /\
  (isNaN currentTime = false ->
   le (slider_value duration currentTime) (slider_max duration) = true).
Proof.
  split.
  - unfold disablePlayback, safeDuration.
    rewrite !orb_false_iff, negb_false_iff. split.
    + intros [[Hf Hd] Hl]. split.
      { destruct hasFrames as [[|]|]; now try discriminate. }
      destruct (isFinite duration && gt duration (Fin 0)) eqn:E.
      * apply andb_true_iff in E. tauto.
      * discriminate.
    + intros [-> [Hf [Hg Hl]]]. rewrite Hf, Hg. cbn [andb].
      repeat split; try assumption.
      now apply num_lt_not_le.
  - intros Hc. unfold slider_value, slider_max, safeDuration, Math_min.
    destruct (isFinite duration && gt duration (Fin 0)) eqn:E.
    + apply andb_true_iff in E. destruct E as [Ef _].
      destruct duration as [| | |d]; try discriminate.
      destruct currentTime as [| | |c]; try discriminate; simpl;
        split_cmp; try reflexivity; q_prop; lra.
    + destruct currentTime as [| | |c]; try discriminate; simpl;
        split_cmp; try reflexivity; q_prop; lra.
Qed.

Lemma playback_controls_enabled_witness :
  le (slider_value (Fin 10) (Fin 12)) (slider_max (Fin 10)) = true.
Proof.
  apply (proj2 (playback_controls_enabled (Fin 10) (Fin 12) None None)).
  reflexivity.
Defined.

Lemma length_positive (n : nat) :
  gt (num_of_nat n) (Fin 0) = match n with O => false | S _ => true end.
Proof.
  unfold gt, num_of_nat, num_of_Z, lt, Qlt_bool.
  destruct n as [|n]; [reflexivity|].
  destruct (Qle_bool (inject_Z (Z.of_nat (S n))) 0) eqn:E; [|reflexivity].
  exfalso. q_prop. change 0 with (inject_Z 0) in E.
  rewrite <- Zle_Qle in E. lia.
Qed.

Lemma hasReplayFrames_loaded (data : ReplayEpisode) :
  hasReplayFrames (Some (loaded_episode data))
  = match Episode.frames data with [] => false | _ :: _ => true end.
Proof.
  unfold hasReplayFrames.
  change (Episode.frames (loaded_episode data))
    with (sort_frames (Episode.frames data)).
  rewrite length_positive.
  rewrite <- (Permutation_length (sort_frames_permutation (Episode.frames data))).
  now destruct (Episode.frames data).
Qed.

Lemma safeDuration_positive (d : number) :
  le (safeDuration d) (Fin 0) = negb (usable_duration d).
Proof.
  unfold safeDuration, usable_duration.
  destruct (isFinite d && gt d (Fin 0)) eqn:E; [|reflexivity].
  apply andb_true_iff in E. destruct E as [_ E].
  cbn [negb]. now apply num_lt_not_le.
Qed.



Lemma clamp_to_end (d : number) :
  d = Fin 0 \/ lt (Fin 0) d = true ->
  clamp (or_else d (Fin 0)) (Fin 0) d = d.
Proof.
  intros [-> | H]; [reflexivity|].
  destruct d as [| | |q]; try discriminate; [reflexivity|].
  simpl in H. unfold clamp, Math_min, Math_max, or_else, truthy, lt.
  split_cmp; try reflexivity; exfalso; q_prop; lra.
Qed.

Lemma clamp_to_start (d : number) :
  d = Fin 0 \/ lt (Fin 0) d = true ->
  clamp (Fin 0) (Fin 0) d = Fin 0.
Proof.
  intros [-> | H]; [reflexivity|].
  destruct d as [| | |q]; try discriminate; [reflexivity|].
  simpl in H. unfold clamp, Math_min, Math_max, lt.
  split_cmp; try reflexivity; exfalso; q_prop; lra.
Qed.

(** X12.  In replay mode, when an episode stored by [useReplayEpisode]
    arrives under an id the shell has not handled, the effect starts the
    player at time 0 and playing if the load was requested with
    [behavior_start]; otherwise it parks the player, paused, at the
    episode's duration.  It clears the requested behaviour, and a second run
    for the same episode changes nothing. *)
Theorem replay_loaded_effect_positions (data : ReplayEpisode) (sh : Shell)
  (p : Player) :
  Forall timed (Episode.frames data) ->
  viewMode sh = view_replay ->
  same_id (lastReplayId sh) (Some (Episode.episode_id data)) = false ->
  let e := loaded_episode data in
  let st := replay_loaded_effect (Some e) (sh, p) in
  (replayLoadBehavior sh = Some behavior_start ->
   currentTime (snd st) = Fin 0 /\ isPlaying (snd st) = true) /\
  (replayLoadBehavior sh <> Some behavior_start ->
   currentTime (snd st) = Episode.duration e /\ isPlaying (snd st) = false) /\
  replayLoadBehavior (fst st) = None /\
  replay_loaded_effect (Some e) st = st.
Proof.
  intros Ht Hmode Hid e st.
  assert (Hd : Episode.duration e = Fin 0 \/
               lt (Fin 0) (Episode.duration e) = true).
  { destruct (loaded_duration_cases data Ht) as [H | [H _]]; auto. }
  assert (Hst : st =
    ({| viewMode := view_replay; replayLoadBehavior := None;
        focusSource := focus_replay;
        lastReplayId := Some (Episode.episode_id data) |},
     match replayLoadBehavior sh with
     | Some behavior_start =>
         play (scrub (Some (Episode.frames e)) (Episode.duration e) (Fin 0) p)
     | _ =>
         scrub (Some (Episode.frames e)) (Episode.duration e)
           (or_else (Episode.duration e) (Fin 0)) (pause p)
     end)).
  { unfold st, replay_loaded_effect. rewrite Hmode.
    change (Episode.episode_id e) with (Episode.episode_id data).
    rewrite Hid. unfold e. rewrite (replayDuration_loaded _ Ht). reflexivity. }
  rewrite Hst. cbn [fst snd]. repeat split.
  - rewrite H. cbn [play scrub currentTime]. now apply clamp_to_start.
  - now rewrite H.
  - destruct (replayLoadBehavior sh) as [[|]|]; try (now elim H);
      cbn [scrub currentTime]; now apply clamp_to_end.
  - destruct (replayLoadBehavior sh) as [[|]|]; try (now elim H); reflexivity.
  - unfold replay_loaded_effect. cbn [viewMode lastReplayId same_id].
    change (Episode.episode_id e) with (Episode.episode_id data).
    now rewrite String.eqb_refl.
Qed.

Lemma replay_loaded_effect_positions_witness :
  currentTime
    (snd (replay_loaded_effect
            (Some (loaded_episode
                     {| Episode.episode_id := "A"; Episode.created_at := "c";
                        Episode.updated_at := "u"; Episode.title := None;
                        Episode.frames := [frame_at 3 "b"; frame_at 1 "a"];
                        Episode.duration := NaN; Episode.version := "1" |}))
            ({| viewMode := view_replay;
                replayLoadBehavior := Some behavior_end;
                focusSource := focus_user; lastReplayId := None |},
             initial_player)))
  = Fin 3.
Proof.
  refine (proj1 (proj1 (proj2
    (replay_loaded_effect_positions
       {| Episode.episode_id := "A"; Episode.created_at := "c";
          Episode.updated_at := "u"; Episode.title := None;
          Episode.frames := [frame_at 3 "b"; frame_at 1 "a"];
          Episode.duration := NaN; Episode.version := "1" |}
       {| viewMode := view_replay;
          replayLoadBehavior := Some behavior_end;
          focusSource := focus_user; lastReplayId := None |}
       initial_player _ eq_refl eq_refl)) _)).
  - repeat constructor.
  - discriminate.
Defined.

Lemma forallb_flat_map_each (A B : Type) (p : B -> bool) (f : A -> list B)
  (l : list A) :
  forallb p (flat_map f l) = forallb (fun a => forallb p (f a)) l.
Proof.
  induction l as [|a l IH]; cbn [flat_map forallb]; [reflexivity|].
  now rewrite forallb_app, IH.
Qed.

Lemma forallb_map_from (A : Type) (P Q : A -> bool) (g : A -> A)
  (l : list A) :
  (forall a, P a = true -> Q (g a) = true) ->
  forallb P l = true -> forallb Q (map g l) = true.
Proof.
  intros Hpq. induction l as [|a l IH]; [reflexivity|].
  cbn [forallb map]. intros H. apply andb_true_iff in H.
  destruct H as [Ha Hl]. now rewrite (Hpq a Ha), (IH Hl).
Qed.

Lemma clamp01_unit (b : bool) (n : number) :
  zod_number b n = true -> unit_interval (clamp01 n) = true.
Proof.
  intros H. apply zod_number_not_nan in H.
  destruct (clamp_spec n (Fin 0) (Fin 1) H eq_refl) as [Hlo [Hhi _]].
  unfold unit_interval, clamp01. now rewrite Hlo, Hhi.
Qed.

Lemma clamp_scale_range (b : bool) (n : number) :
  zod_number b n = true ->
  scale_in_range (clamp n (Fin (1 # 10)) (Fin 5)) = true.
Proof.
  intros H. apply zod_number_not_nan in H.
  destruct (clamp_spec n (Fin (1 # 10)) (Fin 5) H eq_refl) as [Hlo [Hhi _]].
  unfold scale_in_range. now rewrite Hlo, Hhi.
Qed.

Lemma floor_radius_range (n : number) :
  le (Fin (1 # 100)) (floor_radius n) = true.
Proof.
  unfold floor_radius, Math_max, or_else, truthy, lt, le.
  destruct n as [| | |q]; try reflexivity.
  split_cmp; try reflexivity; exfalso; q_prop; lra.
Qed.

Lemma floor_speed_range (n : number) : le (Fin 0) (floor_speed n) = true.
Proof.
  unfold floor_speed, Math_max, or_else, truthy, lt, le.
  destruct n as [| | |q]; try reflexivity.
  split_cmp; try reflexivity; exfalso; q_prop; lra.
Qed.

Ltac split_admitted H :=
  cbn [forallb app] in H;
  repeat (let Hn := fresh "Hn" in
          apply andb_true_iff in H; destruct H as [Hn H]).

Ltac close_ranges b :=
  repeat first
    [ rewrite (clamp01_unit b) by assumption
    | rewrite (clamp_scale_range b) by assumption
    | rewrite floor_radius_range
    | rewrite floor_speed_range ];
  reflexivity.

Section Ranges.
Variable b : bool.

Lemma normalizeNode_in_range (n : VisualNode) :
  forallb (zod_number b) (node_numbers n) = true ->
  node_in_range (normalizeNode n) = true.
Proof.
  destruct n as [id shape [[x y] z] color i o [s|]];
    unfold node_numbers, node_in_range, normalizeNode;
    cbn [Node.pos Node.intensity Node.opacity Node.scale vec3_numbers
         optional_number optional_in];
    intros H; split_admitted H; close_ranges b.
Qed.

Lemma normalizeLoop_in_range (l : VisualLoop) :
  forallb (zod_number b) (loop_numbers l) = true ->
  loop_in_range (normalizeLoop l) = true.
Proof.
  destruct l as [id ty [[x y] z] r i fs [bn|] [dl|]];
    unfold loop_numbers, loop_in_range, normalizeLoop;
    cbn [Loop.center Loop.radius Loop.intensity Loop.flowSpeed
         Loop.bottleneck Loop.delay vec3_numbers optional_number
         optional_in option_map];
    fold (floor_radius r); fold (floor_speed fs);
    intros H; split_admitted H; close_ranges b.
Qed.

Lemma normalizeLever_in_range (l : VisualLever) :
  forallb (zod_number b) (lever_numbers l) = true ->
  lever_in_range (normalizeLever l) = true.
Proof.
  destruct l as [id target [[x y] z] s];
    unfold lever_numbers, lever_in_range, normalizeLever;
    cbn [Lever.pos Lever.strength vec3_numbers];
    intros H; split_admitted H; close_ranges b.
Qed.

Lemma normalizeFlow_in_range (f : VisualFlow) :
  forallb (zod_number b) (flow_numbers f) = true ->
  flow_in_range (normalizeFlow f) = true.
Proof.
  destruct f as [id from to ty s [i|] color];
    unfold flow_numbers, flow_in_range, normalizeFlow;
    cbn [Flow.speed Flow.intensity optional_number optional_in option_map];
    fold (floor_speed s);
    intros H; split_admitted H; close_ranges b.
Qed.

Lemma normalizeField_in_range (f : VisualField) :
  forallb (zod_number b) (field_numbers f) = true ->
  field_in_range (normalizeField f) = true.
Proof.
  destruct f as [c d n];
    unfold field_numbers, field_in_range, normalizeField;
    cbn [Field.chaos Field.density Field.noiseAmp];
    intros H; split_admitted H; close_ranges b.
Qed.

Lemma normalized_in_range (d : VisualState) :
  forallb (zod_number b) (state_numbers d) = true ->
  state_in_range (normalized d) = true.
Proof.
  destruct d as [t focus nodes loops levers flows field].
  unfold state_numbers, state_in_range, normalized.
  cbn [State.t State.focus State.nodes State.loops State.levers State.flows
       State.field].
  rewrite !forallb_app, !forallb_flat_map_each. intros H.
  apply andb_true_iff in H. destruct H as [_ H].
  apply andb_true_iff in H. destruct H as [Hnodes H].
  apply andb_true_iff in H. destruct H as [Hloops H].
  apply andb_true_iff in H. destruct H as [Hlevers H].
  apply andb_true_iff in H. destruct H as [Hflows Hfield].
  rewrite (forallb_map_from _ _ _ _ _ normalizeNode_in_range Hnodes).
  rewrite (forallb_map_from _ _ _ _ _ normalizeLoop_in_range Hloops).
  rewrite (forallb_map_from _ _ _ _ _ normalizeLever_in_range Hlevers).
  cbn [andb].
  destruct flows as [fs|]; cbn [option_map].
  - rewrite forallb_flat_map_each in Hflows.
    rewrite (forallb_map_from _ _ _ _ _ normalizeFlow_in_range Hflows).
    destruct field as [f|]; cbn [option_map andb]; [|reflexivity].
    now apply normalizeField_in_range.
  - destruct field as [f|]; cbn [option_map andb]; [|reflexivity].
    now apply normalizeField_in_range.
Qed.
End Ranges.

(** X13.  Whatever [parseVisualState] accepts, the state it returns is in
    range: every intensity, opacity, strength, bottleneck, delay and field
    value lies in [0, 1], every node scale in [0.1, 5], every loop radius is
    at least 0.01, and every flow speed is at least 0. *)
Theorem parsed_state_in_range (infinite_ok : bool) (input : raw)
  (d : VisualState) :
  parseVisualState infinite_ok input = ok_true d ->
  state_in_range d = true.
Proof.
  intros H. destruct (parseVisualState_ok _ _ _ H) as [shape [_ [Hn ->]]].
  now apply (normalized_in_range infinite_ok).
Qed.

Lemma parsed_state_in_range_witness :
  state_in_range
    {| State.t := None; State.focus := None;
       State.nodes :=
         [{| Node.id := "n1"; Node.shape := box;
             Node.pos := (PosInf, Fin 1, Fin (-3));
             Node.color := "#ff0000"; Node.intensity := Fin 1;
             Node.opacity := Fin 0; Node.scale := None |}];
       State.loops := []; State.levers := [];
       State.flows := None; State.field := None |} = true.
Proof.
  apply (parsed_state_in_range true (payload_with PosInf)).
  reflexivity.
Defined.

Lemma each_length (A : Type) (s : schema A) :
  forall items l, each s items = Some l -> List.length l = List.length items.
Proof.
  induction items as [|v items IH]; intros l H; cbn [each] in H.
  - inversion H; reflexivity.
  - open_chain H. cbn [List.length]. now rewrite (IH _ eq_refl).
Qed.

Lemma each_rejects (A : Type) (s : schema A) (v : raw) :
  s v = None -> forall items, In v items -> each s items = None.
Proof.
  intros Hv. induction items as [|w items IH]; intros Hin; [now elim Hin|].
  cbn [each]. destruct Hin as [-> | Hin].
  - now rewrite Hv.
  - rewrite (IH Hin). now destruct (s w).
Qed.

(** X14.  The arrays of a payload are taken whole or not at all: one node,
    loop or lever that its schema refuses makes [parseVisualState] refuse the
    payload, and an accepted payload comes back with as many nodes, loops
    and levers as it had. *)
Theorem arrays_whole_or_refused (infinite_ok : bool)
  (o : list (string * raw)) (nodes loops levers : list raw) :
  get o "nodes" = RArr nodes ->
  get o "loops" = RArr loops ->
  get o "levers" = RArr levers ->
  ((exists v, In v nodes /\ nodeSchema (zod_number infinite_ok) v = None) \/
   (exists v, In v loops /\ loopSchema (zod_number infinite_ok) v = None) \/
   (exists v, In v levers /\ leverSchema (zod_number infinite_ok) v = None) ->
   parseVisualState infinite_ok (RObj o) = ok_false) /\
  (forall d,
     parseVisualState infinite_ok (RObj o) = ok_true d ->
     List.length (State.nodes d) = List.length nodes /\
     List.length (State.loops d) = List.length loops /\
     List.length (State.levers d) = List.length levers).
Proof.
  intros Hnodes Hloops Hlevers. unfold parseVisualState, visualStateSchema.
  rewrite Hnodes, Hloops, Hlevers. cbn [z_array]. split.
  - intros H.
    destruct (z_optional (z_number (zod_number infinite_ok)) (get o "t"));
      [|reflexivity].
    destruct (z_optional z_string (get o "focus")); [|reflexivity].
    cbn [and_then].
    destruct H as [[v [Hin Hv]] | [[v [Hin Hv]] | [v [Hin Hv]]]].
    + now rewrite (each_rejects _ _ _ Hv _ Hin).
    + rewrite (each_rejects _ _ _ Hv _ Hin).
      now destruct (each (nodeSchema (zod_number infinite_ok)) nodes).
    + rewrite (each_rejects _ _ _ Hv _ Hin).
      destruct (each (nodeSchema (zod_number infinite_ok)) nodes);
        [|reflexivity].
      now destruct (each (loopSchema (zod_number infinite_ok)) loops).
  - intros d.
    destruct (_ <~ z_optional (z_number (zod_number infinite_ok)) (get o "t") ;; _)
      as [data|] eqn:E; [|discriminate].
    intros H. inversion H; subst; clear H. open_chain E.
    cbn [State.nodes State.loops State.levers]. rewrite !length_map.
    repeat split; eapply each_length; eassumption.
Qed.

Lemma arrays_whole_or_refused_witness :
  parseVisualState false
    (RObj [("nodes", RArr [RObj [("id", RStr "")]]);
           ("loops", RArr []); ("levers", RArr [])]) = ok_false.
Proof.
  apply (proj1 (arrays_whole_or_refused false
                  [("nodes", RArr [RObj [("id", RStr "")]]);
                   ("loops", RArr []); ("levers", RArr [])]
                  [RObj [("id", RStr "")]] [] []
                  eq_refl eq_refl eq_refl)).
  left. exists (RObj [("id", RStr "")]). split; [now left | reflexivity].
Defined.

Lemma parse_of_state (infinite_ok : bool) (shape : VisualState) :
  state_named shape = true ->
  forallb (zod_number infinite_ok) (state_numbers shape) = true ->
  parseVisualState infinite_ok (of_state (normalized shape))
  = ok_true (normalized shape).
Proof.
  intros Hnamed Hn.
  destruct (normalized_tame infinite_ok shape Hn) as [Hn' Hidem].
  assert (Hnamed' : state_named (normalized shape) = true)
    by now rewrite normalized_named.
  rewrite (parseVisualState_checked infinite_ok _ _
             (visualStateSchema_of _ Hnamed')).
  now rewrite Hn', Hidem.
Qed.

Lemma validatedVisual_parsed (infinite_ok : bool) (x : raw)
  (d lastGood : VisualState) :
  parseVisualState infinite_ok x = ok_true d ->
  validatedVisual infinite_ok d lastGood = (d, d, None).
Proof.
  intros H. destruct (parseVisualState_ok _ _ _ H) as [shape [Hs [Hn ->]]].
  unfold validatedVisual.
  rewrite (parse_of_state infinite_ok shape); [reflexivity | | exact Hn].
  eapply visualStateSchema_named; eassumption.
Qed.

(** X15.  In replay mode [AppShell] shows the current frame's visual as
    [parseVisualState] returned it, or, when that one is refused or absent,
    the last replay visual that parsed: the second validation returns the
    candidate unchanged, raises no warning and never falls back to
    [lastGoodVisualRef].  The effect that records the last valid visual
    keeps it a result of [parseVisualState]. *)
Theorem replay_visual_shown_as_parsed (infinite_ok : bool)
  (currentFrame : option ReplayFrame)
  (lastValidReplayVisual : option VisualState)
  (visualState lastGood : VisualState) :
  (forall d, lastValidReplayVisual = Some d ->
             exists x, parseVisualState infinite_ok x = ok_true d) ->
  (forall d,
     keep_last_valid (replayVisualState infinite_ok currentFrame)
       lastValidReplayVisual = Some d ->
     (exists x, parseVisualState infinite_ok x = ok_true d) /\
     validatedVisual infinite_ok
       (activeVisualCandidate view_replay
          (replayVisualState infinite_ok currentFrame)
          lastValidReplayVisual visualState)
       lastGood
     = (d, d, None)) /\
  (forall f d,
     currentFrame = Some f ->
     parseVisualState infinite_ok (Frame.visual f) = ok_true d ->
     replayVisualState infinite_ok currentFrame = Some d).
Proof.
  intros Hlast. split.
  - intros d. unfold keep_last_valid, activeVisualCandidate.
    destruct (replayVisualState infinite_ok currentFrame) as [r|] eqn:Er.
    + intros H. inversion H; subst; clear H.
      assert (Hx : exists x, parseVisualState infinite_ok x = ok_true d).
      { unfold replayVisualState in Er.
        destruct currentFrame as [f|]; [|discriminate].
        destruct (raw_truthy (Frame.visual f)); [|discriminate].
        destruct (parseVisualState infinite_ok (Frame.visual f)) as [d'|]
          eqn:Ep; [|discriminate].
        inversion Er; subst. now exists (Frame.visual f). }
      split; [exact Hx|]. destruct Hx as [x Hx].
      eapply validatedVisual_parsed; eassumption.
    + intros H. rewrite H. destruct (Hlast _ H) as [x Hx].
      split; [now exists x|]. eapply validatedVisual_parsed; eassumption.
  - intros f d -> Hp. unfold replayVisualState. rewrite Hp.
    unfold parseVisualState, visualStateSchema in Hp.
    destruct (Frame.visual f); try discriminate. reflexivity.
Qed.

Lemma replay_visual_shown_as_parsed_witness :
  validatedVisual true
    (activeVisualCandidate view_replay
       (replayVisualState true
          (Some {| Frame.t := Fin 0; Frame.input_text := None;
                   Frame.system_signals := []; Frame.system_state := None;
                   Frame.visual := payload_with PosInf;
                   Frame.meta := None |}))
       None
       {| State.t := None; State.focus := None; State.nodes := [];
          State.loops := []; State.levers := []; State.flows := None;
          State.field := None |})
    {| State.t := None; State.focus := None; State.nodes := [];
       State.loops := []; State.levers := []; State.flows := None;
       State.field := None |}
  = (let d :=
       {| State.t := None; State.focus := None;
          State.nodes :=
            [{| Node.id := "n1"; Node.shape := box;
                Node.pos := (PosInf, Fin 1, Fin (-3));
                Node.color := "#ff0000"; Node.intensity := Fin 1;
                Node.opacity := Fin 0; Node.scale := None |}];
          State.loops := []; State.levers := [];
          State.flows := None; State.field := None |} in
     (d, d, None)).
Proof.
  refine (proj2 (proj1
    (replay_visual_shown_as_parsed true
       (Some {| Frame.t := Fin 0; Frame.input_text := None;
                Frame.system_signals := []; Frame.system_state := None;
                Frame.visual := payload_with PosInf;
                Frame.meta := None |})
       None _ _ _) _ eq_refl)).
  intros d H. discriminate H.
Defined.

(* ================================================================= *)
(** ** The nearest frame *)

Lemma nearest_loop (t : number) (rest : list ReplayFrame) :
  forall (pre : list ReplayFrame) (bestIndex : nat) (best : ReplayFrame),
    nth_error pre bestIndex = Some best ->
    isNaN (distance t best) = false ->
    (forall g, In g pre -> le (distance t best) (distance t g) = true) ->
    (forall j g, (j < bestIndex)%nat -> nth_error pre j = Some g ->
                 lt (distance t best) (distance t g) = true) ->
    Forall (fun f => isNaN (distance t f) = false) rest ->
    exists f,
      nth_error (pre ++ rest)
        (findNearestFrame_loop rest t (List.length pre) bestIndex
           (distance t best)) = Some f /\
      (forall g, In g (pre ++ rest) ->
                 le (distance t f) (distance t g) = true) /\
      (forall j g,
         (j < findNearestFrame_loop rest t (List.length pre) bestIndex
                (distance t best))%nat ->
         nth_error (pre ++ rest) j = Some g ->
         lt (distance t f) (distance t g) = true).
Proof.
  induction rest as [|f rest IH]; intros pre bestIndex best Hb Hn Hmin Hfirst Hr.
  - rewrite app_nil_r. cbn [findNearestFrame_loop]. exists best. auto.
  - inversion Hr as [|? ? Hf Hrest]; subst.
    assert (Hlen : (bestIndex < List.length pre)%nat).
    { apply nth_error_Some. congruence. }
    cbn [findNearestFrame_loop]. fold (distance t f).
    replace (pre ++ f :: rest) with ((pre ++ [f]) ++ rest)
      by (now rewrite <- app_assoc).
    replace (S (List.length pre)) with (List.length (pre ++ [f]))
      by (rewrite length_app; cbn; lia).
    destruct (lt (distance t f) (distance t best)) eqn:E.
    + replace (List.length pre) with (List.length (pre ++ [f]) - 1)%nat at 2 4
        by (rewrite length_app; cbn; lia).
      replace (List.length (pre ++ [f]) - 1)%nat with (List.length pre)
        by (rewrite length_app; cbn; lia).
      apply IH; try assumption.
      * rewrite nth_error_app2 by lia. now rewrite Nat.sub_diag.
      * intros g Hg. apply in_app_or in Hg. destruct Hg as [Hg | [<- | []]].
        -- eapply num_le_trans; [apply num_lt_le; exact E | now apply Hmin].
        -- now apply num_le_refl.
      * intros j g Hj Hg. rewrite nth_error_app1 in Hg by assumption.
        eapply num_lt_le_trans; [exact E|]. apply Hmin.
        eapply nth_error_In; eassumption.
    + apply IH; try assumption.
      * now rewrite nth_error_app1.
      * intros g Hg. apply in_app_or in Hg. destruct Hg as [Hg | [<- | []]].
        -- now apply Hmin.
        -- now apply num_not_lt_le.
      * intros j g Hj Hg. rewrite nth_error_app1 in Hg by lia.
        now apply (Hfirst j).
Qed.



(* ================================================================= *)
(** ** The strongest signals *)

Lemma insert_permutation_any (A : Type) (comparefn : A -> A -> number)
  (x : A) (l : list A) :
  Permutation (x :: l) (insert comparefn x l).
Proof.
  induction l as [|y rest IH]; cbn [insert]; [reflexivity|].
  destruct (gt (comparefn x y) (Fin 0)); [|reflexivity].
  rewrite perm_swap. now constructor.
Qed.

Lemma Array_sort_permutation (A : Type) (comparefn : A -> A -> number)
  (l : list A) :
  Permutation l (Array_sort comparefn l).
Proof.
  induction l as [|x l IH]; [reflexivity|]. cbn [Array_sort fold_right].
  rewrite <- insert_permutation_any. now constructor.
Qed.

Lemma insert_by_value (x : string * option number)
  (l : list (string * option number)) :
  isNaN (value_or_zero x) = false ->
  Forall (fun e => isNaN (value_or_zero e) = false) l ->
  StronglySorted outranks l ->
  StronglySorted outranks (insert by_value x l).
Proof.
  intros Hx Hl Hs. induction l as [|y rest IH]; cbn [insert].
  - repeat constructor.
  - inversion Hl as [|? ? Hy Hrest]; subst.
    inversion Hs as [|? ? Hs' Hall]; subst.
    unfold by_value at 1. rewrite gt_sub_zero by assumption.
    destruct (lt (value_or_zero x) (value_or_zero y)) eqn:E.
    + constructor; [now apply IH|].
      apply (Permutation_Forall (insert_permutation_any _ by_value x rest)).
      constructor; [|assumption]. unfold outranks. now apply num_lt_le.
    + assert (Hyx : outranks x y).
      { unfold outranks. now apply num_not_lt_le. }
      constructor; [assumption|]. constructor; [assumption|].
      rewrite Forall_forall in *. intros e He. unfold outranks in *.
      eapply num_le_trans; [now apply Hall | exact Hyx].
Qed.

Lemma Array_sort_by_value (l : list (string * option number)) :
  Forall (fun e => isNaN (value_or_zero e) = false) l ->
  StronglySorted outranks (Array_sort by_value l).
Proof.
  induction l as [|x l IH]; intros H; [constructor|].
  inversion H as [|? ? Hx Hl]; subst. cbn [Array_sort fold_right].
  apply insert_by_value; [assumption| |now apply IH].
  apply (Permutation_Forall (Array_sort_permutation _ by_value l) Hl).
Qed.

Lemma StronglySorted_split (A : Type) (R : A -> A -> Prop) (l1 l2 : list A) :
  StronglySorted R (l1 ++ l2) ->
  StronglySorted R l1 /\ forall a b, In a l1 -> In b l2 -> R a b.
Proof.
  induction l1 as [|x l1 IH]; cbn [app]; intros H.
  - split; [constructor|]. intros a b [].
  - inversion H as [|? ? Hs Hall]; subst. destruct (IH Hs) as [Hs1 Hcross].
    split.
    + constructor; [assumption|]. rewrite Forall_forall in *.
      intros a Ha. apply Hall. apply in_or_app. now left.
    + intros a b [<- | Ha] Hb.
      * rewrite Forall_forall in Hall. apply Hall. apply in_or_app. now right.
      * now apply Hcross.
Qed.

(** X17.  On entries whose values are not NaN, [pickTopSignals] returns the
    [limit] strongest entries, or all of them when there are fewer: the
    result is in descending order of value, and no entry left out has a
    value above one that is kept. *)
Theorem pickTopSignals_strongest (entries : list (string * option number))
  (limit : nat) :
  Forall (fun e => isNaN (value_or_zero e) = false) entries ->
  List.length (pickTopSignals entries limit)
  = Nat.min limit (List.length entries) /\
  StronglySorted outranks (pickTopSignals entries limit) /\
  exists rest,
    Permutation entries (pickTopSignals entries limit ++ rest) /\
    forall a b, In a (pickTopSignals entries limit) -> In b rest ->
                outranks a b.
Proof.
  intros H. unfold pickTopSignals.
  pose proof (Array_sort_permutation _ by_value entries) as Hperm.
  pose proof (Array_sort_by_value entries H) as Hsorted.
  rewrite <- (firstn_skipn limit (Array_sort by_value entries)) in Hsorted.
  apply StronglySorted_split in Hsorted. destruct Hsorted as [Hs Hcross].
  split; [|split].
  - rewrite length_firstn. now rewrite <- (Permutation_length Hperm).
  - exact Hs.
  - exists (skipn limit (Array_sort by_value entries)).
    split; [now rewrite firstn_skipn | exact Hcross].
Qed.

Lemma pickTopSignals_strongest_witness :
  List.length
    (pickTopSignals
       [("risk", Some (Fin 2)); ("load", None); ("drift", Some (Fin 5));
        ("delay", Some (Fin 1))] 3)
  = 3%nat.
Proof.
  apply (proj1 (pickTopSignals_strongest
                  [("risk", Some (Fin 2)); ("load", None);
                   ("drift", Some (Fin 5)); ("delay", Some (Fin 1))] 3
                  ltac:(repeat constructor))).
Defined.

(* ================================================================= *)
(** ** Smoothing over several frames *)

Module SmoothingSteps.
Import Reals Lra.
Import Smoothing.
Local Open Scope R_scope.

Lemma damp_damp (current target lambda dt1 dt2 : R) :
  damp (damp current target lambda dt1) target lambda dt2
  = damp current target lambda (dt1 + dt2).
Proof.
  unfold damp. cbv zeta.
  replace (- lambda * (dt1 + dt2)) with (- lambda * dt1 + - lambda * dt2)
    by ring.
  rewrite exp_plus. ring.
Qed.

End SmoothingSteps.

(* ================================================================= *)
(** ** From a validated frame to the scene *)

(** X19.  For a frame that [validateReplayFrame] returned, the guard of
    [replayVisualState] on the frame's [visual] never fires: the replay
    visual is the parse of that [visual].  A frame sent without an object
    for [visual] carries the empty object, which the schema refuses, so it
    yields no replay visual. *)
Theorem validated_frame_visual (infinite_ok : bool) (v : raw)
  (f : ReplayFrame) :
  validateReplayFrame v = Ok f ->
  replayVisualState infinite_ok (Some f)
  = match parseVisualState infinite_ok (Frame.visual f) with
    | ok_true d => Some d
    | ok_false => None
    end /\
  (forall obj,
     v = RObj obj -> is_object_like (get obj "visual") = false ->
     replayVisualState infinite_ok (Some f) = None).
Proof.
  intros H. split.
  - pose proof (validateReplayFrame_ok _ _ H) as Hok.
    unfold frame_ok in Hok. rewrite !andb_true_iff in Hok.
    destruct Hok as [[[_ Hv] _] _]. unfold replayVisualState.
    destruct (Frame.visual f); try discriminate; reflexivity.
  - intros obj -> Hno. unfold validateReplayFrame, assertObject in H.
    cbn [bind] in H.
    destruct (get obj "system_signals"); try discriminate.
    open_result H. inversion H; subst; clear H.
    unfold replayVisualState. cbn [Frame.visual]. rewrite Hno. reflexivity.
Qed.

Lemma validated_frame_visual_witness :
  replayVisualState true (Some (frame_at 1 ""))
  = None.
Proof.
  refine (proj2 (validated_frame_visual true
                   (RObj [("t", RNum (Fin 1)); ("input_text", RStr "");
                          ("system_signals", RObj [])])
                   (frame_at 1 "") _) _ eq_refl eq_refl).
  reflexivity.
Defined.

(* ================================================================= *)
(** ** The list of episodes *)

Lemma validateEpisodeSummary_ok (v : raw) (s : EpisodeSummary) :
  validateEpisodeSummary v = Ok s -> summary_ok s = true.
Proof.
  unfold validateEpisodeSummary, assertObject.
  destruct v; try discriminate. cbn [bind]. intros H. open_result H.
  apply assertNumber_Ok in E2, E3.
  destruct E2 as [_ Hd]. destruct E3 as [_ Hc].
  inversion H; subst; clear H. unfold summary_ok.
  cbn [Summary.duration Summary.frame_count]. now rewrite Hd, Hc.
Qed.

Lemma mapM_length (A B : Type) (f : A -> result B) (items : list A) :
  forall l, mapM f items = Ok l -> List.length l = List.length items.
Proof.
  induction items as [|v items IH]; intros l H; cbn [mapM] in H.
  - inversion H. reflexivity.
  - open_result H. inversion H; subst. cbn [List.length].
    now rewrite (IH _ eq_refl).
Qed.

Lemma mapM_summaries_ok (items : list raw) :
  forall l,
    mapM validateEpisodeSummary items = Ok l -> forallb summary_ok l = true.
Proof.
  induction items as [|v items IH]; intros l H; cbn [mapM] in H.
  - inversion H. reflexivity.
  - open_result H. inversion H; subst. cbn [forallb].
    rewrite (validateEpisodeSummary_ok _ _ E), (IH _ eq_refl). reflexivity.
Qed.

(** X20.  [listEpisodes] returns one summary for each item of the body, with
    no NaN in [duration] or [frame_count], or it fails: a body that is not
    an array fails with its own message.  When it fails,
    [useReplayEpisodesList] keeps the episodes it listed before, sets the
    error and stops loading. *)
Theorem listEpisodes_summaries (response : fetched) (s : EpisodesList) :
  (forall l,
     listEpisodes response = Ok l ->
     exists items,
       response = Body (RArr items) /\
       List.length l = List.length items /\
       forallb summary_ok l = true) /\
  (forall message,
     listEpisodes response = Err message ->
     list_load_settle response (list_load_start s)
     = {| list_loading := false; list_error := Some message;
          episodes := episodes s |}).
Proof.
  split.
  - intros l H. destruct response as [data|m]; [|discriminate].
    destruct data; try discriminate. exists items. cbn [listEpisodes] in H.
    split; [reflexivity|]. split.
    + eapply mapM_length; eassumption.
    + now apply (mapM_summaries_ok items).
  - intros message H. unfold list_load_settle. now rewrite H.
Qed.

Lemma listEpisodes_summaries_witness :
  list_load_settle (Body (RObj []))
    (list_load_start
       {| list_loading := false; list_error := None; episodes := [] |})
  = {| list_loading := false;
       list_error := Some "Invalid episode list: expected array";
       episodes := [] |}.
Proof.
  apply (proj2 (listEpisodes_summaries (Body (RObj []))
                  {| list_loading := false; list_error := None;
                     episodes := [] |})).
  reflexivity.
Defined.

(* ================================================================= *)
(** ** The player under use *)

Lemma clamp_index_from (qi : Q) (i d : Z) (len : nat) :
  qi == inject_Z i -> (0 < len)%nat ->
  exists q,
    clamp (add (Fin qi) (num_of_Z d)) (Fin 0)
          (sub (num_of_nat len) (Fin 1)) = Fin q /\
    q == inject_Z (Z.max 0 (Z.min (Z.of_nat len - 1) (i + d))).
Proof.
  intros Hqi Hlen.
  assert (Hv : qi + inject_Z d == inject_Z (i + d))
    by (now rewrite Hqi, inject_Z_plus).
  assert (Hhi : inject_Z (Z.of_nat len) + - (1) == inject_Z (Z.of_nat len - 1)).
  { unfold Z.sub. rewrite inject_Z_plus, inject_Z_opp. reflexivity. }
  assert (H0 : 0 == inject_Z 0) by reflexivity.
  unfold add, sub, neg, num_of_nat, num_of_Z, add.
  destruct (clamp_spec (Fin (qi + inject_Z d)) (Fin 0)
              (Fin (inject_Z (Z.of_nat len) + - (1))) eq_refl)
    as [_ [_ [Hlow [Hhigh Hmid]]]].
  { rewrite (proj2 (compare_integers _ _ _ _ H0 Hhi)). apply Z.leb_le. lia. }
  rewrite (proj1 (compare_integers _ _ _ _ Hv H0)) in Hlow.
  rewrite (proj1 (compare_integers _ _ _ _ Hhi Hv)) in Hhigh.
  rewrite (proj2 (compare_integers _ _ _ _ H0 Hv)) in Hmid.
  rewrite (proj2 (compare_integers _ _ _ _ Hv Hhi)) in Hmid.
  destruct (clamp (Fin (qi + inject_Z d)) (Fin 0)
              (Fin (inject_Z (Z.of_nat len) + - (1)))) as [| | |q] eqn:Ec.
  1-3: exfalso;
    destruct (Z_lt_le_dec (i + d) 0) as [Hn|Hn];
    [ apply Z.ltb_lt in Hn; specialize (Hlow Hn); discriminate
    | destruct (Z_lt_le_dec (Z.of_nat len - 1) (i + d)) as [Hm|Hm];
      [ apply Z.ltb_lt in Hm; specialize (Hhigh Hm); discriminate
      | apply Z.leb_le in Hn; apply Z.leb_le in Hm;
        specialize (Hmid Hn Hm); discriminate ] ].
  exists q. split; [reflexivity|].
  destruct (Z_lt_le_dec (i + d) 0) as [Hn|Hn].
  - pose proof Hn as Hn'. apply Z.ltb_lt in Hn'. specialize (Hlow Hn').
    simpl in Hlow. q_prop. rewrite Hlow.
    replace (Z.max 0 (Z.min (Z.of_nat len - 1) (i + d))) with 0%Z by lia.
    reflexivity.
  - destruct (Z_lt_le_dec (Z.of_nat len - 1) (i + d)) as [Hm|Hm].
    + pose proof Hm as Hm'. apply Z.ltb_lt in Hm'. specialize (Hhigh Hm').
      simpl in Hhigh. q_prop. rewrite Hhigh, Hhi.
      replace (Z.max 0 (Z.min (Z.of_nat len - 1) (i + d)))
        with (Z.of_nat len - 1)%Z by lia.
      reflexivity.
    + pose proof Hn as Hn'. pose proof Hm as Hm'.
      apply Z.leb_le in Hn'. apply Z.leb_le in Hm'.
      specialize (Hmid Hn' Hm'). simpl in Hmid. q_prop. rewrite Hmid, Hv.
      replace (Z.max 0 (Z.min (Z.of_nat len - 1) (i + d)))
        with (i + d)%Z by lia.
      reflexivity.
Qed.

Lemma valid_index_nat (len n : nat) :
  (n < len)%nat -> valid_index len (num_of_nat n).
Proof.
  intros H. exists (inject_Z (Z.of_nat n)), (Z.of_nat n).
  repeat split; try reflexivity; lia.
Qed.

Lemma playback_effect_index (s : Player) :
  currentIndex (playback_effect s) = currentIndex s.
Proof. unfold playback_effect. now destruct (isPlaying s). Qed.

Lemma player_step_valid (frames : option (list ReplayFrame))
  (duration : number) (s : Player) (a : player_action) :
  sortedFrames frames <> [] ->
  valid_index (List.length (sortedFrames frames)) (currentIndex s) ->
  valid_index (List.length (sortedFrames frames))
    (currentIndex (player_step frames duration s a)).
Proof.
  intros Hne Hs.
  assert (Hlen : (0 < List.length (sortedFrames frames))%nat).
  { destruct (sortedFrames frames); [congruence|simpl; lia]. }
  destruct a; cbn [player_step]; try rewrite playback_effect_index;
    try exact Hs.
  - unfold scrub. cbn [currentIndex].
    apply valid_index_nat. now apply findFrameIndex_bound.
  - destruct Hs as [q [i [Hq [Hi Hr]]]]. unfold step. cbn [currentIndex].
    rewrite Hq.
    destruct (clamp_index_from q i deltaFrames _ Hi Hlen) as [q' [-> Hq']].
    exists q', (Z.max 0 (Z.min (Z.of_nat (List.length (sortedFrames frames)) - 1)
                         (i + deltaFrames))).
    repeat split; try assumption; lia.
  - unfold animation_frame. destruct (isPlaying s); [|exact Hs].
    rewrite playback_effect_index. unfold tick. cbn [currentIndex].
    apply valid_index_nat. now apply findFrameIndex_bound.
Qed.

Lemma player_run_valid (frames : option (list ReplayFrame))
  (duration : number) (actions : list player_action) :
  sortedFrames frames <> [] ->
  forall s,
    valid_index (List.length (sortedFrames frames)) (currentIndex s) ->
    valid_index (List.length (sortedFrames frames))
      (currentIndex (fold_left (player_step frames duration) actions s)).
Proof.
  intros Hne. induction actions as [|a actions IH]; intros s Hs; [exact Hs|].
  cbn [fold_left]. apply IH. now apply player_step_valid.
Qed.

(** X21.  The player never loses its frame: on an episode with frames,
    whatever sequence of play, pause, toggle, speed changes, seeks, whole
    steps and animation frames it goes through from its initial state, with
    any duration and any seek or clock values (NaN included), its index stays
    a whole number within the frames and [currentFrame] is a frame. *)
Theorem player_always_has_frame (frames : option (list ReplayFrame))
  (duration : number) (actions : list player_action) :
  sortedFrames frames <> [] ->
  valid_index (List.length (sortedFrames frames))
    (currentIndex (player_run frames duration actions)) /\
  exists f,
    currentFrame frames (player_run frames duration actions) = Some f /\
    In f (sortedFrames frames).
Proof.
  intros Hne.
  assert (H : valid_index (List.length (sortedFrames frames))
                (currentIndex (player_run frames duration actions))).
  { apply player_run_valid; [assumption|].
    apply (valid_index_nat _ 0).
    destruct (sortedFrames frames); [congruence|simpl; lia]. }
  split; [exact H|]. destruct H as [q [i [Hq [Hi Hr]]]].
  unfold currentFrame. rewrite Hq.
  rewrite (at_index_int _ _ q i Hi) by lia.
  destruct (nth_error (sortedFrames frames) (Z.to_nat i)) as [f|] eqn:E.
  - exists f. split; [reflexivity|]. eapply nth_error_In; eassumption.
  - apply nth_error_None in E. lia.
Qed.

Lemma player_always_has_frame_witness :
  exists f,
    currentFrame (Some [frame_at 5 "c"; frame_at 0 "a"])
      (player_run (Some [frame_at 5 "c"; frame_at 0 "a"]) NaN
         [DoPlay; DoFrame (Fin 16); DoScrub NaN; DoStep 7; DoStep (-9)])
    = Some f /\
    In f (sortedFrames (Some [frame_at 5 "c"; frame_at 0 "a"])).
Proof.
  apply (proj2 (player_always_has_frame
                  (Some [frame_at 5 "c"; frame_at 0 "a"]) NaN
                  [DoPlay; DoFrame (Fin 16); DoScrub NaN; DoStep 7;
                   DoStep (-9)] ltac:(discriminate))).
Defined.

(* ================================================================= *)
(** ** The episodes a session holds *)

Lemma session_step_loaded (st : option string * Session) (e : session_event) :
  (forall held, episode (snd st) = Some held ->
     exists data, Forall timed (Episode.frames data) /\
                  held = loaded_episode data) ->
  forall held, episode (snd (session_step st e)) = Some held ->
    exists data, Forall timed (Episode.frames data) /\
                 held = loaded_episode data.
Proof.
  destruct st as [id s]. cbn [snd]. intros Hinv held.
  destruct e as [next| |requested response]; cbn [session_step].
  - destruct (same_id id next); [apply Hinv|].
    destruct next as [n|]; [|discriminate].
    destruct (String.eqb n ""); [discriminate|]. apply Hinv.
  - destruct id as [n|]; [|apply Hinv].
    destruct (String.eqb n ""); apply Hinv.
  - cbn [snd]. unfold load_settle.
    destruct (getEpisode response) as [data|m] eqn:E; cbn [episode];
      [|discriminate].
    intros H. inversion H; subst. exists data. split; [|reflexivity].
    now destruct (getEpisode_timed _ E).
Qed.

Lemma session_run_loaded (events : list session_event) :
  forall st,
    (forall held, episode (snd st) = Some held ->
       exists data, Forall timed (Episode.frames data) /\
                    held = loaded_episode data) ->
    forall held,
      episode (snd (fold_left session_step events st)) = Some held ->
      exists data, Forall timed (Episode.frames data) /\
                   held = loaded_episode data.
Proof.
  induction events as [|e events IH]; intros st Hinv; [exact Hinv|].
  cbn [fold_left]. apply IH. now apply session_step_loaded.
Qed.

(** X22.  Whatever sequence of id changes, reloads and settled requests
    [useReplayEpisode] goes through, in any order, an episode it holds has
    its frames in ascending order of [t], none of them NaN, and a duration
    that is a number [>= 0]; [AppShell] hands that very duration to the
    player. *)
Theorem session_episode_well_formed (events : list session_event)
  (held : ReplayEpisode) :
  episode (snd (session_run events)) = Some held ->
  ascending (Episode.frames held) /\
  Forall timed (Episode.frames held) /\
  le (Fin 0) (Episode.duration held) = true /\
  replayDuration (Some held) = Episode.duration held.
Proof.
  intros H. unfold session_run in H.
  destruct (session_run_loaded events (None, initial_session)
              ltac:(intros ? ?; discriminate) held H) as [data [Ht ->]].
  split; [now apply sort_frames_ascending|].
  split; [now apply sort_frames_timed|].
  split; [|now apply replayDuration_loaded].
  destruct (loaded_duration_cases data Ht) as [-> | [Hd _]];
    [reflexivity | now apply num_lt_le].
Qed.

Lemma session_episode_well_formed_witness :
  ascending
    (Episode.frames
       (loaded_episode
          {| Episode.episode_id := "A"; Episode.created_at := "c";
             Episode.updated_at := "u"; Episode.title := None;
             Episode.frames :=
               [{| Frame.t := Fin 2; Frame.input_text := None;
                   Frame.system_signals := []; Frame.system_state := None;
                   Frame.visual := RObj []; Frame.meta := None |};
                {| Frame.t := Fin 0; Frame.input_text := None;
                   Frame.system_signals := []; Frame.system_state := None;
                   Frame.visual := RObj []; Frame.meta := None |}];
             Episode.duration := Fin 9; Episode.version := "1" |})).
Proof.
  apply (proj1 (session_episode_well_formed
                  [SetEpisodeId (Some "A");
                   Settled "A" (Body (raw_episode "A" (Fin 9) [2; 0]))]
                  _ eq_refl)).
Defined.

(* ================================================================= *)
(** ** The particles of [ChaosField] *)

Lemma unit_interval_Fin (x : number) :
  unit_interval x = true -> exists q, x = Fin q /\ 0 <= q <= 1.
Proof.
  unfold unit_interval. intros H. apply andb_true_iff in H.
  destruct H as [H0 H1]. destruct x as [| | |q]; try discriminate.
  exists q. split; [reflexivity|]. simpl in *. q_prop. lra.
Qed.

Lemma Qfloor_between (q : Q) (a b : Z) :
  inject_Z a <= q -> q <= inject_Z b -> (a <= Qfloor q <= b)%Z.
Proof.
  intros Ha Hb. split.
  - rewrite <- (Qfloor_Z a). now apply Qfloor_resp_le.
  - rewrite <- (Qfloor_Z b). now apply Qfloor_resp_le.
Qed.

Lemma rand_step (q : Q) (z : Z) :
  q == inject_Z z -> (1 <= z <= 2147483646)%Z ->
  exists q',
    fst (rand (Fin q)) = Fin q' /\
    q' == inject_Z ((z * 16807) mod 2147483647) /\
    (1 <= (z * 16807) mod 2147483647 <= 2147483646)%Z.
Proof.
  intros Hq Hz.
  assert (Hpos : (0 < 2147483647)%Z) by lia.
  pose proof (Z.mod_pos_bound (z * 16807) 2147483647 Hpos) as Hm.
  assert (Hnz : ((z * 16807) mod 2147483647 <> 0)%Z).
  { intros E. apply Z.mod_divide in E; [|lia].
    rewrite Z.mul_comm in E. apply Z.gauss in E; [|reflexivity].
    apply Z.divide_pos_le in E; lia. }
  assert (Ha : q * 16807 == inject_Z (z * 16807)).
  { rewrite Hq, inject_Z_mult. reflexivity. }
  assert (Hfl : Qtrunc (q * 16807 / 2147483647)
                = ((z * 16807) / 2147483647)%Z).
  { unfold Qtrunc.
    assert (Hnn : Qle_bool 0 (q * 16807 / 2147483647) = true).
    { apply Qle_bool_iff. rewrite Ha.
      apply Qle_shift_div_l; [reflexivity|]. rewrite Qmult_0_l.
      change 0 with (inject_Z 0). rewrite <- Zle_Qle. lia. }
    rewrite Hnn, Ha. change 2147483647 with (inject_Z 2147483647).
    now rewrite <- Zdiv_Qdiv. }
  exists (q * 16807 - 2147483647 * inject_Z (Qtrunc (q * 16807 / 2147483647))).
  split; [reflexivity|]. split; [|lia].
  rewrite Hfl, Ha. rewrite Z.mod_eq by lia.
  unfold Z.sub. rewrite inject_Z_plus, inject_Z_opp, inject_Z_mult.
  reflexivity.
Qed.

Lemma rand_state_valid (calls : nat) :
  forall (q : Q) (z : Z),
    q == inject_Z z -> (1 <= z <= 2147483646)%Z ->
    exists q' z',
      rand_state calls (Fin q) = Fin q' /\ q' == inject_Z z' /\
      (1 <= z' <= 2147483646)%Z.
Proof.
  induction calls as [|n IH]; intros q z Hq Hz; cbn [rand_state].
  - now exists q, z.
  - destruct (rand_step q z Hq Hz) as [q' [-> [Hq' Hz']]].
    now apply (IH q' _ Hq').
Qed.

Lemma rand_value (q : Q) (z : Z) :
  q == inject_Z z -> (1 <= z <= 2147483646)%Z ->
  exists v, snd (rand (Fin q)) = Fin v /\ 0 <= v /\ v < 1.
Proof.
  intros Hq Hz. destruct (rand_step q z Hq Hz) as [q' [E [Hq' Hz']]].
  unfold rand in *. cbn [fst snd] in *. rewrite E.
  exists ((q' + - (1)) / 2147483646). split; [reflexivity|].
  assert (H1 : 1 <= q').
  { rewrite Hq'. change 1 with (inject_Z 1). rewrite <- Zle_Qle. lia. }
  assert (H2 : q' <= 2147483646).
  { rewrite Hq'. change 2147483646 with (inject_Z 2147483646).
    rewrite <- Zle_Qle. lia. }
  split.
  - apply Qle_shift_div_l; [reflexivity|]. lra.
  - apply Qlt_shift_div_r; [reflexivity|]. lra.
Qed.

Lemma chaos_seed_valid (f : VisualField) :
  field_in_range f = true ->
  exists q z,
    or_else (chaos_seed f) (Fin 1) = Fin q /\ q == inject_Z z /\
    (1 <= z <= 3000)%Z.
Proof.
  unfold field_in_range. rewrite !andb_true_iff. intros [[Hc Hd] Hn].
  destruct (unit_interval_Fin _ Hc) as [c [Ec Hc']].
  destruct (unit_interval_Fin _ Hd) as [d [Ed Hd']].
  destruct (unit_interval_Fin _ Hn) as [n [En Hn']].
  unfold chaos_seed. rewrite Ec, Ed, En. cbn [add mul Math_floor].
  set (k := Qfloor ((c + d + n) * 1000)).
  assert (Hk : (0 <= k <= 3000)%Z).
  { apply Qfloor_between.
    - change (inject_Z 0) with 0. lra.
    - change (inject_Z 3000) with 3000. lra. }
  unfold or_else, truthy.
  destruct (Qeq_bool (inject_Z k) 0) eqn:E; cbn [negb].
  - exists 1, 1%Z. repeat split; try reflexivity; lia.
  - exists (inject_Z k), k. repeat split; try reflexivity; try lia.
    destruct (Z.eq_dec k 0) as [->|]; [discriminate E|lia].
Qed.

Lemma chaos_count_floor (f : VisualField) (d : Q) :
  Field.density f = Fin d -> 0 <= d <= 1 ->
  chaos_count f = num_of_Z (Qfloor (120 + d * 480)) /\
  (120 <= Qfloor (120 + d * 480) <= 600)%Z.
Proof.
  intros Ed Hd. unfold chaos_count. rewrite Ed. cbn [add mul].
  assert (Hlo : le (Fin 120) (Fin (120 + d * 480)) = true).
  { simpl. apply Qle_bool_iff. lra. }
  assert (Hhi : le (Fin (120 + d * 480)) (Fin 600) = true).
  { simpl. apply Qle_bool_iff. lra. }
  destruct (clamp_spec (Fin (120 + d * 480)) (Fin 120) (Fin 600)
              eq_refl eq_refl) as [_ [_ [_ [_ Hmid]]]].
  specialize (Hmid Hlo Hhi).
  destruct (clamp (Fin (120 + d * 480)) (Fin 120) (Fin 600)) as [| | |r];
    try discriminate.
  apply strict_eq_Qeq in Hmid. cbn [Math_floor]. rewrite Hmid. split.
  - reflexivity.
  - apply Qfloor_between.
    + change (inject_Z 120) with 120. lra.
    + change (inject_Z 600) with 600. lra.
Qed.



(* ================================================================= *)
(** ** The seed of a scene element *)

Lemma lxor_mod_pow2 (a b n : Z) :
  (0 <= n)%Z ->
  (Z.lxor a b mod 2 ^ n = Z.lxor (a mod 2 ^ n) (b mod 2 ^ n))%Z.
Proof.
  intros Hn. apply Z.bits_inj'. intros i Hi.
  rewrite Z.lxor_spec, !Z.testbit_mod_pow2, Z.lxor_spec by assumption.
  destruct (i <? n)%Z; [reflexivity|]. reflexivity.
Qed.

Lemma ToUint32_ToInt32 (z : Z) : ToUint32 (ToInt32 z) = ToUint32 z.
Proof.
  unfold ToUint32, ToInt32.
  rewrite Zminus_mod, Z.mod_mod by lia.
  rewrite <- Zminus_mod.
  replace (z + 2147483648 - 2147483648)%Z with z by lia. reflexivity.
Qed.

Lemma ToUint32_xor32 (h c : Z) :
  (0 <= c < 4294967296)%Z ->
  ToUint32 (xor32 h c) = Z.lxor (ToUint32 h) c.
Proof.
  intros Hc. unfold xor32, ToUint32 at 1.
  change 4294967296%Z with (2 ^ 32)%Z.
  rewrite lxor_mod_pow2 by lia.
  change (2 ^ 32)%Z with 4294967296%Z.
  fold (ToUint32 (ToInt32 h)). fold (ToUint32 (ToInt32 c)).
  rewrite !ToUint32_ToInt32. f_equal.
  unfold ToUint32. now apply Z.mod_small.
Qed.

Lemma hash_loop_fnv1a (codes : list Z) :
  Forall code_unit codes ->
  forall h,
    ToUint32 (hash_loop codes h) = fold_left fnv1a_step codes (ToUint32 h).
Proof.
  induction 1 as [|c codes Hc Hrest IH]; intros h; [reflexivity|].
  cbn [hash_loop fold_left]. rewrite IH. f_equal.
  unfold Math_imul. rewrite ToUint32_ToInt32.
  unfold code_unit in Hc. rewrite ToUint32_xor32 by lia.
  unfold fnv1a_step, ToUint32 at 1 3.
  rewrite Z.mul_mod_idemp_r by lia. reflexivity.
Qed.

Lemma remainder_whole (u m : Z) :
  (0 <= u)%Z -> (0 < m)%Z ->
  exists q,
    remainder (num_of_Z u) (num_of_Z m) = Fin q /\ q == inject_Z (u mod m).
Proof.
  intros Hu Hm. unfold remainder, num_of_Z.
  assert (Hz : Qeq_bool (inject_Z m) 0 = false).
  { destruct (Qeq_bool (inject_Z m) 0) eqn:E; [|reflexivity].
    exfalso. q_prop. change 0 with (inject_Z 0) in E.
    apply (proj1 (inject_Z_injective m 0)) in E. lia. }
  rewrite Hz.
  exists (inject_Z u - inject_Z m * inject_Z (Qtrunc (inject_Z u / inject_Z m))).
  split; [reflexivity|].
  assert (Hfl : Qtrunc (inject_Z u / inject_Z m) = (u / m)%Z).
  { unfold Qtrunc.
    assert (Hnn : Qle_bool 0 (inject_Z u / inject_Z m) = true).
    { apply Qle_bool_iff. apply Qle_shift_div_l.
      - change 0 with (inject_Z 0). rewrite <- Zlt_Qlt. lia.
      - rewrite Qmult_0_l. change 0 with (inject_Z 0).
        rewrite <- Zle_Qle. lia. }
    rewrite Hnn. now rewrite <- Zdiv_Qdiv. }
  rewrite Hfl, Z.mod_eq by lia.
  unfold Z.sub. rewrite inject_Z_plus, inject_Z_opp, inject_Z_mult.
  reflexivity.
Qed.

(** X24.  [hashTo01] is the 32-bit FNV-1a hash of the id's code units,
    reduced modulo 1000 and divided by 1000: the signed 32-bit steps of the
    code agree with the hash computed on unsigned words.  The seed is a
    multiple of 1/1000 from 0 to 0.999. *)
Theorem hashTo01_is_fnv1a (codes : list Z) :
  Forall code_unit codes ->
  exists q,
    hashTo01 codes = Fin q /\
    q == inject_Z (fnv1a codes mod 1000) / 1000 /\
    0 <= q /\ q <= 999 # 1000.
Proof.
  intros Hc. unfold hashTo01.
  pose proof (hash_loop_fnv1a codes Hc 2166136261) as Hh.
  change (ToUint32 2166136261) with 2166136261%Z in Hh. fold (fnv1a codes) in Hh.
  rewrite Hh.
  assert (Hu : (0 <= fnv1a codes)%Z).
  { rewrite <- Hh. unfold ToUint32. apply Z.mod_pos_bound. lia. }
  destruct (remainder_whole (fnv1a codes) 1000 Hu ltac:(lia)) as [r [Hr Er]].
  change (num_of_Z 1000) with (Fin 1000) in Hr. rewrite Hr.
  exists (r / 1000). split; [reflexivity|].
  pose proof (Z.mod_pos_bound (fnv1a codes) 1000 ltac:(lia)) as Hm.
  assert (H0 : 0 <= r).
  { rewrite Er. change 0 with (inject_Z 0). rewrite <- Zle_Qle. lia. }
  assert (H1 : r <= 999).
  { rewrite Er. change 999 with (inject_Z 999). rewrite <- Zle_Qle. lia. }
  split; [now rewrite Er|]. split.
  - apply Qle_shift_div_l; [reflexivity|]. lra.
  - apply Qle_shift_div_r; [reflexivity|]. lra.
Qed.

Lemma hashTo01_is_fnv1a_witness :
  exists q,
    hashTo01 [110; 49]%Z = Fin q /\
    q == inject_Z (fnv1a [110; 49]%Z mod 1000) / 1000 /\
    0 <= q /\ q <= 999 # 1000.
Proof.
  apply (hashTo01_is_fnv1a [110; 49]%Z).
  repeat constructor; unfold code_unit; lia.
Defined.
